(** * The upper half of the NuttX CAN character driver (drivers/can.c)

    A shallow embedding of the device-independent CAN driver: the DLC
    codec, the three-index transmit FIFO with its transmit engine
    ([can_xmit], [can_txdone], [can_write], [can_txready_work]), the
    receive FIFO ([can_receive], [can_read]), the table of pending
    remote transmission requests ([can_rtrread]), and registration, open
    and close.

    Integers of the C code are [Z].  The lower half (the [can_ops_s]
    table of the hardware driver) is an interface, here the class
    [can_ops] over an arbitrary hardware state.  A semaphore is its
    counter.  A function that may block in [sem_wait] returns an outcome
    that says so; the caller of the model resumes it once the
    environment (the interrupt handlers, the other threads) has run; so
    does [can_close], which sleeps between its polls of the TX FIFO and of
    the hardware. *)

From Stdlib Require Import ZArith List Bool Lia.
From stdpp Require Import base option list gmap.
Import ListNotations.

Local Open Scope Z_scope.

(** ** Build-time configuration and header constants

    [CONFIG_*] are the Kconfig options read by drivers/can.c.  The other
    fields are constants of include/nuttx/can.h, include/errno.h and
    include/fcntl.h, which drivers/can.c uses by name only. *)

Class can_config := {
  CONFIG_CAN_FD : bool;
  CONFIG_CAN_ERRORS : bool;
  CONFIG_CAN_EXTID : bool;
  CONFIG_CAN_TXREADY : bool;
  CONFIG_CAN_FIFOSIZE : Z;
  CONFIG_CAN_NPENDINGRTR : nat;
  CAN_HDRLEN : Z;                (* sizeof(struct can_hdr_s) *)
  CAN_ERROR_DLC : Z;
  CAN_ERROR_INTERNAL : Z;
  CAN_ERROR5_RXOVERFLOW : Z;
  CANIOC_RTR : Z;
  SIZE_MAX1 : Z;                 (* SIZE_MAX + 1, the modulus of size_t *)
  EIO : Z; EAGAIN : Z; ENOMEM : Z; EBUSY : Z; ENOENT : Z; EMFILE : Z;
  EINTR : Z
}.

Definition OK : Z := 0.

(** The 8-bit counters of [struct can_dev_s] wrap around. *)
Definition u8 (z : Z) : Z := z mod 256.

Section Codec.
Context `{Cfg : can_config}.

(** Modelled from the spec: CAN_MSGLEN, a macro of include/nuttx/can.h that
    is not part of drivers/can.c.  The serialized message is the header
    followed by [nbytes] payload bytes, packed contiguously. *)
Definition CAN_MSGLEN (nbytes : Z) : Z := CAN_HDRLEN + nbytes.

(** [can_dlc2bytes], on the [uint8_t] argument. *)
Definition can_dlc2bytes (dlc : Z) : Z :=
  if 8 <? dlc then
    if CONFIG_CAN_FD then
      match dlc with
      | 9 => 12
      | 10 => 16
      | 11 => 20
      | 12 => 24
      | 13 => 32
      | 14 => 48
      | _ => 64
      end
    else 8
  else dlc.

(** [can_bytes2dlc], the text that drivers/can.c keeps under [#if 0]. *)
Definition can_bytes2dlc (nbytes : Z) : Z :=
  if nbytes <=? 8 then nbytes
  else if CONFIG_CAN_FD then
    if nbytes <=? 12 then 9
    else if nbytes <=? 16 then 10
    else if nbytes <=? 20 then 11
    else if nbytes <=? 24 then 12
    else if nbytes <=? 32 then 13
    else if nbytes <=? 48 then 14
    else 15
  else 8.

End Codec.

(** The CAN-FD table as the specification lists it, and the look-up of a
    code in such a table. *)
Definition canfd_table : list (Z * Z) :=
  [(9, 12); (10, 16); (11, 20); (12, 24); (13, 32); (14, 48); (15, 64)].

Fixpoint table_value (dlc : Z) (t : list (Z * Z)) : option Z :=
  match t with
  | [] => None
  | (d, n) :: t' => if d =? dlc then Some n else table_value dlc t'
  end.

(** ** Data model *)

(** [struct can_hdr_s].  [ch_error] exists when CONFIG_CAN_ERRORS is set and
    [ch_extid] when CONFIG_CAN_EXTID is set; the code touches them under the
    same conditions. *)
Record can_hdr_s := {
  ch_id : Z;
  ch_dlc : Z;
  ch_rtr : Z;
  ch_error : Z;
  ch_extid : Z;
  ch_unused : Z
}.

(** [struct can_msg_s]: the header and the [cm_data] array. *)
Record can_msg_s := {
  cm_hdr : can_hdr_s;
  cm_data : list Z
}.

Definition null_hdr : can_hdr_s :=
  {| ch_id := 0; ch_dlc := 0; ch_rtr := 0; ch_error := 0; ch_extid := 0;
     ch_unused := 0 |}.
Definition null_msg : can_msg_s := {| cm_hdr := null_hdr; cm_data := [] |}.

(** [struct can_txfifo_s].  The indices stay below CONFIG_CAN_FIFOSIZE, which
    the header keeps within their 8 bits. *)
Record can_txfifo_s := {
  tx_sem : Z;
  tx_head : Z;
  tx_queue : Z;
  tx_tail : Z;
  tx_buffer : list can_msg_s
}.

(** [struct can_rxfifo_s] *)
Record can_rxfifo_s := {
  rx_sem : Z;
  rx_head : Z;
  rx_tail : Z;
  rx_buffer : list can_msg_s
}.

(** [struct can_rtrwait_s].  [cr_msg] points into the memory of the waiting
    caller: [None] is NULL, [Some a] the object at address [a]. *)
Record can_rtrwait_s := {
  cr_sem : Z;
  cr_id : Z;
  cr_msg : option nat
}.

(** [struct canioc_rtr_s], the argument of the CANIOC_RTR ioctl. *)
Record canioc_rtr_s := {
  ci_id : Z;
  ci_msg : option nat
}.

(** [struct can_dev_s].  [cd_priv] is the state of the lower half;
    [cd_work] is true while the [can_txready_work] item is queued. *)
Record can_dev_s {H : Type} := {
  cd_ocount : Z;
  cd_npendrtr : Z;
  cd_ntxwaiters : Z;
  cd_nrxwaiters : Z;
  cd_error : Z;
  cd_closesem : Z;
  cd_xmit : can_txfifo_s;
  cd_recv : can_rxfifo_s;
  cd_work : bool;
  cd_rtr : list can_rtrwait_s;
  cd_priv : H
}.
Arguments can_dev_s : clear implicits.

(** The memory of the callers that [cr_msg] points into: the objects that
    exist, by address. *)
Abbreviation usermem := (gmap nat can_msg_s).

(** The caller's buffer of [can_read] and [can_write], as the driver looks at
    it: the [struct can_msg_s] seen through the cast
    [(FAR struct can_msg_s * )&buffer[off]] at byte offset [off]. *)
Definition userbuf := Z -> can_msg_s.

(** *** Field updates *)

Definition with_tx_sem (v : Z) (f : can_txfifo_s) : can_txfifo_s :=
  {| tx_sem := v; tx_head := tx_head f; tx_queue := tx_queue f;
     tx_tail := tx_tail f; tx_buffer := tx_buffer f |}.
Definition with_tx_head (v : Z) (f : can_txfifo_s) : can_txfifo_s :=
  {| tx_sem := tx_sem f; tx_head := v; tx_queue := tx_queue f;
     tx_tail := tx_tail f; tx_buffer := tx_buffer f |}.
Definition with_tx_queue (v : Z) (f : can_txfifo_s) : can_txfifo_s :=
  {| tx_sem := tx_sem f; tx_head := tx_head f; tx_queue := v;
     tx_tail := tx_tail f; tx_buffer := tx_buffer f |}.
Definition with_tx_tail (v : Z) (f : can_txfifo_s) : can_txfifo_s :=
  {| tx_sem := tx_sem f; tx_head := tx_head f; tx_queue := tx_queue f;
     tx_tail := v; tx_buffer := tx_buffer f |}.
Definition with_tx_buffer (v : list can_msg_s) (f : can_txfifo_s)
  : can_txfifo_s :=
  {| tx_sem := tx_sem f; tx_head := tx_head f; tx_queue := tx_queue f;
     tx_tail := tx_tail f; tx_buffer := v |}.

Definition with_rx_sem (v : Z) (f : can_rxfifo_s) : can_rxfifo_s :=
  {| rx_sem := v; rx_head := rx_head f; rx_tail := rx_tail f;
     rx_buffer := rx_buffer f |}.
Definition with_rx_head (v : Z) (f : can_rxfifo_s) : can_rxfifo_s :=
  {| rx_sem := rx_sem f; rx_head := v; rx_tail := rx_tail f;
     rx_buffer := rx_buffer f |}.
Definition with_rx_tail (v : Z) (f : can_rxfifo_s) : can_rxfifo_s :=
  {| rx_sem := rx_sem f; rx_head := rx_head f; rx_tail := v;
     rx_buffer := rx_buffer f |}.
Definition with_rx_buffer (v : list can_msg_s) (f : can_rxfifo_s)
  : can_rxfifo_s :=
  {| rx_sem := rx_sem f; rx_head := rx_head f; rx_tail := rx_tail f;
     rx_buffer := v |}.

Section DevUpdates.
Context {H : Type}.
Implicit Type dev : can_dev_s H.

Definition with_ocount (v : Z) dev : can_dev_s H :=
  {| cd_ocount := v; cd_npendrtr := cd_npendrtr dev;
     cd_ntxwaiters := cd_ntxwaiters dev; cd_nrxwaiters := cd_nrxwaiters dev;
     cd_error := cd_error dev; cd_closesem := cd_closesem dev;
     cd_xmit := cd_xmit dev; cd_recv := cd_recv dev; cd_work := cd_work dev;
     cd_rtr := cd_rtr dev; cd_priv := cd_priv dev |}.
Definition with_npendrtr (v : Z) dev : can_dev_s H :=
  {| cd_ocount := cd_ocount dev; cd_npendrtr := v;
     cd_ntxwaiters := cd_ntxwaiters dev; cd_nrxwaiters := cd_nrxwaiters dev;
     cd_error := cd_error dev; cd_closesem := cd_closesem dev;
     cd_xmit := cd_xmit dev; cd_recv := cd_recv dev; cd_work := cd_work dev;
     cd_rtr := cd_rtr dev; cd_priv := cd_priv dev |}.
Definition with_ntxwaiters (v : Z) dev : can_dev_s H :=
  {| cd_ocount := cd_ocount dev; cd_npendrtr := cd_npendrtr dev;
     cd_ntxwaiters := v; cd_nrxwaiters := cd_nrxwaiters dev;
     cd_error := cd_error dev; cd_closesem := cd_closesem dev;
     cd_xmit := cd_xmit dev; cd_recv := cd_recv dev; cd_work := cd_work dev;
     cd_rtr := cd_rtr dev; cd_priv := cd_priv dev |}.
Definition with_nrxwaiters (v : Z) dev : can_dev_s H :=
  {| cd_ocount := cd_ocount dev; cd_npendrtr := cd_npendrtr dev;
     cd_ntxwaiters := cd_ntxwaiters dev; cd_nrxwaiters := v;
     cd_error := cd_error dev; cd_closesem := cd_closesem dev;
     cd_xmit := cd_xmit dev; cd_recv := cd_recv dev; cd_work := cd_work dev;
     cd_rtr := cd_rtr dev; cd_priv := cd_priv dev |}.
Definition with_error (v : Z) dev : can_dev_s H :=
  {| cd_ocount := cd_ocount dev; cd_npendrtr := cd_npendrtr dev;
     cd_ntxwaiters := cd_ntxwaiters dev; cd_nrxwaiters := cd_nrxwaiters dev;
     cd_error := v; cd_closesem := cd_closesem dev;
     cd_xmit := cd_xmit dev; cd_recv := cd_recv dev; cd_work := cd_work dev;
     cd_rtr := cd_rtr dev; cd_priv := cd_priv dev |}.
Definition with_closesem (v : Z) dev : can_dev_s H :=
  {| cd_ocount := cd_ocount dev; cd_npendrtr := cd_npendrtr dev;
     cd_ntxwaiters := cd_ntxwaiters dev; cd_nrxwaiters := cd_nrxwaiters dev;
     cd_error := cd_error dev; cd_closesem := v;
     cd_xmit := cd_xmit dev; cd_recv := cd_recv dev; cd_work := cd_work dev;
     cd_rtr := cd_rtr dev; cd_priv := cd_priv dev |}.
Definition with_xmit (v : can_txfifo_s) dev : can_dev_s H :=
  {| cd_ocount := cd_ocount dev; cd_npendrtr := cd_npendrtr dev;
     cd_ntxwaiters := cd_ntxwaiters dev; cd_nrxwaiters := cd_nrxwaiters dev;
     cd_error := cd_error dev; cd_closesem := cd_closesem dev;
     cd_xmit := v; cd_recv := cd_recv dev; cd_work := cd_work dev;
     cd_rtr := cd_rtr dev; cd_priv := cd_priv dev |}.
Definition with_recv (v : can_rxfifo_s) dev : can_dev_s H :=
  {| cd_ocount := cd_ocount dev; cd_npendrtr := cd_npendrtr dev;
     cd_ntxwaiters := cd_ntxwaiters dev; cd_nrxwaiters := cd_nrxwaiters dev;
     cd_error := cd_error dev; cd_closesem := cd_closesem dev;
     cd_xmit := cd_xmit dev; cd_recv := v; cd_work := cd_work dev;
     cd_rtr := cd_rtr dev; cd_priv := cd_priv dev |}.
Definition with_work (v : bool) dev : can_dev_s H :=
  {| cd_ocount := cd_ocount dev; cd_npendrtr := cd_npendrtr dev;
     cd_ntxwaiters := cd_ntxwaiters dev; cd_nrxwaiters := cd_nrxwaiters dev;
     cd_error := cd_error dev; cd_closesem := cd_closesem dev;
     cd_xmit := cd_xmit dev; cd_recv := cd_recv dev; cd_work := v;
     cd_rtr := cd_rtr dev; cd_priv := cd_priv dev |}.
Definition with_rtr (v : list can_rtrwait_s) dev : can_dev_s H :=
  {| cd_ocount := cd_ocount dev; cd_npendrtr := cd_npendrtr dev;
     cd_ntxwaiters := cd_ntxwaiters dev; cd_nrxwaiters := cd_nrxwaiters dev;
     cd_error := cd_error dev; cd_closesem := cd_closesem dev;
     cd_xmit := cd_xmit dev; cd_recv := cd_recv dev; cd_work := cd_work dev;
     cd_rtr := v; cd_priv := cd_priv dev |}.
Definition with_priv (v : H) dev : can_dev_s H :=
  {| cd_ocount := cd_ocount dev; cd_npendrtr := cd_npendrtr dev;
     cd_ntxwaiters := cd_ntxwaiters dev; cd_nrxwaiters := cd_nrxwaiters dev;
     cd_error := cd_error dev; cd_closesem := cd_closesem dev;
     cd_xmit := cd_xmit dev; cd_recv := cd_recv dev; cd_work := cd_work dev;
     cd_rtr := cd_rtr dev; cd_priv := v |}.

End DevUpdates.

(** ** The lower half *)

(** Modelled from the spec: the lower-half adapter, the [struct can_ops_s]
    behind the [dev_*] macros of include/nuttx/can.h, which is not part of
    drivers/can.c.  Each method reads or changes the state [H] of the
    hardware.  [dev_send] hands one message to the hardware: its second
    result tells whether the lower half calls [can_txdone] back before it
    returns, as drivers with a hardware TX FIFO do, and the third is its
    return value. *)
Class can_ops (H : Type) := {
  dev_reset : H -> H;
  dev_setup : H -> H * Z;
  dev_shutdown : H -> H;
  dev_rxint : H -> bool -> H;
  dev_txint : H -> bool -> H;
  dev_ioctl : H -> Z -> Z -> H * Z;
  dev_remoterequest : H -> Z -> H * Z;
  dev_send : H -> can_msg_s -> H * bool * Z;
  dev_txready : H -> bool;
  dev_txempty : H -> bool
}.

(** Modelled from the spec: the semaphores of the NuttX kernel ([sem_post],
    [sem_wait]), which are not part of drivers/can.c.  A semaphore is its
    counter.  To post it adds one.  A caller of [sem_wait] is suspended, the
    interrupt handlers and the other threads run, and the wait returns either
    with success, having taken one, or with -1 and [errno] set. *)
Definition sem_post (count : Z) : Z := count + 1.
Definition sem_take (count : Z) : Z := count - 1.

Inductive sem_result :=
  | SemOk
  | SemErr (errno : Z).

(** [rtr->cr_msg = NULL; sem_post(&rtr->cr_sem)]: the slot a served waiter
    leaves behind, free and with its semaphore posted *)
Definition rtr_release (rtr : can_rtrwait_s) : can_rtrwait_s :=
  {| cr_sem := sem_post (cr_sem rtr); cr_id := cr_id rtr; cr_msg := None |}.

(** ** The transmit engine *)

Section Transmit.
Context `{Cfg : can_config} {H : Type} `{Ops : can_ops H}.
Implicit Type dev : can_dev_s H.

(** The step of a ring index: [if (++ndx >= CONFIG_CAN_FIFOSIZE) ndx = 0]. *)
Definition fifo_next (ndx : Z) : Z :=
  if CONFIG_CAN_FIFOSIZE <=? ndx + 1 then 0 else ndx + 1.

(** [buf[ndx]] *)
Definition msg_at (buf : list can_msg_s) (ndx : Z) : can_msg_s :=
  default null_msg (buf !! Z.to_nat ndx).

Definition tx_empty dev : bool :=
  tx_head (cd_xmit dev) =? tx_tail (cd_xmit dev).

Definition sem_post_tx dev : can_dev_s H :=
  with_xmit (with_tx_sem (sem_post (tx_sem (cd_xmit dev))) (cd_xmit dev)) dev.

(** [can_xmit] given its [while] loop.  The DEBUGASSERTs, compiled in for
    debug builds only, are not part of the behaviour; [can_txdone_ordered]
    and [tx_step] carry the one of [can_txdone] as a hypothesis. *)
Definition can_xmit_with (loop : can_dev_s H -> Z -> option (can_dev_s H * Z))
    dev : option (can_dev_s H * Z) :=
  if tx_empty dev then
    Some (if CONFIG_CAN_TXREADY then dev
          else with_priv (dev_txint (cd_priv dev) false) dev, - EIO)
  else
    match loop dev (- EBUSY) with
    | Some (dev', ret) =>
        Some (with_priv (dev_txint (cd_priv dev') true) dev', ret)
    | None => None
    end.

(** [can_txdone] given [can_xmit]. *)
Definition can_txdone_with (xmit : can_dev_s H -> option (can_dev_s H * Z))
    dev : option (can_dev_s H * Z) :=
  if tx_empty dev then Some (dev, - ENOENT)
  else
    let dev1 :=
      with_xmit (with_tx_head (fifo_next (tx_head (cd_xmit dev)))
                              (cd_xmit dev)) dev in
    match xmit dev1 with
    | Some (dev2, _) =>
        if cd_ntxwaiters dev2 >? 0 then Some (sem_post_tx dev2, OK)
        else Some (dev2, OK)
    | None => None
    end.

(** The [while] loop of [can_xmit].  [dev_send] may call [can_txdone], which
    calls [can_xmit]: the recursion is bounded by [fuel], and
    [can_xmit_ordered] shows that [xmit_fuel] is enough. *)
Fixpoint can_xmit_loop (fuel : nat) dev (ret : Z)
    : option (can_dev_s H * Z) :=
  match fuel with
  | O => None
  | S fuel' =>
      if negb (tx_queue (cd_xmit dev) =? tx_tail (cd_xmit dev))
         && dev_txready (cd_priv dev)
      then
        let tmpndx := tx_queue (cd_xmit dev) in
        let dev1 :=
          with_xmit (with_tx_queue (fifo_next tmpndx) (cd_xmit dev)) dev in
        let '(h, callback, r) :=
          dev_send (cd_priv dev1) (msg_at (tx_buffer (cd_xmit dev1)) tmpndx) in
        let dev2 := with_priv h dev1 in
        match
          (if callback
           then can_txdone_with (can_xmit_with (can_xmit_loop fuel')) dev2
           else Some (dev2, OK))
        with
        | Some (dev3, _) =>
            if r =? OK then can_xmit_loop fuel' dev3 r else Some (dev3, r)
        | None => None
        end
      else Some (dev, ret)
  end.

Definition can_xmit_fuel (fuel : nat) dev :=
  can_xmit_with (can_xmit_loop fuel) dev.
Definition can_txdone_fuel (fuel : nat) dev :=
  can_txdone_with (can_xmit_fuel fuel) dev.

Definition xmit_fuel : nat := S (Z.to_nat CONFIG_CAN_FIFOSIZE).

Definition can_xmit dev : option (can_dev_s H * Z) :=
  can_xmit_fuel xmit_fuel dev.
Definition can_txdone dev : option (can_dev_s H * Z) :=
  can_txdone_fuel xmit_fuel dev.

(** [can_txready_work] *)
Definition can_txready_work dev : option (can_dev_s H) :=
  if negb (tx_empty dev) then
    match can_xmit dev with
    | Some (dev1, ret) =>
        if (0 <=? ret) && (cd_ntxwaiters dev1 >? 0)
        then Some (sem_post_tx dev1) else Some dev1
    | None => None
    end
  else Some dev.

(** [can_txready].  The work queue of the kernel is the [cd_work] flag:
    [work_available] reads it and [work_queue] sets it and returns OK. *)
Definition can_txready dev : can_dev_s H * Z :=
  if negb (tx_empty dev) then
    if negb (cd_work dev) then (with_work true dev, OK)
    else (dev, - EBUSY)
  else (dev, - ENOENT).

(** *** [can_write] *)

(** A call of [can_write] either returns, or is suspended in
    [sem_wait(&fifo->tx_sem)] with its locals [nsent] and [nexttail]. *)
Inductive write_outcome :=
  | WriteRet (ret : Z) (dev : can_dev_s H)
  | WriteWait (nsent nexttail : Z) (dev : can_dev_s H).

(** [memcpy(dst, src, CAN_MSGLEN(nbytes))] between two [struct can_msg_s]:
    the header and the first [nbytes] bytes of [cm_data]. *)
Definition copy_msg (nbytes : Z) (src dst : can_msg_s) : can_msg_s :=
  {| cm_hdr := cm_hdr src;
     cm_data := take (Z.to_nat nbytes) (cm_data src)
                ++ drop (Z.to_nat nbytes) (cm_data dst) |}.

Section Write.
Variable nonblock : bool.        (* filep->f_oflags & O_NONBLOCK *)
Variable buffer : userbuf.
Variable buflen : Z.

(** Entering [sem_wait]: the body of the [do] loop up to the wait. *)
Definition can_write_wait (nsent nexttail : Z) dev : write_outcome :=
  WriteWait nsent nexttail (with_ntxwaiters (u8 (cd_ntxwaiters dev + 1)) dev).

(** From the test of [while (nexttail == fifo->tx_head)] to the end of the
    body of the outer loop; [loop] is the outer loop. *)
Definition can_write_slot
    (loop : Z -> bool -> can_dev_s H -> option write_outcome)
    (nsent nexttail : Z) (inactive : bool) dev : option write_outcome :=
  if nexttail =? tx_head (cd_xmit dev) then
    if nonblock then
      Some (WriteRet (if nsent =? 0 then - EAGAIN else nsent) dev)
    else
      match (if inactive then can_xmit dev else Some (dev, OK)) with
      | Some (dev1, _) => Some (can_write_wait nsent nexttail dev1)
      | None => None
      end
  else
    let msg := buffer nsent in
    let nbytes := can_dlc2bytes (ch_dlc (cm_hdr msg)) in
    let msglen := CAN_MSGLEN nbytes in
    let fifo := cd_xmit dev in
    let ndx := Z.to_nat (tx_tail fifo) in
    let slot := copy_msg nbytes msg (msg_at (tx_buffer fifo) (tx_tail fifo)) in
    let fifo1 := with_tx_buffer (<[ndx := slot]> (tx_buffer fifo)) fifo in
    loop (nsent + msglen) inactive
         (with_xmit (with_tx_tail nexttail fifo1) dev).

(** The outer loop [while ((buflen - nsent) >= CAN_MSGLEN(0))] and what
    follows it.  The difference is computed in [size_t]. *)
Fixpoint can_write_loop (fuel : nat) (nsent : Z) (inactive : bool) dev
    : option write_outcome :=
  match fuel with
  | O => None
  | S fuel' =>
      if CAN_MSGLEN 0 <=? (buflen - nsent) mod SIZE_MAX1 then
        can_write_slot (can_write_loop fuel') nsent
          (fifo_next (tx_tail (cd_xmit dev))) inactive dev
      else
        match (if inactive then can_xmit dev else Some (dev, OK)) with
        | Some (dev1, _) => Some (WriteRet nsent dev1)
        | None => None
        end
  end.

Definition write_fuel : nat := S (Z.to_nat CONFIG_CAN_FIFOSIZE).

Definition can_write dev : option write_outcome :=
  can_write_loop write_fuel 0 (dev_txempty (cd_priv dev)) dev.

(** The return of [sem_wait] in a suspended [can_write]: [dev] is the device
    as the interrupt handlers left it, [res] what [sem_wait] returns. *)
Definition can_write_wake (res : sem_result) (nsent nexttail : Z) dev
    : option write_outcome :=
  let dev1 := with_ntxwaiters (u8 (cd_ntxwaiters dev - 1)) dev in
  match res with
  | SemErr errno =>
      if errno =? EINTR then Some (can_write_wait nsent nexttail dev1)
      else Some (WriteRet (- errno) dev1)
  | SemOk =>
      let dev2 :=
        with_xmit (with_tx_sem (sem_take (tx_sem (cd_xmit dev1)))
                               (cd_xmit dev1))
                  dev1 in
      can_write_slot (can_write_loop write_fuel) nsent nexttail
        (dev_txempty (cd_priv dev2)) dev2
  end.

(** [k] whole messages of the caller's buffer, taken from byte offset [off]
    on, appended to the TX FIFO: the offset behind them and the FIFO.  A
    write that copied a whole number of frames leaves the FIFO in such a
    state. *)
Fixpoint enqueue_frames (k : nat) (off : Z) (f : can_txfifo_s)
    : Z * can_txfifo_s :=
  match k with
  | O => (off, f)
  | S k' =>
      let msg := buffer off in
      let nbytes := can_dlc2bytes (ch_dlc (cm_hdr msg)) in
      let slot := copy_msg nbytes msg (msg_at (tx_buffer f) (tx_tail f)) in
      enqueue_frames k' (off + CAN_MSGLEN nbytes)
        (with_tx_tail (fifo_next (tx_tail f))
           (with_tx_buffer (<[Z.to_nat (tx_tail f) := slot]> (tx_buffer f)) f))
  end.

End Write.
End Transmit.

(** ** The receive engine *)

Section Receive.
Context `{Cfg : can_config} {H : Type} `{Ops : can_ops H}.
Implicit Type dev : can_dev_s H.

(** [for (i = 0, dest = ...; i < nbytes; i++) *dest++ = *data++;] with [k]
    the position of [dest] in the destination array.  [data] is the memory at
    the source pointer; the result carries the advanced pointer.  A read past
    the end of what the caller described yields 0. *)
Fixpoint copy_data (nbytes : nat) (dest : list Z) (k : nat) (data : list Z)
    : list Z * list Z :=
  match nbytes with
  | O => (dest, data)
  | S n => copy_data n (<[k := hd 0 data]> dest) (S k) (tl data)
  end.

(** The loop over the pending RTR list in [can_receive].  The inner copy
    loop counts with the same [i], which holds [nbytes] when it ends, and
    [data] is not rewound. *)
Fixpoint can_receive_rtr (fuel : nat) (i : nat) (hdr : can_hdr_s)
    (data : list Z) dev (um : usermem)
    : option (can_dev_s H * usermem * list Z) :=
  match fuel with
  | O => None
  | S fuel' =>
      if (i <? CONFIG_CAN_NPENDINGRTR)%nat then
        match cd_rtr dev !! i with
        | Some rtr =>
            match cr_msg rtr with
            | Some msg =>
                if ch_id hdr =? cr_id rtr then
                  let nbytes := Z.to_nat (can_dlc2bytes (ch_dlc hdr)) in
                  let um1 :=
                    alter (fun m =>
                             {| cm_hdr := hdr;
                                cm_data :=
                                  fst (copy_data nbytes (cm_data m) 0 data) |})
                          msg um in
                  let data1 := snd (copy_data nbytes [] 0 data) in
                  let dev1 :=
                    with_npendrtr (u8 (cd_npendrtr dev - 1))
                      (with_rtr (<[i := rtr_release rtr]> (cd_rtr dev))
                                dev) in
                  can_receive_rtr fuel' (S nbytes) hdr data1 dev1 um1
                else can_receive_rtr fuel' (S i) hdr data dev um
            | None => can_receive_rtr fuel' (S i) hdr data dev um
            end
        | None => can_receive_rtr fuel' (S i) hdr data dev um
        end
      else Some (dev, um, data)
  end.

Definition rtr_fuel : nat :=
  S (S CONFIG_CAN_NPENDINGRTR * S CONFIG_CAN_NPENDINGRTR).

(** The first part of [can_receive]: the scan of the pending RTR list,
    skipped when [cd_npendrtr] is 0 *)
Definition pending_scan dev (um : usermem) (hdr : can_hdr_s)
    (data : list Z) : option (can_dev_s H * usermem * list Z) :=
  if cd_npendrtr dev >? 0 then can_receive_rtr rtr_fuel 0 hdr data dev um
  else Some (dev, um, data).

(** [can_receive] *)
Definition can_receive dev (um : usermem) (hdr : can_hdr_s) (data : list Z)
    : option (Z * can_dev_s H * usermem) :=
  let nexttail := fifo_next (rx_tail (cd_recv dev)) in
  match pending_scan dev um hdr data with
  | None => None
  | Some (dev1, um1, data1) =>
      let fifo := cd_recv dev1 in
      if negb (nexttail =? rx_head fifo) then
        let nbytes := Z.to_nat (can_dlc2bytes (ch_dlc hdr)) in
        let old := msg_at (rx_buffer fifo) (rx_tail fifo) in
        let slot :=
          {| cm_hdr := hdr;
             cm_data := fst (copy_data nbytes (cm_data old) 0 data1) |} in
        let fifo1 :=
          with_rx_tail nexttail
            (with_rx_buffer
               (<[Z.to_nat (rx_tail fifo) := slot]> (rx_buffer fifo)) fifo) in
        let fifo2 :=
          if cd_nrxwaiters dev1 >? 0
          then with_rx_sem (sem_post (rx_sem fifo1)) fifo1 else fifo1 in
        Some (OK, with_recv fifo2 dev1, um1)
      else if CONFIG_CAN_ERRORS then
        Some (- ENOMEM,
              with_error (u8 (Z.lor (cd_error dev1) CAN_ERROR5_RXOVERFLOW))
                         dev1,
              um1)
      else Some (- ENOMEM, dev1, um1)
  end.

(** *** [can_read] *)

(** A call of [can_read] either returns, or is suspended in
    [sem_wait(&dev->cd_recv.rx_sem)]. *)
Inductive read_outcome :=
  | ReadRet (ret : Z) (buffer : userbuf) (dev : can_dev_s H)
  | ReadWait (buffer : userbuf) (dev : can_dev_s H).

(** [memset(p, 0, n)] on an array *)
Definition memset0 (n : nat) (l : list Z) : list Z :=
  foldr (fun k acc => <[k := 0]> acc) l (seq 0 n).

(** A store into the caller's buffer at byte offset [off] *)
Definition buf_store (off : Z) (m : can_msg_s) (buffer : userbuf) : userbuf :=
  fun o => if o =? off then m else buffer o.

Section Read.
Variable nonblock : bool.        (* filep->f_oflags & O_NONBLOCK *)
Variable buflen : Z.

(** The [do ... while] loop that copies messages out of the FIFO. *)
Fixpoint can_read_copy (fuel : nat) (nread : Z) (buffer : userbuf) dev
    : option read_outcome :=
  match fuel with
  | O => None
  | S fuel' =>
      let fifo := cd_recv dev in
      let msg := msg_at (rx_buffer fifo) (rx_head fifo) in
      let nbytes := can_dlc2bytes (ch_dlc (cm_hdr msg)) in
      let msglen := CAN_MSGLEN nbytes in
      if nread + msglen >? buflen then Some (ReadRet nread buffer dev)
      else
        let buffer1 :=
          buf_store nread (copy_msg nbytes msg (buffer nread)) buffer in
        let dev1 :=
          with_recv (with_rx_head (fifo_next (rx_head fifo)) fifo) dev in
        if negb (rx_head (cd_recv dev1) =? rx_tail (cd_recv dev1))
        then can_read_copy fuel' (nread + msglen) buffer1 dev1
        else Some (ReadRet (nread + msglen) buffer1 dev1)
  end.

Definition read_fuel : nat := S (Z.to_nat CONFIG_CAN_FIFOSIZE).

(** From the test of [while (rx_head == rx_tail)] on *)
Definition can_read_fifo (buffer : userbuf) dev : option read_outcome :=
  if rx_head (cd_recv dev) =? rx_tail (cd_recv dev) then
    if nonblock then Some (ReadRet (- EAGAIN) buffer dev)
    else
      Some (ReadWait buffer
              (with_nrxwaiters (u8 (cd_nrxwaiters dev + 1)) dev))
  else can_read_copy read_fuel 0 buffer dev.

(** The pseudo-message that reports [cd_error], written over [old] *)
Definition error_msg (err : Z) (old : can_msg_s) : can_msg_s :=
  {| cm_hdr :=
       {| ch_id := CAN_ERROR_INTERNAL;
          ch_dlc := CAN_ERROR_DLC;
          ch_rtr := 0;
          ch_error := 1;
          ch_extid := if CONFIG_CAN_EXTID then 0 else ch_extid (cm_hdr old);
          ch_unused := 0 |};
     cm_data := <[5%nat := err]> (memset0 (Z.to_nat CAN_ERROR_DLC)
                                          (cm_data old)) |}.

(** [can_read] *)
Definition can_read (buffer : userbuf) dev : option read_outcome :=
  if CAN_MSGLEN 0 <=? buflen then
    if CONFIG_CAN_ERRORS && negb (cd_error dev =? 0) then
      if buflen <? CAN_MSGLEN CAN_ERROR_DLC then Some (ReadRet 0 buffer dev)
      else
        Some (ReadRet (CAN_MSGLEN CAN_ERROR_DLC)
                (buf_store 0 (error_msg (cd_error dev) (buffer 0)) buffer)
                (with_error 0 dev))
    else can_read_fifo buffer dev
  else Some (ReadRet 0 buffer dev).

(** The return of [sem_wait] in a suspended [can_read] *)
Definition can_read_wake (res : sem_result) (buffer : userbuf) dev
    : option read_outcome :=
  match res with
  | SemOk =>
      let dev1 :=
        with_recv (with_rx_sem (sem_take (rx_sem (cd_recv dev)))
                               (cd_recv dev)) dev in
      if rx_head (cd_recv dev1) =? rx_tail (cd_recv dev1)
      then Some (ReadWait buffer dev1)
      else
        can_read_fifo buffer
          (with_nrxwaiters (u8 (cd_nrxwaiters dev1 - 1)) dev1)
  | SemErr errno =>
      Some (ReadRet (- errno) buffer
              (with_nrxwaiters (u8 (cd_nrxwaiters dev - 1)) dev))
  end.

End Read.
End Receive.

(** ** Remote transmission requests, ioctl, registration and open *)

Section Control.
Context `{Cfg : can_config} {H : Type} `{Ops : can_ops H}.
Implicit Type dev : can_dev_s H.

(** A call of [can_rtrread] either returns, or is suspended in
    [sem_wait(&wait->cr_sem)] on the slot it took. *)
Inductive rtr_outcome :=
  | RtrRet (ret : Z) (dev : can_dev_s H)
  | RtrWait (slot : nat) (dev : can_dev_s H).

(** The search loop of [can_rtrread], from index [i] with [n] slots to go.
    The test is [!rtr->ci_msg], on the request. *)
Fixpoint can_rtrread_find (n i : nat) (rtr : canioc_rtr_s) dev
    : can_dev_s H * option nat :=
  match n with
  | O => (dev, None)
  | S n' =>
      match ci_msg rtr with
      | None =>
          let tmp :=
            alter (fun s => {| cr_sem := cr_sem s; cr_id := ci_id rtr;
                               cr_msg := ci_msg rtr |}) i (cd_rtr dev) in
          (with_npendrtr (u8 (cd_npendrtr dev + 1)) (with_rtr tmp dev), Some i)
      | Some _ => can_rtrread_find n' (S i) rtr dev
      end
  end.

(** [can_rtrread] *)
Definition can_rtrread dev (rtr : canioc_rtr_s) : rtr_outcome :=
  match can_rtrread_find CONFIG_CAN_NPENDINGRTR 0 rtr dev with
  | (dev1, Some i) =>
      let id := default 0 (cr_id <$> cd_rtr dev1 !! i) in
      let '(h, ret) := dev_remoterequest (cd_priv dev1) id in
      let dev2 := with_priv h dev1 in
      if ret =? OK then RtrWait i dev2 else RtrRet ret dev2
  | (dev1, None) => RtrRet (- ENOMEM) dev1
  end.

(** The return of [sem_wait] in a suspended [can_rtrread]: 0 or -1. *)
Definition can_rtrread_wake (res : sem_result) (slot : nat) dev
    : rtr_outcome :=
  match res with
  | SemOk =>
      RtrRet 0
        (with_rtr (alter (fun s => {| cr_sem := sem_take (cr_sem s);
                                      cr_id := cr_id s;
                                      cr_msg := cr_msg s |}) slot (cd_rtr dev))
                  dev)
  | SemErr _ => RtrRet (-1) dev
  end.

(** [can_ioctl].  [arg] is the number passed and [rtr] the request it points
    to when the command is CANIOC_RTR. *)
Definition can_ioctl dev (cmd arg : Z) (rtr : canioc_rtr_s) : rtr_outcome :=
  if cmd =? CANIOC_RTR then can_rtrread dev rtr
  else
    let '(h, ret) := dev_ioctl (cd_priv dev) cmd arg in
    RtrRet ret (with_priv h dev).

(** [can_register], up to the call of [register_driver] *)
Definition can_register dev : can_dev_s H :=
  {| cd_ocount := 0;
     cd_npendrtr := 0;
     cd_ntxwaiters := 0;
     cd_nrxwaiters := 0;
     cd_error := if CONFIG_CAN_ERRORS then 0 else cd_error dev;
     cd_closesem := 1;
     cd_xmit := with_tx_sem 0 (cd_xmit dev);
     cd_recv := with_rx_sem 0 (cd_recv dev);
     cd_work := cd_work dev;
     cd_rtr :=
       (fun s => {| cr_sem := 0; cr_id := cr_id s; cr_msg := None |})
         <$> cd_rtr dev;
     cd_priv := dev_reset (cd_priv dev) |}.

(** [can_open], once [sem_wait(&dev->cd_closesem)] has returned [res] *)
Definition can_open (res : sem_result) dev : can_dev_s H * Z :=
  match res with
  | SemErr errno => (dev, - errno)
  | SemOk =>
      let dev0 := with_closesem (sem_take (cd_closesem dev)) dev in
      let tmp := u8 (cd_ocount dev0 + 1) in
      let '(dev3, ret) :=
        if tmp =? 0 then (dev0, - EMFILE)
        else if tmp =? 1 then
          let '(h, ret) := dev_setup (cd_priv dev0) in
          let dev1 := with_priv h dev0 in
          if ret =? OK then
            let xmit :=
              with_tx_tail 0
                (with_tx_queue 0 (with_tx_head 0 (cd_xmit dev1))) in
            let recv := with_rx_tail 0 (with_rx_head 0 (cd_recv dev1)) in
            let dev2 := with_recv recv (with_xmit xmit dev1) in
            (with_ocount 1
               (with_priv (dev_rxint (cd_priv dev2) true) dev2), ret)
          else (dev1, ret)
        else (with_ocount tmp dev0, OK) in
      (with_closesem (sem_post (cd_closesem dev3)) dev3, ret)
  end.

End Control.

(** ** Close *)

Section Close.
Context `{Cfg : can_config} {H : Type} `{Ops : can_ops H}.
Implicit Type dev : can_dev_s H.

(** A call of [can_close] either returns, or sleeps ([usleep], or
    [up_mdelay] without signals) in one of its two polling loops while the
    interrupt handlers go on: in the first until the TX FIFO is empty, in the
    second until the hardware has sent everything. *)
Inductive close_outcome :=
  | CloseRet (ret : Z) (dev : can_dev_s H)
  | CloseSleepFifo (dev : can_dev_s H)
  | CloseSleepHw (dev : can_dev_s H).

(** From the test of [while (!dev_txempty(dev))] on: the second loop, the
    shutdown and the [sem_post]. *)
Definition can_close_hw dev : close_outcome :=
  if negb (dev_txempty (cd_priv dev)) then CloseSleepHw dev
  else
    let dev1 := with_priv (dev_shutdown (cd_priv dev)) dev in
    CloseRet OK (with_closesem (sem_post (cd_closesem dev1)) dev1).

(** From the test of [while (tx_head != tx_tail)] on *)
Definition can_close_drain dev : close_outcome :=
  if negb (tx_head (cd_xmit dev) =? tx_tail (cd_xmit dev))
  then CloseSleepFifo dev
  else can_close_hw dev.

(** [can_close], once [sem_wait(&dev->cd_closesem)] has returned [res] *)
Definition can_close (res : sem_result) dev : close_outcome :=
  match res with
  | SemErr errno => CloseRet (- errno) dev
  | SemOk =>
      let dev0 := with_closesem (sem_take (cd_closesem dev)) dev in
      if cd_ocount dev0 >? 1 then
        let dev1 := with_ocount (u8 (cd_ocount dev0 - 1)) dev0 in
        CloseRet OK (with_closesem (sem_post (cd_closesem dev1)) dev1)
      else
        let dev1 := with_ocount 0 dev0 in
        can_close_drain (with_priv (dev_rxint (cd_priv dev1) false) dev1)
  end.

(** The device at the end of a stretch of [can_close] *)
Definition close_dev (o : close_outcome) : can_dev_s H :=
  match o with
  | CloseRet _ dev => dev
  | CloseSleepFifo dev => dev
  | CloseSleepHw dev => dev
  end.

End Close.

(** ** Invariants *)

Section Invariants.
Context `{Cfg : can_config} {H : Type}.
Implicit Type dev : can_dev_s H.

(** The number of steps from ring index [a] forward to [b] *)
Definition ring_dist (a b : Z) : Z := (b - a) mod CONFIG_CAN_FIFOSIZE.

Definition in_ring (ndx : Z) : Prop := 0 <= ndx < CONFIG_CAN_FIFOSIZE.

(** [head <= queue <= tail] modulo the capacity: going forward from [head],
    [queue] comes no later than [tail]. *)
Definition tx_ordered (f : can_txfifo_s) : Prop :=
  in_ring (tx_head f) /\ in_ring (tx_queue f) /\ in_ring (tx_tail f) /\
  ring_dist (tx_head f) (tx_queue f) <= ring_dist (tx_head f) (tx_tail f).

(** The same, decided *)
Definition tx_orderedb (f : can_txfifo_s) : bool :=
  let inr x := (0 <=? x) && (x <? CONFIG_CAN_FIFOSIZE) in
  inr (tx_head f) && inr (tx_queue f) && inr (tx_tail f)
  && (ring_dist (tx_head f) (tx_queue f) <=? ring_dist (tx_head f) (tx_tail f)).

(** The number of messages in the TX FIFO: written and not yet completed *)
Definition tx_pending (f : can_txfifo_s) : Z :=
  ring_dist (tx_head f) (tx_tail f).

(** What the transmit engine does to the TX FIFO: the order is kept, the
    tail and the messages are untouched, and [queue] and [head] move towards
    the tail only. *)
Definition tx_progress (f f' : can_txfifo_s) : Prop :=
  tx_ordered f' /\ tx_tail f' = tx_tail f /\ tx_buffer f' = tx_buffer f
  /\ ring_dist (tx_queue f') (tx_tail f') <= ring_dist (tx_queue f) (tx_tail f)
  /\ ring_dist (tx_head f') (tx_tail f') <= ring_dist (tx_head f) (tx_tail f).

(** A transmit loop that returns, with progress, from every ordered FIFO
    with fewer than [n] messages still to hand to the hardware *)
Definition loop_ok (n : Z)
    (loop : can_dev_s H -> Z -> option (can_dev_s H * Z)) : Prop :=
  forall dev ret,
    tx_ordered (cd_xmit dev) ->
    ring_dist (tx_queue (cd_xmit dev)) (tx_tail (cd_xmit dev)) < n ->
    exists dev' r,
      loop dev ret = Some (dev', r)
      /\ tx_progress (cd_xmit dev) (cd_xmit dev').

(** The same for a [can_xmit] *)
Definition xmit_ok (n : Z) (xmit : can_dev_s H -> option (can_dev_s H * Z))
    : Prop :=
  forall dev,
    tx_ordered (cd_xmit dev) ->
    ring_dist (tx_queue (cd_xmit dev)) (tx_tail (cd_xmit dev)) < n ->
    exists dev' r,
      xmit dev = Some (dev', r) /\ tx_progress (cd_xmit dev) (cd_xmit dev').

(** A transmit loop that returns from every ordered FIFO with fewer than [n]
    messages still to hand to the hardware, and relates the device before
    and after by [P] *)
Definition loop_post (P : can_dev_s H -> can_dev_s H -> Prop) (n : Z)
    (loop : can_dev_s H -> Z -> option (can_dev_s H * Z)) : Prop :=
  forall dev ret,
    tx_ordered (cd_xmit dev) ->
    ring_dist (tx_queue (cd_xmit dev)) (tx_tail (cd_xmit dev)) < n ->
    exists dev' r, loop dev ret = Some (dev', r) /\ P dev dev'.

(** What [can_xmit] and [can_txdone] do to the device besides the state of
    the lower half: progress in the TX FIFO, one post of [tx_sem] for every
    message completed while a writer waits, and nothing else. *)
Definition tx_effect dev dev' : Prop :=
  tx_progress (cd_xmit dev) (cd_xmit dev')
  /\ cd_ntxwaiters dev' = cd_ntxwaiters dev
  /\ tx_sem (cd_xmit dev')
     = tx_sem (cd_xmit dev)
       + (if cd_ntxwaiters dev >? 0
          then tx_pending (cd_xmit dev) - tx_pending (cd_xmit dev') else 0)
  /\ cd_recv dev' = cd_recv dev /\ cd_rtr dev' = cd_rtr dev
  /\ cd_npendrtr dev' = cd_npendrtr dev
  /\ cd_nrxwaiters dev' = cd_nrxwaiters dev
  /\ cd_error dev' = cd_error dev /\ cd_ocount dev' = cd_ocount dev
  /\ cd_closesem dev' = cd_closesem dev /\ cd_work dev' = cd_work dev.

(** A TX FIFO with nothing left in it, its three indices at [t] *)
Definition tx_drained (t : Z) (f : can_txfifo_s) : Prop :=
  tx_head f = t /\ tx_queue f = t /\ tx_tail f = t.

(** Counting the slots of the pending RTR list that satisfy [p] *)
Fixpoint count_slots (p : can_rtrwait_s -> bool) (l : list can_rtrwait_s)
    : nat :=
  match l with
  | [] => 0
  | s :: l' => ((if p s then 1 else 0) + count_slots p l')%nat
  end.

(** A slot is in use when its receiving address is not NULL. *)
Definition slot_in_use (s : can_rtrwait_s) : bool :=
  match cr_msg s with
  | Some _ => true
  | None => false
  end.

Definition rtr_occupied (l : list can_rtrwait_s) : nat :=
  count_slots slot_in_use l.

(** [cd_npendrtr] is the number of slots in use. *)
Definition rtr_counted dev : Prop :=
  cd_npendrtr dev = Z.of_nat (rtr_occupied (cd_rtr dev)).

(** The slots that wait for the identifier [id] *)
Definition rtr_matches (id : Z) (s : can_rtrwait_s) : bool :=
  match cr_msg s with
  | Some _ => id =? cr_id s
  | None => false
  end.

(** What the scan of the pending RTR list leaves alone *)
Definition rtr_frame dev dev' : Prop :=
  cd_recv dev' = cd_recv dev /\ cd_xmit dev' = cd_xmit dev
  /\ cd_error dev' = cd_error dev /\ cd_nrxwaiters dev' = cd_nrxwaiters dev
  /\ cd_ntxwaiters dev' = cd_ntxwaiters dev /\ cd_priv dev' = cd_priv dev
  /\ cd_ocount dev' = cd_ocount dev
  /\ length (cd_rtr dev') = length (cd_rtr dev).

(** The weight that bounds the scan: every match frees a slot, and between
    two matches the index only grows. *)
Definition rtr_weight (id : Z) (i : nat) dev : nat :=
  (count_slots (rtr_matches id) (cd_rtr dev) * S CONFIG_CAN_NPENDINGRTR
   + (CONFIG_CAN_NPENDINGRTR - i))%nat.

End Invariants.

(** ** The steps between critical-section boundaries that concern the TX
    FIFO *)

Section Steps.
Context `{Cfg : can_config} {H : Type} `{Ops : can_ops H}.
Implicit Type dev : can_dev_s H.

(** The device at the end of a stretch of [can_write] *)
Definition write_dev (o : write_outcome) : can_dev_s H :=
  match o with
  | WriteRet _ dev => dev
  | WriteWait _ _ dev => dev
  end.

(** One uninterrupted stretch of the driver: a call that runs to its return
    or to its [sem_wait], the rest of a [can_write] after its [sem_wait], or
    an upcall from the lower half.  [can_txdone] is called as its DEBUGASSERT
    demands, and a writer that resumes finds [tx_tail] where it left it: its
    [nexttail] is still the step of [tx_tail].  Everything else ([can_read],
    [can_receive], [can_rtrread], the hardware itself) leaves [cd_xmit]
    alone. *)
Inductive tx_step : can_dev_s H -> can_dev_s H -> Prop :=
  | step_open res dev :
      tx_step dev (fst (can_open res dev))
  | step_write nonblock buffer buflen dev o :
      can_write nonblock buffer buflen dev = Some o ->
      tx_step dev (write_dev o)
  | step_write_wake nonblock buffer buflen res nsent dev o :
      can_write_wake nonblock buffer buflen res nsent
        (fifo_next (tx_tail (cd_xmit dev))) dev = Some o ->
      tx_step dev (write_dev o)
  | step_txdone dev dev' ret :
      (tx_head (cd_xmit dev) <> tx_tail (cd_xmit dev) ->
       tx_head (cd_xmit dev) <> tx_queue (cd_xmit dev)) ->
      can_txdone dev = Some (dev', ret) ->
      tx_step dev dev'
  | step_txready dev :
      tx_step dev (fst (can_txready dev))
  | step_txready_work dev dev' :
      can_txready_work dev = Some dev' ->
      tx_step dev dev'
  | step_other dev dev' :
      cd_xmit dev' = cd_xmit dev ->
      tx_step dev dev'.

End Steps.

(** The device at the end of a stretch of [can_read] and of [can_rtrread] *)
Definition read_dev {H : Type} (o : @read_outcome H) : can_dev_s H :=
  match o with
  | ReadRet _ _ dev => dev
  | ReadWait _ dev => dev
  end.

Definition rtr_dev {H : Type} (o : @rtr_outcome H) : can_dev_s H :=
  match o with
  | RtrRet _ dev => dev
  | RtrWait _ dev => dev
  end.

(** ** The messages in the FIFOs *)

Section Contents.
Context `{Cfg : can_config}.

(** The [n] messages of a ring buffer from index [from] on, in the order of
    the index *)
Fixpoint ring_slice (n : nat) (from : Z) (buf : list can_msg_s)
    : list can_msg_s :=
  match n with
  | O => []
  | S n' => msg_at buf from :: ring_slice n' (fifo_next from) buf
  end.

(** The index [n] steps after [from] *)
Fixpoint ring_step (n : nat) (from : Z) : Z :=
  match n with
  | O => from
  | S n' => ring_step n' (fifo_next from)
  end.

(** Both indices of the RX FIFO are inside the buffer, which has
    CONFIG_CAN_FIFOSIZE entries. *)
Definition rx_wf (f : can_rxfifo_s) : Prop :=
  in_ring (rx_head f) /\ in_ring (rx_tail f)
  /\ length (rx_buffer f) = Z.to_nat CONFIG_CAN_FIFOSIZE.

(** The messages received and not yet read, oldest first: those from
    [rx_head] up to [rx_tail] *)
Definition rx_contents (f : can_rxfifo_s) : list can_msg_s :=
  ring_slice (Z.to_nat (ring_dist (rx_head f) (rx_tail f)))
    (rx_head f) (rx_buffer f).

(** The messages written and not yet handed to the hardware, oldest first:
    those from [tx_queue] up to [tx_tail] *)
Definition tx_unsent (f : can_txfifo_s) : list can_msg_s :=
  ring_slice (Z.to_nat (ring_dist (tx_queue f) (tx_tail f)))
    (tx_queue f) (tx_buffer f).

(** The messages written and not yet completed, from [tx_head] up to
    [tx_tail] *)
Definition tx_contents (f : can_txfifo_s) : list can_msg_s :=
  ring_slice (Z.to_nat (ring_dist (tx_head f) (tx_tail f)))
    (tx_head f) (tx_buffer f).

(** [CAN_MSGLEN(can_dlc2bytes(msg->cm_hdr.ch_dlc))]: the bytes a message
    takes in a caller's buffer *)
Definition frame_len (m : can_msg_s) : Z :=
  CAN_MSGLEN (can_dlc2bytes (ch_dlc (cm_hdr m))).

Fixpoint frames_len (msgs : list can_msg_s) : Z :=
  match msgs with
  | [] => 0
  | m :: rest => frame_len m + frames_len rest
  end.

(** How many of the messages [msgs], taken in order, fit into a buffer of
    [buflen] bytes of which [nread] are used *)
Fixpoint fit_count (buflen nread : Z) (msgs : list can_msg_s) : nat :=
  match msgs with
  | [] => O
  | m :: rest =>
      if nread + frame_len m >? buflen then O
      else S (fit_count buflen (nread + frame_len m) rest)
  end.

(** The caller's buffer with the messages [msgs] copied into it one behind
    the other from byte offset [nread] on *)
Fixpoint store_frames (msgs : list can_msg_s) (nread : Z) (buffer : userbuf)
    : userbuf :=
  match msgs with
  | [] => buffer
  | m :: rest =>
      store_frames rest (nread + frame_len m)
        (buf_store nread
           (copy_msg (can_dlc2bytes (ch_dlc (cm_hdr m))) m (buffer nread))
           buffer)
  end.

(** The [k] messages that lie one behind the other in a caller's buffer from
    byte offset [off] on *)
Fixpoint user_frames (buffer : userbuf) (k : nat) (off : Z)
    : list can_msg_s :=
  match k with
  | O => []
  | S k' => buffer off :: user_frames buffer k' (off + frame_len (buffer off))
  end.

(** A slot of a FIFO after the message [m] was copied into it: the header of
    [m] and its data bytes, over whatever the slot held *)
Definition holds_frame (slot m : can_msg_s) : Prop :=
  exists old, slot = copy_msg (can_dlc2bytes (ch_dlc (cm_hdr m))) m old.

End Contents.

(** A lower half that keeps, beside the state of [Ops], the list of the
    messages that were passed to its [dev_send], in the order of the calls *)
Definition logged_ops {H : Type} (Ops : can_ops H)
    : can_ops (H * list can_msg_s) :=
  {| dev_reset := fun s => (dev_reset (fst s), snd s);
     dev_setup := fun s =>
       let '(h, ret) := dev_setup (fst s) in ((h, snd s), ret);
     dev_shutdown := fun s => (dev_shutdown (fst s), snd s);
     dev_rxint := fun s on => (dev_rxint (fst s) on, snd s);
     dev_txint := fun s on => (dev_txint (fst s) on, snd s);
     dev_ioctl := fun s cmd arg =>
       let '(h, ret) := dev_ioctl (fst s) cmd arg in ((h, snd s), ret);
     dev_remoterequest := fun s id =>
       let '(h, ret) := dev_remoterequest (fst s) id in ((h, snd s), ret);
     dev_send := fun s msg =>
       let '(h, callback, ret) := dev_send (fst s) msg in
       ((h, snd s ++ [msg]), callback, ret);
     dev_txready := fun s => dev_txready (fst s);
     dev_txempty := fun s => dev_txempty (fst s) |}.

(** On such a lower half: the messages passed to [dev_send] so far, followed
    by those that wait in the TX FIFO for their turn *)
Definition tx_stream {Cfg : can_config} {H : Type}
    (dev : can_dev_s (H * list can_msg_s)) : list can_msg_s :=
  snd (cd_priv dev) ++ tx_unsent (cd_xmit dev).

Definition tx_stream_kept {Cfg : can_config} {H : Type}
    (dev dev' : can_dev_s (H * list can_msg_s)) : Prop :=
  tx_progress (cd_xmit dev) (cd_xmit dev') /\ tx_stream dev' = tx_stream dev.

(** [k] calls of [can_open] one after the other, each of which finds
    [cd_closesem] free *)
Fixpoint can_open_times {Cfg : can_config} {H : Type} {Ops : can_ops H}
    (k : nat) (dev : can_dev_s H) : can_dev_s H :=
  match k with
  | O => dev
  | S k' => fst (can_open SemOk (can_open_times k' dev))
  end.

(** ** Concrete configurations and lower halves *)

(** Classic CAN with four messages per FIFO and four RTR slots; the numbers
    of the header constants are those of NuttX. *)
Definition classic_can : can_config :=
  {| CONFIG_CAN_FD := false; CONFIG_CAN_ERRORS := true;
     CONFIG_CAN_EXTID := true; CONFIG_CAN_TXREADY := false;
     CONFIG_CAN_FIFOSIZE := 4; CONFIG_CAN_NPENDINGRTR := 4;
     CAN_HDRLEN := 5;
     CAN_ERROR_DLC := 8; CAN_ERROR_INTERNAL := 256;
     CAN_ERROR5_RXOVERFLOW := 1; CANIOC_RTR := 2561;
     SIZE_MAX1 := 2 ^ 32;
     EIO := 5; EAGAIN := 11; ENOMEM := 12; EBUSY := 16; ENOENT := 2;
     EMFILE := 24; EINTR := 4 |}.

(** CAN FD with eight messages per FIFO and the TX-ready work item *)
Definition canfd_can : can_config :=
  {| CONFIG_CAN_FD := true; CONFIG_CAN_ERRORS := true;
     CONFIG_CAN_EXTID := true; CONFIG_CAN_TXREADY := true;
     CONFIG_CAN_FIFOSIZE := 8; CONFIG_CAN_NPENDINGRTR := 4;
     CAN_HDRLEN := 5;
     CAN_ERROR_DLC := 8; CAN_ERROR_INTERNAL := 256;
     CAN_ERROR5_RXOVERFLOW := 1; CANIOC_RTR := 2561;
     SIZE_MAX1 := 2 ^ 32;
     EIO := 5; EAGAIN := 11; ENOMEM := 12; EBUSY := 16; ENOENT := 2;
     EMFILE := 24; EINTR := 4 |}.

(** A controller with three transmit mailboxes and no hardware FIFO: the
    state is the number of mailboxes in use (a remote request takes one too),
    and completion is reported from the interrupt handler only. *)
Definition mailbox_ops : can_ops Z :=
  {| dev_reset := fun _ => 0;
     dev_setup := fun h => (h, OK);
     dev_shutdown := fun _ => 0;
     dev_rxint := fun h _ => h;
     dev_txint := fun h _ => h;
     dev_ioctl := fun h _ _ => (h, OK);
     dev_remoterequest := fun h _ => (h + 1, OK);
     dev_send := fun h _ => (h + 1, false, OK);
     dev_txready := fun h => h <? 3;
     dev_txempty := fun h => h =? 0 |}.

(** A controller with a hardware TX FIFO that is never full: [dev_send]
    calls [can_txdone] back at once. *)
Definition hwfifo_ops : can_ops unit :=
  {| dev_reset := fun h => h;
     dev_setup := fun h => (h, OK);
     dev_shutdown := fun h => h;
     dev_rxint := fun h _ => h;
     dev_txint := fun h _ => h;
     dev_ioctl := fun h _ _ => (h, OK);
     dev_remoterequest := fun h _ => (h, OK);
     dev_send := fun h _ => (h, true, OK);
     dev_txready := fun _ => true;
     dev_txempty := fun _ => true |}.

Definition frame (id dlc : Z) (data : list Z) : can_msg_s :=
  {| cm_hdr := {| ch_id := id; ch_dlc := dlc; ch_rtr := 0; ch_error := 0;
                  ch_extid := 0; ch_unused := 0 |};
     cm_data := data |}.

Definition zero_msg (n : nat) : can_msg_s := frame 0 0 (replicate n 0).

(** A device structure before [can_register], with [r] RTR slots and [c]
    messages per FIFO *)
Definition blank_dev {H : Type} (c r n : nat) (h : H) : can_dev_s H :=
  {| cd_ocount := 0; cd_npendrtr := 0; cd_ntxwaiters := 0;
     cd_nrxwaiters := 0; cd_error := 0; cd_closesem := 0;
     cd_xmit := {| tx_sem := 0; tx_head := 0; tx_queue := 0; tx_tail := 0;
                   tx_buffer := replicate c (zero_msg n) |};
     cd_recv := {| rx_sem := 0; rx_head := 0; rx_tail := 0;
                   rx_buffer := replicate c (zero_msg n) |};
     cd_work := false;
     cd_rtr := replicate r {| cr_sem := 0; cr_id := 0; cr_msg := None |};
     cd_priv := h |}.

(** The device after [can_register] *)
Definition fresh_dev : can_dev_s Z :=
  can_register (Cfg := classic_can) (Ops := mailbox_ops) (blank_dev 4 4 8 0).

(** A device with the RX-overflow error latched, and a caller's buffer *)
Definition latched_dev : can_dev_s Z := with_error 1 fresh_dev.

Definition blank_buf : userbuf := fun _ => zero_msg 8.

Definition waiter (id : Z) (a : nat) : can_rtrwait_s :=
  {| cr_sem := 0; cr_id := id; cr_msg := Some a |}.

(** RTR lists with waiters: one in slot 0; two for identifier 0x123 in slots
    0 and 1; two in slots 0 and 3; and the memory of two callers *)
Definition busy0_dev : can_dev_s Z :=
  with_npendrtr 1
    (with_rtr (<[0%nat := waiter 7 11]> (cd_rtr fresh_dev)) fresh_dev).

Definition two_waiters_dev : can_dev_s Z :=
  with_npendrtr 2
    (with_rtr (<[1%nat := waiter 291 11]>
                 (<[0%nat := waiter 291 10]> (cd_rtr fresh_dev))) fresh_dev).

Definition far_waiters_dev : can_dev_s Z :=
  with_npendrtr 2
    (with_rtr (<[3%nat := waiter 291 11]>
                 (<[0%nat := waiter 291 10]> (cd_rtr fresh_dev))) fresh_dev).

Definition two_waiters_mem : usermem :=
  {[ 10%nat := zero_msg 8; 11%nat := zero_msg 8 ]}.

(** A device whose RX FIFO is full while slot 1 of the RTR list waits for
    identifier 0x123 with its receiving message at address 10, and the
    memory of that caller *)
Definition full_rx_dev : can_dev_s Z :=
  with_npendrtr 1
    (with_rtr (<[1%nat := waiter 291 10]> (cd_rtr fresh_dev))
       (with_recv (with_rx_tail 3 (cd_recv fresh_dev)) fresh_dev)).

Definition one_waiter_mem : usermem := {[ 10%nat := zero_msg 8 ]}.

(** A device with one free slot in its TX FIFO and the hardware busy, and a
    caller's buffer that holds messages of two data bytes *)
Definition nearly_full_tx_dev : can_dev_s Z :=
  with_priv 3
    (with_xmit (with_tx_tail 2 (with_tx_queue 2 (cd_xmit fresh_dev)))
               fresh_dev).

Definition two_byte_frames : userbuf := fun _ => frame 5 2 [17; 34].

(** The interrupt handler of the mailbox controller at the end of a
    transmission: one mailbox is free again and [can_txdone] is called. *)
Definition mailbox_isr (dev : can_dev_s Z) : option (can_dev_s Z * Z) :=
  can_txdone (Cfg := classic_can) (Ops := mailbox_ops)
    (with_priv (cd_priv dev - 1) dev).

(** The device after the first [can_open], and a caller's buffer that holds
    messages without data, of 5 bytes each *)
Definition opened_dev : can_dev_s Z :=
  fst (can_open (Cfg := classic_can) (Ops := mailbox_ops) SemOk fresh_dev).

Definition empty_frames : userbuf := fun _ => frame 5 0 [].

(** A freshly opened device on the controller with a hardware FIFO *)
Definition hwfifo_dev : can_dev_s unit :=
  fst (can_open (Cfg := canfd_can) (Ops := hwfifo_ops) SemOk
         (can_register (Cfg := canfd_can) (Ops := hwfifo_ops)
            (blank_dev 8 4 64 tt))).

(** What [can_receive] leaves of the device, for a controller that delivers
    a frame while nobody waits for a remote frame *)
Definition received (dev : can_dev_s Z) (hdr : can_hdr_s) (data : list Z)
    : can_dev_s Z :=
  match can_receive (Cfg := classic_can) dev ∅ hdr data with
  | Some (_, dev', _) => dev'
  | None => dev
  end.

(** The opened device after the arrival of two frames, of one and of two
    data bytes *)
Definition two_rx_dev : can_dev_s Z :=
  received (received opened_dev (cm_hdr (frame 1 1 [])) [7])
           (cm_hdr (frame 2 2 [])) [8; 9].

(** A device on the mailbox controller with one message in a mailbox, one
    that waits in the TX FIFO, and a writer that waits for room *)
Definition sending_dev : can_dev_s Z :=
  with_ntxwaiters 1
    (with_priv 1
       (with_xmit (with_tx_tail 2 (with_tx_queue 1 (cd_xmit fresh_dev)))
                  fresh_dev)).

(** The mailbox controller with the record of what it was given to send,
    opened for the first time, and the same with two messages that wait in
    its TX FIFO *)
Definition logged_dev : can_dev_s (Z * list can_msg_s) :=
  fst (can_open (Cfg := classic_can) (Ops := logged_ops mailbox_ops) SemOk
         (can_register (Cfg := classic_can) (Ops := logged_ops mailbox_ops)
            (blank_dev 4 4 8 (0, [])))).

Definition logged_waiting_dev : can_dev_s (Z * list can_msg_s) :=
  with_xmit
    (with_tx_tail 2
       (with_tx_buffer (<[1%nat := frame 9 1 [1; 0; 0; 0; 0; 0; 0; 0]]>
                          (tx_buffer (cd_xmit logged_dev)))
                       (cd_xmit logged_dev)))
    logged_dev.

(** The controller with a hardware FIFO with three messages in the TX FIFO
    of the driver that were not handed over yet *)
Definition hwfifo_loaded_dev : can_dev_s unit :=
  with_xmit (with_tx_tail 3 (cd_xmit hwfifo_dev)) hwfifo_dev.

(** The recording mailbox controller with all three mailboxes busy and the
    TX FIFO of the driver full *)
Definition logged_full_dev : can_dev_s (Z * list can_msg_s) :=
  with_priv (3, [])
    (with_xmit (with_tx_tail 3 (with_tx_queue 3 (cd_xmit logged_dev)))
               logged_dev).

(** * Properties *)

(** ** The DLC codec *)

Section CodecFacts.
Context `{Cfg : can_config}.

Lemma can_dlc2bytes_small (dlc : Z) : dlc <= 8 -> can_dlc2bytes dlc = dlc.
Proof.
  intros Hle. unfold can_dlc2bytes.
  destruct (Z.ltb_spec 8 dlc); [lia | reflexivity].
Qed.

Lemma can_dlc2bytes_classic (dlc : Z) :
  CONFIG_CAN_FD = false -> 8 < dlc -> can_dlc2bytes dlc = 8.
Proof.
  intros Hfd Hgt. unfold can_dlc2bytes. rewrite Hfd.
  destruct (Z.ltb_spec 8 dlc); [reflexivity | lia].
Qed.

Lemma can_dlc2bytes_fd (dlc : Z) :
  CONFIG_CAN_FD = true -> 9 <= dlc <= 15 ->
  table_value dlc canfd_table = Some (can_dlc2bytes dlc).
Proof.
  intros Hfd Hr. unfold can_dlc2bytes. rewrite Hfd.
  assert (dlc = 9 \/ dlc = 10 \/ dlc = 11 \/ dlc = 12 \/ dlc = 13
          \/ dlc = 14 \/ dlc = 15) as Hc by lia.
  clear Hr.
  repeat (destruct Hc as [-> | Hc]; [reflexivity |]). subst. reflexivity.
Qed.

Lemma can_dlc2bytes_bounds (dlc : Z) :
  0 <= dlc <= 15 -> 0 <= can_dlc2bytes dlc <= 64.
Proof.
  intros Hr. unfold can_dlc2bytes.
  destruct (Z.ltb_spec 8 dlc); [| lia].
  destruct CONFIG_CAN_FD; [| lia].
  assert (dlc = 9 \/ dlc = 10 \/ dlc = 11 \/ dlc = 12 \/ dlc = 13
          \/ dlc = 14 \/ dlc = 15) as Hc by lia.
  repeat (destruct Hc as [-> | Hc]; [lia |]). subst. lia.
Qed.

(** C8: [can_dlc2bytes] returns [dlc] itself for every [dlc <= 8]; for a
    [dlc] in 9..15 it returns 8 when CAN FD is not compiled in and the value
    of the table 9->12, 10->16, 11->20, 12->24, 13->32, 14->48, 15->64 when
    it is. *)
Theorem can_dlc2bytes_spec (dlc : Z) :
  (dlc <= 8 -> can_dlc2bytes dlc = dlc) /\
  (9 <= dlc <= 15 -> CONFIG_CAN_FD = false -> can_dlc2bytes dlc = 8) /\
  (9 <= dlc <= 15 -> CONFIG_CAN_FD = true ->
     table_value dlc canfd_table = Some (can_dlc2bytes dlc)).
Proof.
  split; [apply can_dlc2bytes_small |].
  split.
  - intros Hr Hfd. apply can_dlc2bytes_classic; [exact Hfd | lia].
  - intros Hr Hfd. now apply can_dlc2bytes_fd.
Qed.

End CodecFacts.

(** C8 at [dlc = 13]: 32 bytes with CAN FD, 8 without, and 5 for [dlc = 5]. *)
Lemma can_dlc2bytes_spec_witness :
  @can_dlc2bytes canfd_can 13 = 32
  /\ @can_dlc2bytes classic_can 13 = 8
  /\ @can_dlc2bytes classic_can 5 = 5.
Proof.
  split; [| split].
  - pose proof (proj2 (proj2 (@can_dlc2bytes_spec canfd_can 13))
                  ltac:(lia) eq_refl) as Htable.
    change (table_value 13 canfd_table) with (Some 32) in Htable.
    exact (f_equal (default 0) (eq_sym Htable)).
  - apply (proj1 (proj2 (@can_dlc2bytes_spec classic_can 13)));
      [lia | reflexivity].
  - apply (proj1 (@can_dlc2bytes_spec classic_can 5)). lia.
Defined.

(** C9 as stated fails: the round trip on every code 0..15 does not hold
    without CAN FD, where code 9 means 8 bytes and 8 bytes are code 8. *)
Lemma dlc_round_trip_classic_fails :
  @can_dlc2bytes classic_can 9 = 8
  /\ @can_bytes2dlc classic_can 8 = 8
  /\ ~ (forall dlc, 0 <= dlc <= 15 ->
          @can_bytes2dlc classic_can (@can_dlc2bytes classic_can dlc) = dlc).
Proof.
  split; [reflexivity |]. split; [reflexivity |].
  intros Hall. specialize (Hall 9 ltac:(lia)). vm_compute in Hall.
  discriminate Hall.
Qed.

Section CodecRoundTrip.
Context `{Cfg : can_config}.

Lemma can_bytes2dlc_covers_fd (n : Z) :
  CONFIG_CAN_FD = true -> 0 <= n <= 64 ->
  n <= can_dlc2bytes (can_bytes2dlc n).
Proof.
  intros Hfd Hn. unfold can_bytes2dlc, can_dlc2bytes. rewrite Hfd.
  repeat match goal with
         | |- context [?a <=? ?b] => destruct (Z.leb_spec a b); simpl
         | |- context [?a <? ?b] => destruct (Z.ltb_spec a b); simpl
         end; lia.
Qed.

Lemma can_dlc_round_trip_fd (dlc : Z) :
  CONFIG_CAN_FD = true -> 0 <= dlc <= 15 ->
  can_bytes2dlc (can_dlc2bytes dlc) = dlc.
Proof.
  intros Hfd Hr. unfold can_bytes2dlc, can_dlc2bytes. rewrite Hfd.
  assert (dlc = 0 \/ dlc = 1 \/ dlc = 2 \/ dlc = 3 \/ dlc = 4 \/ dlc = 5
          \/ dlc = 6 \/ dlc = 7 \/ dlc = 8 \/ dlc = 9 \/ dlc = 10
          \/ dlc = 11 \/ dlc = 12 \/ dlc = 13 \/ dlc = 14 \/ dlc = 15)
    as Hc by lia.
  clear Hr.
  repeat (destruct Hc as [-> | Hc]; [reflexivity |]). subst. reflexivity.
Qed.

Lemma can_dlc_round_trip_small (dlc : Z) :
  dlc <= 8 -> can_bytes2dlc (can_dlc2bytes dlc) = dlc.
Proof.
  intros Hr. rewrite can_dlc2bytes_small by exact Hr.
  unfold can_bytes2dlc. destruct (Z.leb_spec dlc 8); [reflexivity | lia].
Qed.

Lemma can_dlc_round_trip_classic (dlc : Z) :
  CONFIG_CAN_FD = false -> 8 < dlc -> can_bytes2dlc (can_dlc2bytes dlc) = 8.
Proof.
  intros Hfd Hr. rewrite can_dlc2bytes_classic by assumption. reflexivity.
Qed.

(** C9, amended: with CAN FD compiled in, [can_dlc2bytes (can_bytes2dlc n)]
    is at least [n] for every [n] in 0..64 and
    [can_bytes2dlc (can_dlc2bytes dlc)] is [dlc] for every [dlc] in 0..15.
    Without CAN FD both hold up to 8 only, and a code in 9..15 comes back
    as 8. *)
Theorem can_dlc_round_trip :
  (CONFIG_CAN_FD = true ->
     (forall n, 0 <= n <= 64 -> n <= can_dlc2bytes (can_bytes2dlc n)) /\
     (forall dlc, 0 <= dlc <= 15 -> can_bytes2dlc (can_dlc2bytes dlc) = dlc))
  /\
  (CONFIG_CAN_FD = false ->
     (forall n, 0 <= n <= 8 -> n <= can_dlc2bytes (can_bytes2dlc n)) /\
     (forall dlc, 0 <= dlc <= 8 -> can_bytes2dlc (can_dlc2bytes dlc) = dlc) /\
     (forall dlc, 9 <= dlc <= 15 -> can_bytes2dlc (can_dlc2bytes dlc) = 8)).
Proof.
  split.
  - intros Hfd. split; intros x Hx.
    + now apply can_bytes2dlc_covers_fd.
    + now apply can_dlc_round_trip_fd.
  - intros Hfd. split; [| split]; intros x Hx.
    + unfold can_bytes2dlc. destruct (Z.leb_spec x 8); [| lia].
      rewrite can_dlc2bytes_small; lia.
    + apply can_dlc_round_trip_small. lia.
    + apply can_dlc_round_trip_classic; [exact Hfd | lia].
Qed.

End CodecRoundTrip.

(** C9 at work: 33 bytes need code 14, which carries 48; code 13 survives the
    round trip with CAN FD; without it code 7 does and code 13 gives 8. *)
Lemma can_dlc_round_trip_witness :
  33 <= @can_dlc2bytes canfd_can (@can_bytes2dlc canfd_can 33)
  /\ @can_bytes2dlc canfd_can (@can_dlc2bytes canfd_can 13) = 13
  /\ @can_bytes2dlc classic_can (@can_dlc2bytes classic_can 7) = 7
  /\ @can_bytes2dlc classic_can (@can_dlc2bytes classic_can 13) = 8.
Proof.
  pose proof (proj1 (@can_dlc_round_trip canfd_can) eq_refl) as [Hn Hd].
  pose proof (proj2 (@can_dlc_round_trip classic_can) eq_refl)
    as (_ & Hs & Hc).
  split; [apply Hn; lia |].
  split; [apply Hd; lia |].
  split; [apply Hs; lia | apply Hc; lia].
Defined.

(** ** [can_read] and the error latch *)

Lemma zero_fill_length (ks : list nat) (l : list Z) :
  length (foldr (fun k acc => <[k := 0]> acc) l ks) = length l.
Proof.
  induction ks as [| k ks IH]; simpl.
  - reflexivity.
  - rewrite length_insert. exact IH.
Qed.

Lemma zero_fill_lookup (ks : list nat) (l : list Z) (k : nat) :
  k ∈ ks -> (k < length l)%nat ->
  foldr (fun k acc => <[k := 0]> acc) l ks !! k = Some 0.
Proof.
  intros Hin Hl. induction ks as [| j ks IH]; simpl.
  - inversion Hin.
  - destruct (decide (j = k)) as [-> | Hne].
    + apply list_lookup_insert_eq. rewrite zero_fill_length. exact Hl.
    + rewrite list_lookup_insert_ne by exact Hne.
      apply IH. apply elem_of_cons in Hin as [-> | Hin];
        [congruence | exact Hin].
Qed.

Lemma memset0_length (n : nat) (l : list Z) : length (memset0 n l) = length l.
Proof. apply zero_fill_length. Qed.

Lemma memset0_lookup (n : nat) (l : list Z) (k : nat) :
  (k < n)%nat -> (k < length l)%nat -> memset0 n l !! k = Some 0.
Proof.
  intros Hn Hl. apply zero_fill_lookup; [| exact Hl].
  apply elem_of_seq. lia.
Qed.

Section ReadFacts.
Context `{Cfg : can_config} {H : Type} `{Ops : can_ops H}.
Implicit Type dev : can_dev_s H.

(** C6: with errors compiled in and the latch [cd_error] set, a [can_read]
    with room for the error report writes one message at the start of the
    buffer, with id CAN_ERROR_INTERNAL, dlc CAN_ERROR_DLC, the error flag 1,
    the RTR flag 0 and the data bytes zero but for byte 5, which holds the
    latch; it clears the latch, returns CAN_MSGLEN(CAN_ERROR_DLC) and leaves
    the RX FIFO as it was. *)
Theorem can_read_error_report (nonblock : bool) (buflen : Z)
    (buffer : userbuf) dev :
  CONFIG_CAN_ERRORS = true ->
  cd_error dev <> 0 ->
  CAN_MSGLEN CAN_ERROR_DLC <= buflen ->
  5 < CAN_ERROR_DLC <= Z.of_nat (length (cm_data (buffer 0))) ->
  exists buffer',
    can_read nonblock buflen buffer dev
      = Some (ReadRet (CAN_MSGLEN CAN_ERROR_DLC) buffer' (with_error 0 dev))
    /\ ch_id (cm_hdr (buffer' 0)) = CAN_ERROR_INTERNAL
    /\ ch_dlc (cm_hdr (buffer' 0)) = CAN_ERROR_DLC
    /\ ch_error (cm_hdr (buffer' 0)) = 1
    /\ ch_rtr (cm_hdr (buffer' 0)) = 0
    /\ cm_data (buffer' 0) !! 5%nat = Some (cd_error dev)
    /\ (forall k, (k < Z.to_nat CAN_ERROR_DLC)%nat -> k <> 5%nat ->
          cm_data (buffer' 0) !! k = Some 0)
    /\ (forall off, off <> 0 -> buffer' off = buffer off)
    /\ cd_error (with_error 0 dev) = 0
    /\ cd_recv (with_error 0 dev) = cd_recv dev.
Proof.
  intros Herrs Hlatch Hroom Hdlc.
  exists (buf_store 0 (error_msg (cd_error dev) (buffer 0)) buffer).
  split.
  - unfold can_read. rewrite Herrs.
    destruct (Z.leb_spec (CAN_MSGLEN 0) buflen);
      [| unfold CAN_MSGLEN in *; lia].
    destruct (Z.eqb_spec (cd_error dev) 0); [contradiction |]. simpl.
    destruct (Z.ltb_spec buflen (CAN_MSGLEN CAN_ERROR_DLC)); [lia |].
    reflexivity.
  - unfold buf_store. simpl.
    repeat split.
    + apply list_lookup_insert_eq. rewrite memset0_length. lia.
    + intros k Hk Hne. rewrite list_lookup_insert_ne by congruence.
      apply memset0_lookup; lia.
    + intros off Hoff. destruct (Z.eqb_spec off 0); [contradiction |].
      reflexivity.
Qed.

(** C10: with the latch set and a buffer that holds the smallest message but
    not the error report, [can_read] returns 0 and changes neither the
    latch, nor the RX FIFO, nor the buffer. *)
Theorem can_read_error_short_buffer (nonblock : bool) (buflen : Z)
    (buffer : userbuf) dev :
  CONFIG_CAN_ERRORS = true ->
  cd_error dev <> 0 ->
  CAN_MSGLEN 0 <= buflen < CAN_MSGLEN CAN_ERROR_DLC ->
  can_read nonblock buflen buffer dev = Some (ReadRet 0 buffer dev).
Proof.
  intros Herrs Hlatch [Hmin Hshort]. unfold can_read. rewrite Herrs.
  destruct (Z.leb_spec (CAN_MSGLEN 0) buflen); [| lia].
  destruct (Z.eqb_spec (cd_error dev) 0); [contradiction |]. simpl.
  destruct (Z.ltb_spec buflen (CAN_MSGLEN CAN_ERROR_DLC)); [| lia].
  reflexivity.
Qed.

End ReadFacts.

(** C6 on a device with the RX-overflow bit latched and a buffer of 13 bytes:
    the report is returned with the latch in byte 5. *)
Lemma can_read_error_report_witness :
  exists buffer',
    @can_read classic_can Z false 13 blank_buf latched_dev
      = Some (ReadRet 13 buffer' (with_error 0 latched_dev))
    /\ cm_data (buffer' 0) !! 5%nat = Some 1.
Proof.
  destruct (@can_read_error_report classic_can Z false 13 blank_buf
              latched_dev)
    as (b & Hret & _ & _ & _ & _ & Hbyte & _).
  - reflexivity.
  - discriminate.
  - vm_compute. discriminate.
  - vm_compute. split; [reflexivity | discriminate].
  - exists b. split; [exact Hret | exact Hbyte].
Defined.

(** C10 on the same device with a buffer of 5 bytes *)
Lemma can_read_error_short_buffer_witness :
  @can_read classic_can Z false 5 blank_buf latched_dev
    = Some (ReadRet 0 blank_buf latched_dev).
Proof.
  apply (@can_read_error_short_buffer classic_can Z false 5 blank_buf
           latched_dev).
  - reflexivity.
  - discriminate.
  - vm_compute. split; [discriminate | reflexivity].
Defined.

(** ** The pending RTR list *)

Lemma count_slots_insert (p : can_rtrwait_s -> bool)
    (l : list can_rtrwait_s) (i : nat) (x y : can_rtrwait_s) :
  l !! i = Some x ->
  (count_slots p (<[i := y]> l) + (if p x then 1 else 0)
   = count_slots p l + (if p y then 1 else 0))%nat.
Proof.
  revert i. induction l as [| s l IH]; intros i Hx.
  - discriminate Hx.
  - destruct i as [| i]; simpl in *.
    + injection Hx as ->. lia.
    + specialize (IH i Hx). lia.
Qed.

Lemma count_slots_alter (p : can_rtrwait_s -> bool)
    (f : can_rtrwait_s -> can_rtrwait_s) (l : list can_rtrwait_s) (i : nat) :
  (forall x, p (f x) = false) ->
  (count_slots p (alter f i l) <= count_slots p l)%nat.
Proof.
  intros Hf. revert i. induction l as [| s l IH]; intros i.
  - destruct i; simpl; lia.
  - destruct i as [| i]; simpl.
    + rewrite Hf. lia.
    + specialize (IH i). unfold alter in IH. lia.
Qed.

Lemma count_slots_le (p : can_rtrwait_s -> bool) (l : list can_rtrwait_s) :
  (count_slots p l <= length l)%nat.
Proof.
  induction l as [| s l IH]; simpl; [lia |]. destruct (p s); lia.
Qed.

Lemma copy_data_advance (n : nat) (dest : list Z) (k : nat) (data : list Z) :
  snd (copy_data n dest k data) = drop n data.
Proof.
  revert dest k data. induction n as [| n IH]; intros dest k data; simpl.
  - reflexivity.
  - rewrite IH. destruct data; simpl; [apply drop_nil | reflexivity].
Qed.

Lemma copy_data_fst (n : nat) :
  forall (dest : list Z) (k : nat) (data : list Z),
    (k + n <= length dest)%nat -> (n <= length data)%nat ->
    fst (copy_data n dest k data)
    = take k dest ++ take n data ++ drop (k + n) dest.
Proof.
  induction n as [| n IH]; intros dest k data Hdest Hdata.
  - simpl. rewrite Nat.add_0_r. symmetry. apply take_drop.
  - destruct data as [| d data]; simpl in Hdata; [lia |].
    cbn [copy_data hd tl].
    rewrite IH by (rewrite ?length_insert; simpl; lia).
    rewrite (take_S_r _ k d) by (apply list_lookup_insert_eq; lia).
    rewrite take_insert_ge by lia.
    rewrite drop_insert_lt by lia.
    rewrite <- app_assoc. simpl. now rewrite Nat.add_succ_r.
Qed.

Lemma count_slots_zero (p : can_rtrwait_s -> bool) (l : list can_rtrwait_s)
    (j : nat) (x : can_rtrwait_s) :
  count_slots p l = 0%nat -> l !! j = Some x -> p x = false.
Proof.
  revert j. induction l as [| s l IH]; intros j Hzero Hj.
  - discriminate Hj.
  - simpl in Hzero. destruct j as [| j]; simpl in Hj.
    + injection Hj as ->. destruct (p x); [discriminate | reflexivity].
    + apply (IH j); [lia | exact Hj].
Qed.

(** Where one slot only satisfies [p], no other does. *)
Lemma count_slots_one (p : can_rtrwait_s -> bool) (l : list can_rtrwait_s)
    (k j : nat) (s x y : can_rtrwait_s) :
  count_slots p l = 1%nat -> l !! k = Some s -> p s = true ->
  p y = false -> l !! j = Some x -> j <> k -> p x = false.
Proof.
  intros Hone Hk Hs Hy Hj Hne.
  pose proof (count_slots_insert p l k s y Hk) as Hcount.
  rewrite Hs, Hy in Hcount.
  apply (count_slots_zero p (<[k := y]> l) j); [lia |].
  rewrite list_lookup_insert_ne by congruence. exact Hj.
Qed.

Section RtrFacts.
Context `{Cfg : can_config} {H : Type} `{Ops : can_ops H}.
Implicit Type dev : can_dev_s H.

Lemma rtr_frame_refl dev : rtr_frame dev dev.
Proof. unfold rtr_frame. tauto. Qed.

(** The scan returns when it has fuel above its weight, and changes only the
    list, the counter and the callers' memory. *)
Lemma can_receive_rtr_total (hdr : can_hdr_s) (fuel : nat) :
  forall (i : nat) (data : list Z) dev (um : usermem),
    (rtr_weight (ch_id hdr) i dev < fuel)%nat ->
    exists dev' um' data',
      can_receive_rtr fuel i hdr data dev um = Some (dev', um', data')
      /\ rtr_frame dev dev'.
Proof.
  induction fuel as [| fuel IH]; intros i data dev um Hw; [lia |].
  simpl. destruct (Nat.ltb_spec i CONFIG_CAN_NPENDINGRTR) as [Hi | Hi].
  2: { do 3 eexists. split; [reflexivity | apply rtr_frame_refl]. }
  assert (forall d u, rtr_weight (ch_id hdr) (S i) dev < fuel ->
            exists dev' um' data',
              can_receive_rtr fuel (S i) hdr d dev u = Some (dev', um', data')
              /\ rtr_frame dev dev')%nat as Hskip by (intros; now apply IH).
  assert (rtr_weight (ch_id hdr) (S i) dev < fuel)%nat as Hnext
    by (unfold rtr_weight in *; lia).
  destruct (cd_rtr dev !! i) as [rtr |] eqn:Hslot; [| now apply Hskip].
  destruct (cr_msg rtr) as [msg |] eqn:Hmsg; [| now apply Hskip].
  destruct (Z.eqb_spec (ch_id hdr) (cr_id rtr)) as [Hid | Hid];
    [| now apply Hskip].
  set (rtr1 := rtr_release rtr).
  set (dev1 := with_npendrtr _ _).
  edestruct (IH (S (Z.to_nat (can_dlc2bytes (ch_dlc hdr))))
               (snd (copy_data (Z.to_nat (can_dlc2bytes (ch_dlc hdr)))
                               [] 0 data))
               dev1) as (dev' & um' & data' & Hrun & Hfr).
  - pose proof (count_slots_insert (rtr_matches (ch_id hdr)) (cd_rtr dev) i
                  rtr rtr1 Hslot) as Hcount.
    assert (rtr_matches (ch_id hdr) rtr = true) as Hyes
      by (unfold rtr_matches; rewrite Hmsg, Hid; apply Z.eqb_refl).
    assert (rtr_matches (ch_id hdr) rtr1 = false) as Hno by reflexivity.
    rewrite Hyes, Hno in Hcount.
    unfold rtr_weight in *. subst dev1. simpl. nia.
  - do 3 eexists. split; [exact Hrun |].
    unfold rtr_frame in *. subst dev1. simpl in Hfr.
    rewrite length_insert in Hfr. exact Hfr.
Qed.

Lemma rtr_fuel_enough (id : Z) dev :
  length (cd_rtr dev) = CONFIG_CAN_NPENDINGRTR ->
  (rtr_weight id 0 dev < rtr_fuel)%nat.
Proof.
  intros Hlen. unfold rtr_weight, rtr_fuel.
  pose proof (count_slots_le (rtr_matches id) (cd_rtr dev)). nia.
Qed.

(** A free slot stays as it is through the scan. *)
Lemma can_receive_rtr_keeps_free (hdr : can_hdr_s) (k : nat)
    (s : can_rtrwait_s) (fuel : nat) :
  cr_msg s = None ->
  forall (i : nat) (data : list Z) dev (um : usermem) dev' um' data',
    cd_rtr dev !! k = Some s ->
    can_receive_rtr fuel i hdr data dev um = Some (dev', um', data') ->
    cd_rtr dev' !! k = Some s.
Proof.
  intros Hfree.
  induction fuel as [| fuel IH]; intros i data dev um dev' um' data' Hk Hrun;
    [discriminate Hrun |].
  simpl in Hrun.
  destruct (Nat.ltb_spec i CONFIG_CAN_NPENDINGRTR) as [Hi | Hi].
  2: { injection Hrun as <- _ _. exact Hk. }
  destruct (cd_rtr dev !! i) as [rtr |] eqn:Hslot;
    [| exact (IH _ _ _ _ _ _ _ Hk Hrun)].
  destruct (cr_msg rtr) as [msg |] eqn:Hmsg;
    [| exact (IH _ _ _ _ _ _ _ Hk Hrun)].
  destruct (Z.eqb_spec (ch_id hdr) (cr_id rtr)) as [Hid | Hid];
    [| exact (IH _ _ _ _ _ _ _ Hk Hrun)].
  eapply IH; [| exact Hrun]. simpl.
  rewrite list_lookup_insert_ne; [exact Hk |].
  intros ->. rewrite Hslot in Hk. injection Hk as ->. congruence.
Qed.

(** Where no slot waits for the identifier, the scan changes nothing. *)
Lemma can_receive_rtr_no_match (hdr : can_hdr_s) (fuel : nat) :
  forall (i : nat) (data : list Z) dev (um : usermem),
    count_slots (rtr_matches (ch_id hdr)) (cd_rtr dev) = 0%nat ->
    (CONFIG_CAN_NPENDINGRTR - i < fuel)%nat ->
    can_receive_rtr fuel i hdr data dev um = Some (dev, um, data).
Proof.
  induction fuel as [| fuel IH]; intros i data dev um Hnone Hfuel; [lia |].
  simpl. destruct (Nat.ltb_spec i CONFIG_CAN_NPENDINGRTR) as [Hi | Hi];
    [| reflexivity].
  assert (can_receive_rtr fuel (S i) hdr data dev um = Some (dev, um, data))
    as Hskip by (apply IH; [exact Hnone | lia]).
  destruct (cd_rtr dev !! i) as [rtr |] eqn:Hslot; [| exact Hskip].
  destruct (cr_msg rtr) as [msg |] eqn:Hmsg; [| exact Hskip].
  destruct (Z.eqb_spec (ch_id hdr) (cr_id rtr)) as [Hid | Hid];
    [| exact Hskip].
  exfalso.
  pose proof (count_slots_insert (rtr_matches (ch_id hdr)) (cd_rtr dev) i
                rtr rtr (Hslot)) as Hcount.
  assert (rtr_matches (ch_id hdr) rtr = true) as Hyes
    by (unfold rtr_matches; rewrite Hmsg, Hid; apply Z.eqb_refl).
  clear Hcount.
  apply take_drop_middle in Hslot. rewrite <- Hslot in Hnone.
  clear -Hnone Hyes.
  induction (take i (cd_rtr dev)) as [| s l IHl]; simpl in Hnone.
  - rewrite Hyes in Hnone. discriminate.
  - apply IHl. lia.
Qed.

(** The first slot that waits for the identifier is served. *)
Lemma can_receive_rtr_first (hdr : can_hdr_s) (k : nat) (s : can_rtrwait_s)
    (fuel : nat) :
  rtr_matches (ch_id hdr) s = true ->
  (k < CONFIG_CAN_NPENDINGRTR)%nat ->
  forall (i : nat) (data : list Z) dev (um : usermem),
    (rtr_weight (ch_id hdr) i dev < fuel)%nat ->
    (i <= k)%nat ->
    cd_rtr dev !! k = Some s ->
    (forall j s', (i <= j < k)%nat -> cd_rtr dev !! j = Some s' ->
                  rtr_matches (ch_id hdr) s' = false) ->
    exists dev' um' data',
      can_receive_rtr fuel i hdr data dev um = Some (dev', um', data')
      /\ cd_rtr dev' !! k = Some (rtr_release s).
Proof.
  intros Hs Hk.
  induction fuel as [| fuel IH]; intros i data dev um Hw Hik Hslot Hbefore;
    [lia |].
  cbn [can_receive_rtr].
  destruct (Nat.ltb_spec i CONFIG_CAN_NPENDINGRTR) as [Hi | Hi]; [| lia].
  assert (rtr_weight (ch_id hdr) (S i) dev < fuel)%nat as Hnext
    by (unfold rtr_weight in *; lia).
  destruct (decide (i = k)) as [-> | Hne].
  - rewrite Hslot. unfold rtr_matches in Hs.
    destruct (cr_msg s) as [msg |] eqn:Hmsg; [| discriminate].
    rewrite Hs.
    set (dev1 := with_npendrtr _ _).
    destruct (can_receive_rtr_total hdr fuel
                (S (Z.to_nat (can_dlc2bytes (ch_dlc hdr))))
                (snd (copy_data (Z.to_nat (can_dlc2bytes (ch_dlc hdr)))
                                [] 0 data))
                dev1
                (alter (fun m =>
                          {| cm_hdr := hdr;
                             cm_data :=
                               fst (copy_data
                                      (Z.to_nat (can_dlc2bytes (ch_dlc hdr)))
                                      (cm_data m) 0 data) |}) msg um))
      as (dev' & um' & data' & Hrun & _).
    + pose proof (count_slots_insert (rtr_matches (ch_id hdr)) (cd_rtr dev) k
                    s (rtr_release s) Hslot) as Hcount.
      assert (rtr_matches (ch_id hdr) s = true) as Hyes
        by (unfold rtr_matches; rewrite Hmsg; exact Hs).
      assert (rtr_matches (ch_id hdr) (rtr_release s) = false) as Hno
        by reflexivity.
      rewrite Hyes, Hno in Hcount.
      unfold rtr_weight in *. subst dev1. cbn [cd_rtr with_npendrtr with_rtr].
      fold (rtr_release s). nia.
    + do 3 eexists. split; [exact Hrun |].
      eapply (can_receive_rtr_keeps_free hdr k (rtr_release s));
        [reflexivity | | exact Hrun].
      subst dev1. cbn [cd_rtr with_npendrtr with_rtr].
      apply list_lookup_insert_eq. now apply lookup_lt_Some in Hslot.
  - assert (forall d u,
              exists dev' um' data',
                can_receive_rtr fuel (S i) hdr d dev u
                = Some (dev', um', data')
                /\ cd_rtr dev' !! k = Some (rtr_release s)) as Hskip.
    { intros d u. apply IH; [exact Hnext | lia | exact Hslot |].
      intros j s' Hj. apply Hbefore. lia. }
    destruct (cd_rtr dev !! i) as [rtr |] eqn:Hrtr; [| apply Hskip].
    specialize (Hbefore i rtr ltac:(lia) Hrtr). unfold rtr_matches in Hbefore.
    destruct (cr_msg rtr); [| apply Hskip].
    rewrite Hbefore. apply Hskip.
Qed.

(** Where one slot only waits for the identifier, the scan serves it and
    changes nothing else. *)
Lemma can_receive_rtr_single (hdr : can_hdr_s) (k : nat)
    (s : can_rtrwait_s) (a : nat) (fuel : nat) :
  cr_msg s = Some a -> ch_id hdr = cr_id s ->
  (k < CONFIG_CAN_NPENDINGRTR)%nat ->
  forall (i : nat) (data : list Z) dev (um : usermem),
    count_slots (rtr_matches (ch_id hdr)) (cd_rtr dev) = 1%nat ->
    (rtr_weight (ch_id hdr) i dev < fuel)%nat ->
    (i <= k)%nat ->
    cd_rtr dev !! k = Some s ->
    let nbytes := Z.to_nat (can_dlc2bytes (ch_dlc hdr)) in
    can_receive_rtr fuel i hdr data dev um
    = Some (with_npendrtr (u8 (cd_npendrtr dev - 1))
              (with_rtr (<[k := rtr_release s]> (cd_rtr dev)) dev),
            alter (fun m =>
                     {| cm_hdr := hdr;
                        cm_data := fst (copy_data nbytes (cm_data m) 0 data) |})
                  a um,
            snd (copy_data nbytes [] 0 data)).
Proof.
  intros Hmsg Hid Hk.
  assert (rtr_matches (ch_id hdr) s = true) as Hyes
    by (unfold rtr_matches; rewrite Hmsg, Hid; apply Z.eqb_refl).
  induction fuel as [| fuel IH]; intros i data dev um Hone Hw Hik Hslot nbytes;
    [lia |].
  cbn [can_receive_rtr].
  destruct (Nat.ltb_spec i CONFIG_CAN_NPENDINGRTR) as [Hi | Hi]; [| lia].
  destruct (decide (i = k)) as [-> | Hne].
  - rewrite Hslot, Hmsg, Hid, Z.eqb_refl. fold (rtr_release s). fold nbytes.
    apply can_receive_rtr_no_match.
    + cbn [cd_rtr with_npendrtr with_rtr].
      pose proof (count_slots_insert (rtr_matches (ch_id hdr)) (cd_rtr dev) k
                    s (rtr_release s) Hslot) as Hcount.
      assert (rtr_matches (ch_id hdr) (rtr_release s) = false) as Hno
        by reflexivity.
      rewrite Hyes, Hno in Hcount. lia.
    + unfold rtr_weight in Hw. rewrite Hone in Hw. lia.
  - assert (can_receive_rtr fuel (S i) hdr data dev um
            = Some (with_npendrtr (u8 (cd_npendrtr dev - 1))
                      (with_rtr (<[k := rtr_release s]> (cd_rtr dev)) dev),
                    alter (fun m =>
                             {| cm_hdr := hdr;
                                cm_data :=
                                  fst (copy_data nbytes (cm_data m) 0 data) |})
                          a um,
                    snd (copy_data nbytes [] 0 data))) as Hskip.
    { apply IH;
        [exact Hone | unfold rtr_weight in *; lia | lia | exact Hslot]. }
    destruct (cd_rtr dev !! i) as [rtr |] eqn:Hrtr; [| exact Hskip].
    pose proof (count_slots_one (rtr_matches (ch_id hdr)) (cd_rtr dev) k i s
                  rtr (rtr_release s) Hone Hslot Hyes eq_refl Hrtr Hne) as Hno.
    unfold rtr_matches in Hno.
    destruct (cr_msg rtr); [| exact Hskip].
    rewrite Hno. exact Hskip.
Qed.

(** The scan keeps [cd_npendrtr] equal to the number of slots in use. *)
Lemma can_receive_rtr_counted (hdr : can_hdr_s) (fuel : nat) :
  forall (i : nat) (data : list Z) dev (um : usermem) dev' um' data',
    rtr_counted dev -> (length (cd_rtr dev) <= 255)%nat ->
    can_receive_rtr fuel i hdr data dev um = Some (dev', um', data') ->
    rtr_counted dev'.
Proof.
  induction fuel as [| fuel IH];
    intros i data dev um dev' um' data' Hcnt Hlen Hrun; [discriminate Hrun |].
  cbn [can_receive_rtr] in Hrun.
  destruct (Nat.ltb_spec i CONFIG_CAN_NPENDINGRTR) as [Hi | Hi].
  2: { injection Hrun as <- _ _. exact Hcnt. }
  destruct (cd_rtr dev !! i) as [rtr |] eqn:Hslot;
    [| exact (IH _ _ _ _ _ _ _ Hcnt Hlen Hrun)].
  destruct (cr_msg rtr) as [msg |] eqn:Hmsg;
    [| exact (IH _ _ _ _ _ _ _ Hcnt Hlen Hrun)].
  destruct (ch_id hdr =? cr_id rtr);
    [| exact (IH _ _ _ _ _ _ _ Hcnt Hlen Hrun)].
  eapply IH; [| | exact Hrun].
  - unfold rtr_counted, rtr_occupied in *.
    cbn [cd_rtr cd_npendrtr with_npendrtr with_rtr].
    pose proof (count_slots_insert slot_in_use (cd_rtr dev) i rtr
                  (rtr_release rtr) Hslot) as Hcount.
    assert (slot_in_use rtr = true) as Hyes
      by (unfold slot_in_use; now rewrite Hmsg).
    assert (slot_in_use (rtr_release rtr) = false) as Hno by reflexivity.
    rewrite Hyes, Hno in Hcount.
    pose proof (count_slots_le slot_in_use (cd_rtr dev)).
    rewrite Hcnt. unfold u8. rewrite Z.mod_small by lia. lia.
  - cbn [cd_rtr with_npendrtr with_rtr]. now rewrite length_insert.
Qed.

Lemma pending_scan_total dev (um : usermem) (hdr : can_hdr_s)
    (data : list Z) :
  length (cd_rtr dev) = CONFIG_CAN_NPENDINGRTR ->
  exists dev1 um1 data1,
    pending_scan dev um hdr data = Some (dev1, um1, data1)
    /\ rtr_frame dev dev1.
Proof.
  intros Hlen. unfold pending_scan.
  destruct (cd_npendrtr dev >? 0).
  - apply can_receive_rtr_total. now apply rtr_fuel_enough.
  - do 3 eexists. split; [reflexivity | apply rtr_frame_refl].
Qed.

Lemma u8_lor_keeps_bit (e b : Z) :
  0 <= b < 256 -> Z.land (u8 (Z.lor e b)) b = b.
Proof.
  intros Hb. unfold u8. change 256 with (2 ^ 8).
  rewrite <- Z.land_ones by lia.
  assert (Z.land b (Z.ones 8) = b) as Hlow
    by (rewrite Z.land_ones by lia; apply Z.mod_small; exact Hb).
  apply Z.bits_inj'. intros n Hn.
  rewrite <- Hlow at 2 3.
  rewrite !Z.land_spec, Z.lor_spec.
  destruct (Z.testbit e n), (Z.testbit b n), (Z.testbit (Z.ones 8) n);
    reflexivity.
Qed.

(** C5: when the RX FIFO is full ([rx_tail], stepped, meets [rx_head]),
    [can_receive] leaves the RX FIFO as it is, head, tail and buffer, sets the
    RX-overflow bit of the latch when errors are compiled in, and returns
    -ENOMEM; the pending RTR list has been scanned with the message all the
    same. *)
Theorem can_receive_full dev (um : usermem) (hdr : can_hdr_s)
    (data : list Z) :
  length (cd_rtr dev) = CONFIG_CAN_NPENDINGRTR ->
  0 <= CAN_ERROR5_RXOVERFLOW < 256 ->
  fifo_next (rx_tail (cd_recv dev)) = rx_head (cd_recv dev) ->
  exists dev' um',
    can_receive dev um hdr data = Some (- ENOMEM, dev', um')
    /\ cd_recv dev' = cd_recv dev
    /\ (if CONFIG_CAN_ERRORS
        then cd_error dev'
             = u8 (Z.lor (cd_error dev) CAN_ERROR5_RXOVERFLOW)
             /\ Z.land (cd_error dev') CAN_ERROR5_RXOVERFLOW
                = CAN_ERROR5_RXOVERFLOW
        else cd_error dev' = cd_error dev)
    /\ (exists dev1 data1,
          pending_scan dev um hdr data = Some (dev1, um', data1)
          /\ cd_rtr dev' = cd_rtr dev1
          /\ cd_npendrtr dev' = cd_npendrtr dev1)
    /\ (forall k s,
          0 < cd_npendrtr dev ->
          cd_rtr dev !! k = Some s ->
          rtr_matches (ch_id hdr) s = true ->
          (forall j s', (j < k)%nat -> cd_rtr dev !! j = Some s' ->
                        rtr_matches (ch_id hdr) s' = false) ->
          cd_rtr dev' !! k = Some (rtr_release s)).
Proof.
  intros Hlen Hbit Hfull.
  destruct (pending_scan_total dev um hdr data Hlen)
    as (dev1 & um1 & data1 & Hscan & Hfr).
  destruct Hfr as (Hrecv & _ & Herr & _).
  assert (forall k s,
            0 < cd_npendrtr dev ->
            cd_rtr dev !! k = Some s ->
            rtr_matches (ch_id hdr) s = true ->
            (forall j s', (j < k)%nat -> cd_rtr dev !! j = Some s' ->
                          rtr_matches (ch_id hdr) s' = false) ->
            cd_rtr dev1 !! k = Some (rtr_release s)) as Hfirst.
  { intros k s Hpend Hk Hs Hbefore.
    unfold pending_scan in Hscan.
    destruct (Z.gtb_spec (cd_npendrtr dev) 0) as [_ | Hno]; [| lia].
    destruct (can_receive_rtr_first hdr k s rtr_fuel Hs
                ltac:(apply lookup_lt_Some in Hk; lia) 0%nat data dev um)
      as (d & u & x & Hrun & Hserved).
    - now apply rtr_fuel_enough.
    - lia.
    - exact Hk.
    - intros j s' Hj. apply Hbefore. lia.
    - rewrite Hrun in Hscan. injection Hscan as <- _ _. exact Hserved. }
  unfold can_receive.
  rewrite Hscan, Hrecv, Hfull, Z.eqb_refl. simpl.
  destruct CONFIG_CAN_ERRORS.
  - do 2 eexists. split; [reflexivity |]. simpl.
    split; [exact Hrecv |].
    split; [| split; [now exists dev1, data1 | exact Hfirst]].
    rewrite Herr. split; [reflexivity | now apply u8_lor_keeps_bit].
  - do 2 eexists. split; [reflexivity |].
    split; [exact Hrecv |]. split; [exact Herr |].
    split; [now exists dev1, data1 | exact Hfirst].
Qed.

(** X3: a message for which one caller only waits: [can_receive] returns, the
    caller's message gets the header and the first [can_dlc2bytes] data bytes,
    its slot is free again with the semaphore posted, [cd_npendrtr] is one
    less, and no other slot and no other object changes. *)
Theorem can_receive_single_waiter dev (um : usermem) (hdr : can_hdr_s)
    (data : list Z) (k : nat) (s : can_rtrwait_s) (a : nat) (m : can_msg_s) :
  length (cd_rtr dev) = CONFIG_CAN_NPENDINGRTR ->
  0 < cd_npendrtr dev ->
  cd_rtr dev !! k = Some s -> cr_msg s = Some a -> ch_id hdr = cr_id s ->
  count_slots (rtr_matches (ch_id hdr)) (cd_rtr dev) = 1%nat ->
  um !! a = Some m ->
  (Z.to_nat (can_dlc2bytes (ch_dlc hdr)) <= length (cm_data m))%nat ->
  (Z.to_nat (can_dlc2bytes (ch_dlc hdr)) <= length data)%nat ->
  exists ret dev' um',
    can_receive dev um hdr data = Some (ret, dev', um')
    /\ cd_rtr dev' = <[k := rtr_release s]> (cd_rtr dev)
    /\ cd_npendrtr dev' = u8 (cd_npendrtr dev - 1)
    /\ um' !! a
       = Some {| cm_hdr := hdr;
                 cm_data :=
                   take (Z.to_nat (can_dlc2bytes (ch_dlc hdr))) data
                   ++ drop (Z.to_nat (can_dlc2bytes (ch_dlc hdr)))
                           (cm_data m) |}
    /\ (forall b, b <> a -> um' !! b = um !! b).
Proof.
  intros Hlen Hpend Hk Hmsg Hid Hone Ha Hroom Hdata.
  assert (pending_scan dev um hdr data
          = Some (with_npendrtr (u8 (cd_npendrtr dev - 1))
                    (with_rtr (<[k := rtr_release s]> (cd_rtr dev)) dev),
                  alter (fun m =>
                           {| cm_hdr := hdr;
                              cm_data :=
                                fst (copy_data
                                       (Z.to_nat (can_dlc2bytes (ch_dlc hdr)))
                                       (cm_data m) 0 data) |}) a um,
                  snd (copy_data (Z.to_nat (can_dlc2bytes (ch_dlc hdr)))
                                 [] 0 data))) as Hscan.
  { unfold pending_scan.
    destruct (Z.gtb_spec (cd_npendrtr dev) 0) as [_ | Hno]; [| lia].
    apply (can_receive_rtr_single hdr k s a rtr_fuel Hmsg Hid);
      [apply lookup_lt_Some in Hk; lia | exact Hone
       | now apply rtr_fuel_enough | lia | exact Hk]. }
  unfold can_receive. rewrite Hscan.
  cbn [cd_recv with_npendrtr with_rtr cd_nrxwaiters cd_error].
  assert (forall um',
            um' = alter (fun m =>
                           {| cm_hdr := hdr;
                              cm_data :=
                                fst (copy_data
                                       (Z.to_nat (can_dlc2bytes (ch_dlc hdr)))
                                       (cm_data m) 0 data) |}) a um ->
            um' !! a
            = Some {| cm_hdr := hdr;
                      cm_data :=
                        take (Z.to_nat (can_dlc2bytes (ch_dlc hdr))) data
                        ++ drop (Z.to_nat (can_dlc2bytes (ch_dlc hdr)))
                                (cm_data m) |}
            /\ (forall b, b <> a -> um' !! b = um !! b)) as Hum.
  { intros um' ->. split.
    - rewrite lookup_alter_eq, Ha. simpl.
      now rewrite copy_data_fst by (simpl; lia).
    - intros b Hb. apply lookup_alter_ne. congruence. }
  destruct (negb (fifo_next (rx_tail (cd_recv dev)) =? rx_head (cd_recv dev)));
    [| destruct CONFIG_CAN_ERRORS];
    do 3 eexists; (split; [reflexivity |]);
    (split; [reflexivity |]); (split; [reflexivity |]);
    now apply Hum.
Qed.

(** X4: [can_receive] returns and keeps [cd_npendrtr] equal to the number
    of slots in use. *)
Theorem can_receive_counted dev (um : usermem) (hdr : can_hdr_s)
    (data : list Z) :
  length (cd_rtr dev) = CONFIG_CAN_NPENDINGRTR ->
  (CONFIG_CAN_NPENDINGRTR <= 255)%nat ->
  rtr_counted dev ->
  exists ret dev' um',
    can_receive dev um hdr data = Some (ret, dev', um')
    /\ rtr_counted dev'.
Proof.
  intros Hlen Hsmall Hcnt.
  destruct (pending_scan_total dev um hdr data Hlen)
    as (dev1 & um1 & data1 & Hscan & _).
  assert (rtr_counted dev1) as Hcnt1.
  { unfold pending_scan in Hscan. destruct (cd_npendrtr dev >? 0).
    - eapply can_receive_rtr_counted; [exact Hcnt | lia | exact Hscan].
    - injection Hscan as <- _ _. exact Hcnt. }
  unfold can_receive. rewrite Hscan.
  destruct (negb (fifo_next (rx_tail (cd_recv dev)) =? rx_head (cd_recv dev1)));
    [| destruct CONFIG_CAN_ERRORS];
    do 3 eexists; (split; [reflexivity | exact Hcnt1]).
Qed.

End RtrFacts.

(** C5 on a full RX FIFO with one waiter for the identifier: the message is
    refused with -ENOMEM, the latch gets the overflow bit, the FIFO is
    untouched and the waiter's slot is free again. *)
Lemma can_receive_full_witness :
  exists dev' um',
    @can_receive classic_can Z full_rx_dev one_waiter_mem
      (cm_hdr (frame 291 2 [])) [170; 187]
      = Some (-12, dev', um')
    /\ cd_recv dev' = cd_recv full_rx_dev
    /\ cd_error dev' = 1.
Proof.
  destruct (@can_receive_full classic_can Z full_rx_dev one_waiter_mem
              (cm_hdr (frame 291 2 [])) [170; 187])
    as (dev' & um' & Hret & Hrecv & Herr & _).
  - reflexivity.
  - vm_compute. split; [discriminate | reflexivity].
  - reflexivity.
  - exists dev', um'. split; [exact Hret |]. split; [exact Hrecv |].
    simpl in Herr. apply (proj1 Herr).
Defined.

(** ** [can_rtrread] and the scan of [can_receive], as written *)

Section RtrReadFacts.
Context `{Cfg : can_config} {H : Type} `{Ops : can_ops H}.
Implicit Type dev : can_dev_s H.

(** The search of [can_rtrread] looks at the request, not at the slots: a
    request that brings a message buffer finds no slot, whatever the list
    holds. *)
Lemma can_rtrread_find_with_buffer (n i a : nat) (rtr : canioc_rtr_s) dev :
  ci_msg rtr = Some a -> can_rtrread_find n i rtr dev = (dev, None).
Proof.
  intros Hmsg. revert i. induction n as [| n IH]; intros i; simpl.
  - reflexivity.
  - rewrite Hmsg. apply IH.
Qed.

Lemma can_rtrread_with_buffer (a : nat) (rtr : canioc_rtr_s) dev :
  ci_msg rtr = Some a -> can_rtrread dev rtr = RtrRet (- ENOMEM) dev.
Proof.
  intros Hmsg. unfold can_rtrread.
  now rewrite (can_rtrread_find_with_buffer _ _ a).
Qed.

(** The list is never given a receiving address: [can_rtrread] leaves every
    slot that is free free. *)
Lemma can_rtrread_find_keeps_free (n i : nat) (rtr : canioc_rtr_s) dev :
  rtr_occupied (cd_rtr dev) = 0%nat ->
  rtr_occupied (cd_rtr (fst (can_rtrread_find n i rtr dev))) = 0%nat.
Proof.
  intros Hfree. revert i. induction n as [| n IH]; intros i; simpl.
  - exact Hfree.
  - destruct (ci_msg rtr) eqn:Hmsg; [apply IH |]. simpl.
    unfold rtr_occupied in *.
    pose proof (count_slots_alter slot_in_use
                  (fun s => {| cr_sem := cr_sem s; cr_id := ci_id rtr;
                               cr_msg := None |})
                  (cd_rtr dev) i (fun _ => eq_refl)).
    lia.
Qed.

End RtrReadFacts.

(** C3, at its failing inputs.  On the list as [can_register] leaves it, all
    four slots free, a request with identifier 0x123 and a message buffer
    gets -ENOMEM: no slot is written, [cd_npendrtr] stays 0 and the lower
    half sees no remote request.  And a request without a buffer takes slot 0
    although that slot is in use. *)
Theorem can_rtrread_tests_the_request :
  rtr_occupied (cd_rtr fresh_dev) = 0%nat
  /\ @can_rtrread classic_can Z mailbox_ops fresh_dev
       {| ci_id := 291; ci_msg := Some 10%nat |}
     = RtrRet (-12) fresh_dev
  /\ cd_rtr busy0_dev !! 0%nat = Some (waiter 7 11)
  /\ exists dev',
       @can_rtrread classic_can Z mailbox_ops busy0_dev
         {| ci_id := 291; ci_msg := None |}
       = RtrWait 0 dev'
       /\ cd_rtr dev' !! 0%nat
          = Some {| cr_sem := 0; cr_id := 291; cr_msg := None |}
       /\ cd_npendrtr dev' = 2.
Proof.
  split; [reflexivity |]. split; [reflexivity |]. split; [reflexivity |].
  eexists. split; [reflexivity |]. split; reflexivity.
Qed.

(** C4, at its failing input.  On the list as [can_register] leaves it, a
    request without a message buffer is suspended on slot 0 with
    [cd_npendrtr] at 1 while no slot holds a receiving address. *)
Theorem can_rtrread_miscounts :
  rtr_counted fresh_dev
  /\ exists dev',
       @can_rtrread classic_can Z mailbox_ops fresh_dev
         {| ci_id := 291; ci_msg := None |}
       = RtrWait 0 dev'
       /\ cd_npendrtr dev' = 1
       /\ rtr_occupied (cd_rtr dev') = 0%nat
       /\ ~ rtr_counted dev'.
Proof.
  split; [reflexivity |].
  eexists. split; [reflexivity |]. split; [reflexivity |].
  split; [reflexivity |]. unfold rtr_counted. simpl. discriminate.
Qed.

(** C2, at its failing inputs.  Slots 0 and 1 wait for identifier 0x123; a
    message with that identifier, dlc 2 and data AA BB serves slot 0 only:
    the copy loop leaves [i] at 2, so the scan resumes at slot 3, and slot 1
    keeps its receiving address, its semaphore is not posted, its caller's
    message is not written and [cd_npendrtr] is 1.  With the second waiter in
    slot 3 the scan does reach it, but [data] has moved on: its caller gets
    the two bytes that follow the payload, here 01 02. *)
Theorem can_receive_serves_one_waiter :
  (exists dev' um',
     @can_receive classic_can Z two_waiters_dev two_waiters_mem
       (cm_hdr (frame 291 2 [])) [170; 187; 1; 2]
     = Some (0, dev', um')
     /\ cd_rtr dev' !! 0%nat
        = Some {| cr_sem := 1; cr_id := 291; cr_msg := None |}
     /\ um' !! 10%nat = Some (frame 291 2 [170; 187; 0; 0; 0; 0; 0; 0])
     /\ cd_rtr dev' !! 1%nat = Some (waiter 291 11)
     /\ um' !! 11%nat = Some (zero_msg 8)
     /\ cd_npendrtr dev' = 1)
  /\
  (exists dev' um',
     @can_receive classic_can Z far_waiters_dev two_waiters_mem
       (cm_hdr (frame 291 2 [])) [170; 187; 1; 2]
     = Some (0, dev', um')
     /\ cd_rtr dev' !! 3%nat
        = Some {| cr_sem := 1; cr_id := 291; cr_msg := None |}
     /\ um' !! 11%nat = Some (frame 291 2 [1; 2; 0; 0; 0; 0; 0; 0])).
Proof.
  split.
  - do 2 eexists. split; [vm_compute; reflexivity |].
    repeat split; vm_compute; reflexivity.
  - do 2 eexists. split; [vm_compute; reflexivity |].
    repeat split; vm_compute; reflexivity.
Qed.

(** ** The transmit FIFO *)

Section RingFacts.
Context `{Cfg : can_config}.

Lemma ring_dist_cases (a b : Z) :
  0 <= a < CONFIG_CAN_FIFOSIZE -> 0 <= b < CONFIG_CAN_FIFOSIZE ->
  (a <= b /\ ring_dist a b = b - a)
  \/ (b < a /\ ring_dist a b = b - a + CONFIG_CAN_FIFOSIZE).
Proof.
  intros Ha Hb. unfold ring_dist.
  destruct (Z_le_gt_dec a b) as [Hle | Hgt].
  - left. split; [exact Hle |]. apply Z.mod_small. lia.
  - right. split; [lia |].
    rewrite <- (Z_mod_plus_full (b - a) 1 CONFIG_CAN_FIFOSIZE).
    rewrite Z.mul_1_l. apply Z.mod_small. lia.
Qed.

Lemma fifo_next_cases (ndx : Z) :
  0 <= ndx < CONFIG_CAN_FIFOSIZE ->
  (ndx + 1 < CONFIG_CAN_FIFOSIZE /\ fifo_next ndx = ndx + 1)
  \/ (ndx + 1 = CONFIG_CAN_FIFOSIZE /\ fifo_next ndx = 0).
Proof.
  intros Hr. unfold fifo_next.
  destruct (Z.leb_spec CONFIG_CAN_FIFOSIZE (ndx + 1)); [right | left]; lia.
Qed.

End RingFacts.

(** Ring arithmetic: split every [fifo_next] and every [ring_dist] into its
    wrapped and its plain case, then decide by linear arithmetic. *)
Ltac ring_open :=
  unfold tx_progress, tx_ordered, in_ring in *; cbn [tx_head tx_queue tx_tail
    tx_buffer tx_sem with_tx_head with_tx_queue with_tx_tail with_tx_buffer
    with_tx_sem] in *;
  repeat match goal with
         | H : _ /\ _ |- _ => destruct H
         end.

Ltac ring_next_case i :=
  let Hr := fresh "Hr" in
  let E := fresh "Enext" in
  assert (0 <= i < CONFIG_CAN_FIFOSIZE) as Hr by lia;
  destruct (fifo_next_cases i Hr) as [[? E] | [? E]];
  rewrite E in *; clear Hr E.

Ltac ring_dist_case a b :=
  let Ha := fresh "Ha" in
  let Hb := fresh "Hb" in
  let E := fresh "Edist" in
  assert (0 <= a < CONFIG_CAN_FIFOSIZE) as Ha by lia;
  assert (0 <= b < CONFIG_CAN_FIFOSIZE) as Hb by lia;
  destruct (ring_dist_cases a b Ha Hb) as [[? E] | [? E]];
  rewrite E in *; clear Ha Hb E.

Ltac ring_split :=
  repeat match goal with
         | |- context [fifo_next ?i] => ring_next_case i
         | H : context [fifo_next ?i] |- _ => ring_next_case i
         end;
  repeat match goal with
         | |- context [ring_dist ?a ?b] => ring_dist_case a b
         | H : context [ring_dist ?a ?b] |- _ => ring_dist_case a b
         end.

Ltac ring_solve := ring_open; ring_split; repeat split; try lia.

Section TransmitFacts.
Context `{Cfg : can_config} {H : Type} `{Ops : can_ops H}.
Implicit Type dev : can_dev_s H.

Lemma tx_progress_refl (f : can_txfifo_s) : tx_ordered f -> tx_progress f f.
Proof. intros Hord. unfold tx_progress. repeat split; try lia; apply Hord. Qed.

Lemma tx_progress_trans (f1 f2 f3 : can_txfifo_s) :
  tx_progress f1 f2 -> tx_progress f2 f3 -> tx_progress f1 f3.
Proof.
  unfold tx_progress.
  intros (_ & Ht1 & Hb1 & Hq1 & Hh1) (Hord & Ht2 & Hb2 & Hq2 & Hh2).
  rewrite Ht2 in *. rewrite Ht1 in *.
  repeat split; try apply Hord; try congruence; lia.
Qed.

(** Handing one message over: [tx_queue] steps, and [tx_head] stays behind
    it. *)
Lemma tx_queue_step (f : can_txfifo_s) :
  tx_ordered f -> tx_queue f <> tx_tail f ->
  let f1 := with_tx_queue (fifo_next (tx_queue f)) f in
  tx_ordered f1
  /\ tx_head f1 <> tx_queue f1
  /\ tx_head f1 <> tx_tail f1
  /\ ring_dist (tx_queue f1) (tx_tail f1)
     = ring_dist (tx_queue f) (tx_tail f) - 1.
Proof. intros Hord Hne. ring_solve. Qed.

(** Completing one message that was handed over: [tx_head] steps and does
    not pass [tx_queue]. *)
Lemma tx_head_step (f : can_txfifo_s) :
  tx_ordered f -> tx_head f <> tx_queue f ->
  let f1 := with_tx_head (fifo_next (tx_head f)) f in
  tx_ordered f1
  /\ ring_dist (tx_queue f1) (tx_tail f1) = ring_dist (tx_queue f) (tx_tail f)
  /\ ring_dist (tx_head f1) (tx_tail f1)
     = ring_dist (tx_head f) (tx_tail f) - 1.
Proof. intros Hord Hne. ring_solve. Qed.

Lemma can_xmit_with_ok (n : Z)
    (loop : can_dev_s H -> Z -> option (can_dev_s H * Z)) :
  loop_ok n loop -> xmit_ok n (can_xmit_with loop).
Proof.
  intros Hloop dev Hord Hn. unfold can_xmit_with.
  destruct (tx_empty dev).
  - do 2 eexists. split; [reflexivity |].
    destruct CONFIG_CAN_TXREADY; now apply tx_progress_refl.
  - destruct (Hloop dev (- EBUSY) Hord Hn) as (dev' & r & -> & Hprog).
    do 2 eexists. split; [reflexivity | exact Hprog].
Qed.

(** [can_txdone] on an ordered FIFO, called as its DEBUGASSERT demands: when
    the FIFO is not empty a message has been handed to the hardware. *)
Lemma can_txdone_with_ok (n : Z)
    (xmit : can_dev_s H -> option (can_dev_s H * Z)) :
  xmit_ok n xmit ->
  forall dev,
    tx_ordered (cd_xmit dev) ->
    (tx_head (cd_xmit dev) <> tx_tail (cd_xmit dev) ->
     tx_head (cd_xmit dev) <> tx_queue (cd_xmit dev)) ->
    ring_dist (tx_queue (cd_xmit dev)) (tx_tail (cd_xmit dev)) < n ->
    exists dev' r,
      can_txdone_with xmit dev = Some (dev', r)
      /\ tx_progress (cd_xmit dev) (cd_xmit dev').
Proof.
  intros Hxmit dev Hord Hassert Hn. unfold can_txdone_with, tx_empty.
  destruct (Z.eqb_spec (tx_head (cd_xmit dev)) (tx_tail (cd_xmit dev)))
    as [Hempty | Hfull].
  - do 2 eexists. split; [reflexivity | now apply tx_progress_refl].
  - specialize (Hassert Hfull).
    destruct (tx_head_step (cd_xmit dev) Hord Hassert) as (Hord1 & Hq1 & Hh1).
    set (dev1 := with_xmit _ dev).
    destruct (Hxmit dev1) as (dev2 & r & -> & Hprog).
    + exact Hord1.
    + subst dev1. cbn [cd_xmit with_xmit]. rewrite Hq1. exact Hn.
    + assert (tx_progress (cd_xmit dev) (cd_xmit dev2)) as Hall.
      { eapply tx_progress_trans; [| exact Hprog].
        subst dev1. cbn [cd_xmit with_xmit].
        unfold tx_progress. rewrite Hq1, Hh1.
        repeat split; try apply Hord1; try reflexivity; lia. }
      destruct (cd_ntxwaiters dev2 >? 0);
        do 2 eexists; (split; [reflexivity |]); [| exact Hall].
      unfold sem_post_tx. cbn [cd_xmit with_xmit]. exact Hall.
Qed.

(** The loop of [can_xmit] returns, with progress, whatever the lower half
    is and whether or not its [dev_send] calls [can_txdone] back. *)
Lemma can_xmit_loop_ok (fuel : nat) :
  loop_ok (Z.of_nat fuel) (can_xmit_loop fuel).
Proof.
  induction fuel as [| fuel IH]; intros dev ret Hord Hn.
  - exfalso. unfold ring_dist in Hn.
    assert (0 < CONFIG_CAN_FIFOSIZE) as Hpos
      by (destruct Hord as [? _]; unfold in_ring in *; lia).
    pose proof (Z.mod_pos_bound
                  (tx_tail (cd_xmit dev) - tx_queue (cd_xmit dev))
                  CONFIG_CAN_FIFOSIZE Hpos).
    lia.
  - cbn [can_xmit_loop].
    destruct (negb (tx_queue (cd_xmit dev) =? tx_tail (cd_xmit dev))
              && dev_txready (cd_priv dev)) eqn:Hcond.
    2: { do 2 eexists. split; [reflexivity | now apply tx_progress_refl]. }
    apply andb_prop in Hcond as [Hne _].
    apply negb_true_iff, Z.eqb_neq in Hne.
    destruct (tx_queue_step (cd_xmit dev) Hord Hne)
      as (Hord1 & Hhq & Hht & Hq1).
    set (dev1 := with_xmit _ dev) in *.
    destruct (dev_send (cd_priv dev1) _) as [[h callback] r].
    set (dev2 := with_priv h dev1).
    assert (tx_progress (cd_xmit dev) (cd_xmit dev2)) as Hstep.
    { subst dev2 dev1. cbn [cd_xmit with_xmit with_priv].
      unfold tx_progress. rewrite Hq1.
      repeat split; try apply Hord1; try reflexivity; lia. }
    assert (exists dev3 r3,
              (if callback
               then can_txdone_with (can_xmit_with (can_xmit_loop fuel)) dev2
               else Some (dev2, OK)) = Some (dev3, r3)
              /\ tx_progress (cd_xmit dev2) (cd_xmit dev3)) as Hcb.
    { destruct callback.
      - apply (can_txdone_with_ok (Z.of_nat fuel)).
        + apply can_xmit_with_ok. exact IH.
        + exact Hord1.
        + intros _. exact Hhq.
        + subst dev2 dev1. cbn [cd_xmit with_xmit with_priv]. lia.
      - do 2 eexists. split; [reflexivity |].
        apply tx_progress_refl. exact Hord1. }
    destruct Hcb as (dev3 & r3 & -> & Hprog3).
    assert (tx_progress (cd_xmit dev) (cd_xmit dev3)) as Hall
      by (eapply tx_progress_trans; eassumption).
    destruct (r =? OK).
    + destruct (IH dev3 r) as (dev4 & r4 & Hrun & Hprog4).
      * apply Hprog3.
      * destruct Hprog3 as (_ & Ht3 & _ & Hq3 & _).
        subst dev2 dev1. cbn [cd_xmit with_xmit with_priv] in *. lia.
      * do 2 eexists. split; [exact Hrun |].
        eapply tx_progress_trans; eassumption.
    + do 2 eexists. split; [reflexivity | exact Hall].
Qed.

Lemma ring_dist_bound (a b : Z) :
  0 < CONFIG_CAN_FIFOSIZE -> 0 <= ring_dist a b < CONFIG_CAN_FIFOSIZE.
Proof. intros Hpos. apply Z.mod_pos_bound. exact Hpos. Qed.

Lemma tx_ordered_capacity (f : can_txfifo_s) :
  tx_ordered f -> 0 < CONFIG_CAN_FIFOSIZE.
Proof. intros (Hh & _). unfold in_ring in Hh. lia. Qed.

(** [can_xmit] returns from every ordered FIFO, and keeps the order. *)
Lemma can_xmit_ordered dev :
  tx_ordered (cd_xmit dev) ->
  exists dev' r,
    can_xmit dev = Some (dev', r) /\ tx_progress (cd_xmit dev) (cd_xmit dev').
Proof.
  intros Hord. unfold can_xmit, can_xmit_fuel.
  apply (can_xmit_with_ok (Z.of_nat xmit_fuel)).
  - apply can_xmit_loop_ok.
  - exact Hord.
  - pose proof (ring_dist_bound (tx_queue (cd_xmit dev))
                  (tx_tail (cd_xmit dev)) (tx_ordered_capacity _ Hord)).
    unfold xmit_fuel. lia.
Qed.

(** X2: [can_xmit] returns on every ordered TX FIFO, whatever the lower half
    does and whether or not its [dev_send] calls [can_txdone] back; it leaves
    [tx_tail] and the messages alone, moves [tx_queue] and [tx_head] towards
    the tail only, and keeps [head <= queue <= tail]. *)
Theorem can_xmit_returns_in_order dev :
  tx_ordered (cd_xmit dev) ->
  exists dev' r,
    can_xmit dev = Some (dev', r)
    /\ tx_ordered (cd_xmit dev')
    /\ tx_tail (cd_xmit dev') = tx_tail (cd_xmit dev)
    /\ tx_buffer (cd_xmit dev') = tx_buffer (cd_xmit dev)
    /\ ring_dist (tx_queue (cd_xmit dev')) (tx_tail (cd_xmit dev'))
       <= ring_dist (tx_queue (cd_xmit dev)) (tx_tail (cd_xmit dev))
    /\ ring_dist (tx_head (cd_xmit dev')) (tx_tail (cd_xmit dev'))
       <= ring_dist (tx_head (cd_xmit dev)) (tx_tail (cd_xmit dev)).
Proof.
  intros Hord. unfold can_xmit, can_xmit_fuel.
  apply (can_xmit_with_ok (Z.of_nat xmit_fuel)).
  - apply can_xmit_loop_ok.
  - exact Hord.
  - pose proof (ring_dist_bound (tx_queue (cd_xmit dev))
                  (tx_tail (cd_xmit dev)) (tx_ordered_capacity _ Hord)).
    unfold xmit_fuel. lia.
Qed.

(** [can_txdone], called for a message that was handed to the hardware,
    returns and keeps the order. *)
Lemma can_txdone_ordered dev :
  tx_ordered (cd_xmit dev) ->
  (tx_head (cd_xmit dev) <> tx_tail (cd_xmit dev) ->
   tx_head (cd_xmit dev) <> tx_queue (cd_xmit dev)) ->
  exists dev' r,
    can_txdone dev = Some (dev', r)
    /\ tx_progress (cd_xmit dev) (cd_xmit dev').
Proof.
  intros Hord Hassert. unfold can_txdone, can_txdone_fuel.
  apply (can_txdone_with_ok (Z.of_nat xmit_fuel)).
  - unfold can_xmit_fuel. apply can_xmit_with_ok, can_xmit_loop_ok.
  - exact Hord.
  - exact Hassert.
  - pose proof (ring_dist_bound (tx_queue (cd_xmit dev))
                  (tx_tail (cd_xmit dev)) (tx_ordered_capacity _ Hord)).
    unfold xmit_fuel. lia.
Qed.

End TransmitFacts.

(** ** [can_write] without blocking *)

Section WriteFacts.
Context `{Cfg : can_config} {H : Type} `{Ops : can_ops H}.
Implicit Type dev : can_dev_s H.

(** Appending one message where the FIFO is not full *)
Lemma tx_tail_step (f : can_txfifo_s) (b : list can_msg_s) :
  tx_ordered f -> fifo_next (tx_tail f) <> tx_head f ->
  let f1 := with_tx_tail (fifo_next (tx_tail f)) (with_tx_buffer b f) in
  tx_ordered f1 /\ tx_pending f1 = tx_pending f + 1.
Proof. intros Hord Hne. unfold tx_pending. ring_solve. Qed.

Lemma tx_pending_full (f : can_txfifo_s) :
  tx_ordered f ->
  (fifo_next (tx_tail f) = tx_head f
   <-> tx_pending f = CONFIG_CAN_FIFOSIZE - 1).
Proof. intros Hord. unfold tx_pending. ring_solve. Qed.

Lemma can_dlc2bytes_nonneg (dlc : Z) : 0 <= dlc -> 0 <= can_dlc2bytes dlc.
Proof.
  intros Hd. unfold can_dlc2bytes.
  destruct (Z.ltb_spec 8 dlc); [| lia].
  destruct CONFIG_CAN_FD; [| lia].
  destruct dlc as [| p | p]; try lia.
  repeat (destruct p as [p | p |]; try lia).
Qed.

(** Every message copied moves the offset forward by at least the header. *)
Lemma enqueue_frames_offset (buffer : userbuf) (k : nat) :
  0 < CAN_HDRLEN ->
  (forall o, 0 <= ch_dlc (cm_hdr (buffer o))) ->
  forall (off : Z) (f : can_txfifo_s),
    off + Z.of_nat k * CAN_HDRLEN <= fst (enqueue_frames buffer k off f).
Proof.
  intros Hhdr Hdlc. induction k as [| k IH]; intros off f.
  - simpl. lia.
  - cbn [enqueue_frames].
    match goal with
    | |- _ <= fst (enqueue_frames _ _ ?o ?g) => specialize (IH o g)
    end.
    pose proof (can_dlc2bytes_nonneg _ (Hdlc off)).
    unfold CAN_MSGLEN in *. lia.
Qed.

Section NonBlocking.
Variable buffer : userbuf.
Variable buflen : Z.

Lemma can_write_loop_nonblock (fuel : nat) :
  forall (nsent : Z) (inactive : bool) dev,
    tx_ordered (cd_xmit dev) ->
    CONFIG_CAN_FIFOSIZE - 1 - tx_pending (cd_xmit dev) < Z.of_nat fuel ->
    exists k off f ret dev',
      enqueue_frames buffer k nsent (cd_xmit dev) = (off, f)
      /\ can_write_loop true buffer buflen fuel nsent inactive dev
         = Some (WriteRet ret dev')
      /\ tx_tail (cd_xmit dev') = tx_tail f
      /\ tx_buffer (cd_xmit dev') = tx_buffer f
      /\ (CAN_MSGLEN 0 <= (buflen - off) mod SIZE_MAX1 ->
            fifo_next (tx_tail f) = tx_head f
            /\ dev' = with_xmit f dev
            /\ ret = (if off =? 0 then - EAGAIN else off))
      /\ (~ CAN_MSGLEN 0 <= (buflen - off) mod SIZE_MAX1 -> ret = off).
Proof.
  induction fuel as [| fuel IH]; intros nsent inactive dev Hord Hfuel.
  - exfalso.
    pose proof (ring_dist_bound (tx_head (cd_xmit dev))
                  (tx_tail (cd_xmit dev)) (tx_ordered_capacity _ Hord)).
    unfold tx_pending in Hfuel. lia.
  - cbn [can_write_loop].
    destruct (Z.leb_spec (CAN_MSGLEN 0) ((buflen - nsent) mod SIZE_MAX1))
      as [Hmore | Hdone].
    + unfold can_write_slot.
      destruct (Z.eqb_spec (fifo_next (tx_tail (cd_xmit dev)))
                  (tx_head (cd_xmit dev))) as [Hfull | Hroom].
      * exists 0%nat, nsent, (cd_xmit dev). do 2 eexists.
        split; [reflexivity |]. split; [reflexivity |].
        split; [reflexivity |]. split; [reflexivity |].
        split; [| intros Hno; contradiction].
        intros _. split; [exact Hfull |].
        split; [destruct dev; reflexivity | reflexivity].
      * set (slot := copy_msg _ _ _).
        set (f1 := with_tx_tail _ _).
        destruct (tx_tail_step (cd_xmit dev)
                    (<[Z.to_nat (tx_tail (cd_xmit dev)) := slot]>
                       (tx_buffer (cd_xmit dev))) Hord Hroom)
          as (Hord1 & Hpend1).
        fold f1 in Hord1, Hpend1.
        destruct (IH (nsent
                      + CAN_MSGLEN
                          (can_dlc2bytes (ch_dlc (cm_hdr (buffer nsent)))))
                    inactive (with_xmit f1 dev))
          as (k & off & f & ret & dev' & Henq & Hrun & Htail & Hbuf
              & Hfullcase & Hdonecase).
        { exact Hord1. }
        { cbn [cd_xmit with_xmit]. lia. }
        exists (S k), off, f, ret, dev'.
        split; [exact Henq |]. split; [exact Hrun |].
        split; [exact Htail |]. split; [exact Hbuf |].
        split; [| exact Hdonecase].
        intros Hm. destruct (Hfullcase Hm) as (Hf & Hdev & Hret).
        split; [exact Hf |]. split; [| exact Hret].
        rewrite Hdev. reflexivity.
    + assert (exists dev1 r1,
                (if inactive then can_xmit dev else Some (dev, OK))
                = Some (dev1, r1)
                /\ tx_progress (cd_xmit dev) (cd_xmit dev1)) as Hkick.
      { destruct inactive.
        - now apply can_xmit_ordered.
        - do 2 eexists. split; [reflexivity | now apply tx_progress_refl]. }
      destruct Hkick as (dev1 & r1 & -> & _ & Htail & Hbuf & _).
      exists 0%nat, nsent, (cd_xmit dev), nsent, dev1.
      split; [reflexivity |]. split; [reflexivity |].
      split; [exact Htail |]. split; [exact Hbuf |].
      split; [intros Hm; lia | reflexivity].
Qed.

(** C7: [can_write] with O_NONBLOCK returns, having appended some number [k]
    of whole messages to the TX FIFO and nothing else.  When it stopped with a
    message still to copy, the FIFO is full, nothing but those [k] messages
    has changed in the device, and the return value is -EAGAIN for [k = 0]
    and the length in bytes of the [k] messages otherwise. *)
Theorem can_write_nonblock_full dev :
  tx_ordered (cd_xmit dev) ->
  0 < CAN_HDRLEN ->
  (forall o, 0 <= ch_dlc (cm_hdr (buffer o))) ->
  exists k off f ret dev',
    enqueue_frames buffer k 0 (cd_xmit dev) = (off, f)
    /\ can_write true buffer buflen dev = Some (WriteRet ret dev')
    /\ tx_tail (cd_xmit dev') = tx_tail f
    /\ tx_buffer (cd_xmit dev') = tx_buffer f
    /\ (CAN_MSGLEN 0 <= (buflen - off) mod SIZE_MAX1 ->
          fifo_next (tx_tail f) = tx_head f
          /\ dev' = with_xmit f dev
          /\ ret = (if (k =? 0)%nat then - EAGAIN else off)
          /\ (k <> 0%nat -> 0 < off)).
Proof.
  intros Hord Hhdr Hdlc.
  destruct (can_write_loop_nonblock write_fuel 0
              (dev_txempty (cd_priv dev)) dev Hord)
    as (k & off & f & ret & dev' & Henq & Hrun & Htail & Hbuf & Hfullcase & _).
  { pose proof (ring_dist_bound (tx_head (cd_xmit dev))
                  (tx_tail (cd_xmit dev)) (tx_ordered_capacity _ Hord)).
    unfold write_fuel, tx_pending. lia. }
  exists k, off, f, ret, dev'.
  split; [exact Henq |]. split; [exact Hrun |].
  split; [exact Htail |]. split; [exact Hbuf |].
  intros Hm. destruct (Hfullcase Hm) as (Hf & Hdev & Hret).
  pose proof (enqueue_frames_offset buffer k Hhdr Hdlc 0 (cd_xmit dev))
    as Hoff.
  rewrite Henq in Hoff. simpl in Hoff.
  split; [exact Hf |]. split; [exact Hdev |].
  destruct k as [| k].
  - simpl in Henq. injection Henq as <- _.
    split; [exact Hret | congruence].
  - assert (0 < off) as Hpos by nia.
    split; [| intros _; exact Hpos].
    rewrite Hret. destruct (Z.eqb_spec off 0); [lia | reflexivity].
Qed.

End NonBlocking.
End WriteFacts.

(** C7 with one free slot and a buffer of two messages of 7 bytes: the first
    is appended and its 7 bytes are returned. *)
Lemma can_write_nonblock_full_witness :
  exists k off f ret dev',
    @enqueue_frames classic_can two_byte_frames k 0
      (cd_xmit nearly_full_tx_dev) = (off, f)
    /\ @can_write classic_can Z mailbox_ops true two_byte_frames 14
         nearly_full_tx_dev = Some (WriteRet ret dev')
    /\ ret = 7.
Proof.
  destruct (@can_write_nonblock_full classic_can Z mailbox_ops
              two_byte_frames 14 nearly_full_tx_dev)
    as (k & off & f & ret & dev' & Henq & Hrun & _).
  - vm_compute. repeat split; discriminate.
  - reflexivity.
  - intros o. discriminate.
  - exists k, off, f, ret, dev'. split; [exact Henq |].
    split; [exact Hrun |].
    assert (exists d,
              @can_write classic_can Z mailbox_ops true two_byte_frames 14
                nearly_full_tx_dev = Some (WriteRet 7 d)) as [d Hd]
      by (eexists; vm_compute; reflexivity).
    rewrite Hd in Hrun. injection Hrun as <- _. reflexivity.
Defined.

(** ** The order of the three TX indices *)

Section OrderFacts.
Context `{Cfg : can_config} {H : Type} `{Ops : can_ops H}.
Implicit Type dev : can_dev_s H.

Lemma tx_orderedb_spec (f : can_txfifo_s) :
  tx_orderedb f = true <-> tx_ordered f.
Proof.
  unfold tx_orderedb, tx_ordered, in_ring.
  rewrite !andb_true_iff, !Z.leb_le, !Z.ltb_lt. tauto.
Qed.

(** With [head = tail] the FIFO holds no message, and in an ordered FIFO
    nothing is then left to hand over either: [head = queue = tail]. *)
Lemma tx_empty_pending (f : can_txfifo_s) :
  tx_ordered f ->
  (tx_head f = tx_tail f <-> tx_pending f = 0)
  /\ (tx_head f = tx_tail f -> tx_queue f = tx_head f).
Proof. intros Hord. unfold tx_pending. ring_solve. Qed.

Section AnyWrite.
Variable nonblock : bool.
Variable buffer : userbuf.
Variable buflen : Z.

Lemma can_write_slot_ordered
    (loop : Z -> bool -> can_dev_s H -> option write_outcome)
    (nsent : Z) (inactive : bool) dev :
  tx_ordered (cd_xmit dev) ->
  (forall n i d,
     tx_ordered (cd_xmit d) ->
     tx_pending (cd_xmit d) = tx_pending (cd_xmit dev) + 1 ->
     exists o, loop n i d = Some o /\ tx_ordered (cd_xmit (write_dev o))) ->
  exists o,
    can_write_slot nonblock buffer loop nsent
      (fifo_next (tx_tail (cd_xmit dev))) inactive dev = Some o
    /\ tx_ordered (cd_xmit (write_dev o)).
Proof.
  intros Hord Hloop. unfold can_write_slot.
  destruct (Z.eqb_spec (fifo_next (tx_tail (cd_xmit dev)))
              (tx_head (cd_xmit dev))) as [Hfull | Hroom].
  - destruct nonblock.
    + eexists. split; [reflexivity | exact Hord].
    + assert (exists dev1 r1,
                (if inactive then can_xmit dev else Some (dev, OK))
                = Some (dev1, r1)
                /\ tx_progress (cd_xmit dev) (cd_xmit dev1)) as Hkick.
      { destruct inactive.
        - now apply can_xmit_ordered.
        - do 2 eexists. split; [reflexivity | now apply tx_progress_refl]. }
      destruct Hkick as (dev1 & r1 & -> & Hord1 & _).
      eexists. split; [reflexivity | exact Hord1].
  - set (slot := copy_msg _ _ _).
    destruct (tx_tail_step (cd_xmit dev)
                (<[Z.to_nat (tx_tail (cd_xmit dev)) := slot]>
                   (tx_buffer (cd_xmit dev))) Hord Hroom) as (Hord1 & Hpend1).
    apply Hloop; [exact Hord1 | exact Hpend1].
Qed.

Lemma can_write_loop_ordered (fuel : nat) :
  forall (nsent : Z) (inactive : bool) dev,
    tx_ordered (cd_xmit dev) ->
    CONFIG_CAN_FIFOSIZE - 1 - tx_pending (cd_xmit dev) < Z.of_nat fuel ->
    exists o,
      can_write_loop nonblock buffer buflen fuel nsent inactive dev = Some o
      /\ tx_ordered (cd_xmit (write_dev o)).
Proof.
  induction fuel as [| fuel IH]; intros nsent inactive dev Hord Hfuel.
  - exfalso.
    pose proof (ring_dist_bound (tx_head (cd_xmit dev))
                  (tx_tail (cd_xmit dev)) (tx_ordered_capacity _ Hord)).
    unfold tx_pending in Hfuel. lia.
  - cbn [can_write_loop].
    destruct (CAN_MSGLEN 0 <=? (buflen - nsent) mod SIZE_MAX1).
    + apply can_write_slot_ordered; [exact Hord |].
      intros n i d Hd Hpend. apply IH; [exact Hd | lia].
    + assert (exists dev1 r1,
                (if inactive then can_xmit dev else Some (dev, OK))
                = Some (dev1, r1)
                /\ tx_progress (cd_xmit dev) (cd_xmit dev1)) as Hkick.
      { destruct inactive.
        - now apply can_xmit_ordered.
        - do 2 eexists. split; [reflexivity | now apply tx_progress_refl]. }
      destruct Hkick as (dev1 & r1 & -> & Hord1 & _).
      eexists. split; [reflexivity | exact Hord1].
Qed.

(** A call of [can_write] runs to its return or to its [sem_wait], and keeps
    the order. *)
Lemma can_write_ordered dev :
  tx_ordered (cd_xmit dev) ->
  exists o,
    can_write nonblock buffer buflen dev = Some o
    /\ tx_ordered (cd_xmit (write_dev o)).
Proof.
  intros Hord. apply can_write_loop_ordered; [exact Hord |].
  pose proof (ring_dist_bound (tx_head (cd_xmit dev))
                (tx_tail (cd_xmit dev)) (tx_ordered_capacity _ Hord)).
  unfold write_fuel, tx_pending. lia.
Qed.

(** So does a [can_write] that resumes with [tx_tail] where it left it. *)
Lemma can_write_wake_ordered (res : sem_result) (nsent : Z) dev :
  tx_ordered (cd_xmit dev) ->
  exists o,
    can_write_wake nonblock buffer buflen res nsent
      (fifo_next (tx_tail (cd_xmit dev))) dev = Some o
    /\ tx_ordered (cd_xmit (write_dev o)).
Proof.
  intros Hord. unfold can_write_wake.
  destruct res as [| errno].
  - set (dev2 := with_xmit _ _).
    change (fifo_next (tx_tail (cd_xmit dev)))
      with (fifo_next (tx_tail (cd_xmit dev2))).
    apply can_write_slot_ordered; [exact Hord |].
    intros n i d Hd Hpend. apply can_write_loop_ordered; [exact Hd |].
    pose proof (ring_dist_bound (tx_head (cd_xmit dev2))
                  (tx_tail (cd_xmit dev2)) (tx_ordered_capacity _ Hord)).
    unfold write_fuel, tx_pending in *. lia.
  - destruct (errno =? EINTR); eexists; (split; [reflexivity | exact Hord]).
Qed.

End AnyWrite.

Lemma can_txready_work_ordered dev :
  tx_ordered (cd_xmit dev) ->
  exists dev',
    can_txready_work dev = Some dev' /\ tx_ordered (cd_xmit dev').
Proof.
  intros Hord. unfold can_txready_work.
  destruct (tx_empty dev); simpl.
  - eexists. split; [reflexivity | exact Hord].
  - destruct (can_xmit_ordered dev Hord) as (dev1 & r & -> & Hord1 & _).
    destruct ((0 <=? r) && (cd_ntxwaiters dev1 >? 0));
      eexists; (split; [reflexivity | exact Hord1]).
Qed.

Lemma can_open_ordered (res : sem_result) dev :
  tx_ordered (cd_xmit dev) -> tx_ordered (cd_xmit (fst (can_open res dev))).
Proof.
  intros Hord. pose proof (tx_ordered_capacity _ Hord) as Hpos.
  unfold can_open. destruct res as [| errno]; [| exact Hord].
  cbn [cd_ocount with_closesem].
  destruct (u8 (cd_ocount dev + 1) =? 0); [exact Hord |].
  destruct (u8 (cd_ocount dev + 1) =? 1); [| exact Hord].
  destruct (dev_setup _) as [h ret].
  destruct (ret =? OK); [| exact Hord].
  cbn. unfold tx_ordered, in_ring, ring_dist. cbn.
  rewrite Z.mod_0_l by lia. lia.
Qed.

(** X1: the order [head <= queue <= tail] modulo the capacity, with
    [head = tail] exactly when no message is pending, holds after every
    stretch of [tx_step] that starts with it: [can_open], [can_write] to its
    return or its wait, a resumed [can_write] that finds [tx_tail] where it
    left it, [can_txdone] called for a message that was handed over,
    [can_txready], [can_txready_work], and whatever leaves [cd_xmit] alone. *)
Theorem tx_order_preserved dev dev' :
  tx_ordered (cd_xmit dev) -> tx_step dev dev' ->
  tx_ordered (cd_xmit dev')
  /\ (tx_head (cd_xmit dev') = tx_tail (cd_xmit dev')
      <-> tx_pending (cd_xmit dev') = 0).
Proof.
  intros Hord Hstep.
  assert (tx_ordered (cd_xmit dev')) as Hord'.
  { destruct Hstep as [res dev | nb buffer buflen dev o Hrun
                       | nb buffer buflen res nsent dev o Hrun
                       | dev dev' ret Hassert Hrun | dev
                       | dev dev' Hrun | dev dev' Hsame].
    - now apply can_open_ordered.
    - destruct (can_write_ordered nb buffer buflen dev Hord) as (o' & Ho & Hr).
      congruence.
    - destruct (can_write_wake_ordered nb buffer buflen res nsent dev Hord)
        as (o' & Ho & Hr).
      congruence.
    - destruct (can_txdone_ordered dev Hord Hassert)
        as (d & r & Hd & Hr & _).
      congruence.
    - unfold can_txready.
      destruct (negb (tx_empty dev)); [destruct (negb (cd_work dev)) |];
        exact Hord.
    - destruct (can_txready_work_ordered dev Hord) as (d & Hd & Hr).
      congruence.
    - now rewrite Hsame. }
  split; [exact Hord' | apply tx_empty_pending, Hord'].
Qed.

End OrderFacts.

(** C1, at its failing input: two writers on one device with four FIFO slots
    and three mailboxes.  Writer A, blocking, writes four messages: three go
    into the FIFO and to the hardware, and A waits in [sem_wait] with
    [nexttail = 0].  Two transmissions complete ([can_txdone] twice, each for
    a message that was handed over).  Writer B, non-blocking, writes two
    messages: [tx_tail] goes from 3 to 1.  A third transmission completes and
    [can_xmit] hands B's messages over: head 3, queue 1, tail 1, in order.
    Then A resumes, finds [nexttail <> tx_head], stores its message at
    [tx_tail] and sets [tx_tail = nexttail = 0]: head 3, queue 1, tail 0,
    where [queue] is past [tail]. *)
Theorem tx_order_lost_by_resumed_writer :
  exists dA d1 d2 dB d3 dF,
    @can_write classic_can Z mailbox_ops false empty_frames 20 opened_dev
      = Some (WriteWait 15 0 dA)
    /\ mailbox_isr dA = Some (d1, 0)
    /\ mailbox_isr d1 = Some (d2, 0)
    /\ @can_write classic_can Z mailbox_ops true empty_frames 10 d2
       = Some (WriteRet 10 dB)
    /\ mailbox_isr dB = Some (d3, 0)
    /\ @can_write_wake classic_can Z mailbox_ops false empty_frames 20 SemOk
         15 0 d3 = Some (WriteRet 20 dF)
    /\ (tx_head (cd_xmit dA) <> tx_queue (cd_xmit dA)
        /\ tx_head (cd_xmit d1) <> tx_queue (cd_xmit d1)
        /\ tx_head (cd_xmit dB) <> tx_queue (cd_xmit dB))
    /\ @tx_ordered classic_can (cd_xmit d3)
    /\ (tx_head (cd_xmit d3), tx_queue (cd_xmit d3), tx_tail (cd_xmit d3))
       = (3, 1, 1)
    /\ (tx_head (cd_xmit dF), tx_queue (cd_xmit dF), tx_tail (cd_xmit dF))
       = (3, 1, 0)
    /\ ~ @tx_ordered classic_can (cd_xmit dF).
Proof.
  do 6 eexists.
  split; [vm_compute; reflexivity |].
  split; [vm_compute; reflexivity |].
  split; [vm_compute; reflexivity |].
  split; [vm_compute; reflexivity |].
  split; [vm_compute; reflexivity |].
  split; [vm_compute; reflexivity |].
  split; [repeat split; vm_compute; discriminate |].
  split; [apply tx_orderedb_spec; vm_compute; reflexivity |].
  split; [vm_compute; reflexivity |].
  split; [vm_compute; reflexivity |].
  rewrite <- tx_orderedb_spec. vm_compute. discriminate.
Qed.

(** ** The properties at work *)

(** X3 at work: the single waiter of [full_rx_dev] is served by a message
    with its identifier. *)
Lemma can_receive_single_waiter_witness :
  exists ret dev' um',
    @can_receive classic_can Z full_rx_dev one_waiter_mem
      (cm_hdr (frame 291 2 [])) [170; 187] = Some (ret, dev', um')
    /\ cd_rtr dev' !! 1%nat
       = Some {| cr_sem := 1; cr_id := 291; cr_msg := None |}
    /\ um' !! 10%nat = Some (frame 291 2 [170; 187; 0; 0; 0; 0; 0; 0]).
Proof.
  destruct (@can_receive_single_waiter classic_can Z full_rx_dev
              one_waiter_mem (cm_hdr (frame 291 2 [])) [170; 187] 1%nat
              (waiter 291 10) 10%nat (zero_msg 8))
    as (ret & dev' & um' & Hrun & Hrtr & _ & Hmsg & _);
    try reflexivity; try (vm_compute; lia).
  exists ret, dev', um'. split; [exact Hrun |].
  split; [rewrite Hrtr; reflexivity | exact Hmsg].
Defined.

(** X4 on the same device *)
Lemma can_receive_counted_witness :
  exists ret dev' um',
    @can_receive classic_can Z full_rx_dev one_waiter_mem
      (cm_hdr (frame 291 2 [])) [170; 187] = Some (ret, dev', um')
    /\ rtr_counted dev'.
Proof.
  apply (@can_receive_counted classic_can Z full_rx_dev one_waiter_mem
           (cm_hdr (frame 291 2 [])) [170; 187]).
  - reflexivity.
  - vm_compute. lia.
  - reflexivity.
Defined.

(** X2 on the controller with a hardware FIFO, where every [dev_send] calls
    [can_txdone] back: [can_xmit] returns all the same, and the order holds
    in its result. *)
Lemma can_xmit_returns_in_order_witness :
  exists dev' r,
    @can_xmit canfd_can unit hwfifo_ops
      (with_xmit (with_tx_tail 3 (cd_xmit hwfifo_dev)) hwfifo_dev)
    = Some (dev', r)
    /\ @tx_ordered canfd_can (cd_xmit dev').
Proof.
  destruct (@can_xmit_returns_in_order canfd_can unit hwfifo_ops
              (with_xmit (with_tx_tail 3 (cd_xmit hwfifo_dev)) hwfifo_dev))
    as (dev' & r & Hrun & Hord & _).
  - apply tx_orderedb_spec. reflexivity.
  - exists dev', r. split; [exact Hrun | exact Hord].
Defined.

(** X1 for a non-blocking [can_write] of two messages on the device just
    opened *)
Lemma tx_order_preserved_witness :
  exists o,
    @can_write classic_can Z mailbox_ops true empty_frames 10 opened_dev
    = Some o
    /\ @tx_ordered classic_can (cd_xmit (write_dev o)).
Proof.
  eexists. split; [vm_compute; reflexivity |].
  apply (@tx_order_preserved classic_can Z mailbox_ops opened_dev).
  - apply tx_orderedb_spec. reflexivity.
  - apply (step_write true empty_frames 10). vm_compute. reflexivity.
Defined.

(** Three messages written to the controller with a hardware FIFO: each
    [dev_send] completes at once, and the FIFO is empty when [can_write]
    returns, [head = queue = tail]. *)
Example write_with_synchronous_txdone :
  exists dev',
    @can_write canfd_can unit hwfifo_ops false empty_frames 15 hwfifo_dev
    = Some (WriteRet 15 dev')
    /\ (tx_head (cd_xmit dev'), tx_queue (cd_xmit dev'),
        tx_tail (cd_xmit dev')) = (3, 3, 3).
Proof. eexists. split; vm_compute; reflexivity. Qed.

(** A non-blocking write to a full TX FIFO returns -EAGAIN and changes
    nothing. *)
Example write_nonblock_on_full_fifo :
  let full :=
    with_priv 3 (with_xmit (with_tx_tail 3 (cd_xmit fresh_dev)) fresh_dev) in
  @can_write classic_can Z mailbox_ops true empty_frames 5 full
  = Some (WriteRet (-11) full).
Proof. vm_compute. reflexivity. Qed.

(** Three messages fill the RX FIFO of four slots; the fourth is refused with
    -ENOMEM and latches the overflow, which the next read reports and
    clears. *)
Example rx_overflow_is_latched_and_reported :
  exists d1 d2 d3 d4 u buf d5,
    @can_receive classic_can Z fresh_dev ∅ (cm_hdr (frame 1 1 [])) [7]
      = Some (0, d1, u)
    /\ @can_receive classic_can Z d1 u (cm_hdr (frame 2 1 [])) [8]
       = Some (0, d2, u)
    /\ @can_receive classic_can Z d2 u (cm_hdr (frame 3 1 [])) [9]
       = Some (0, d3, u)
    /\ @can_receive classic_can Z d3 u (cm_hdr (frame 4 1 [])) [10]
       = Some (-12, d4, u)
    /\ cd_error d4 = 1
    /\ @can_read classic_can Z true 64 blank_buf d4
       = Some (ReadRet 13 buf d5)
    /\ buf 0 = {| cm_hdr := {| ch_id := 256; ch_dlc := 8; ch_rtr := 0;
                               ch_error := 1; ch_extid := 0;
                               ch_unused := 0 |};
                  cm_data := [0; 0; 0; 0; 0; 1; 0; 0] |}
    /\ cd_error d5 = 0.
Proof.
  do 7 eexists.
  repeat (split; [vm_compute; reflexivity |]). vm_compute. reflexivity.
Qed.

(** ** The messages in the RX FIFO *)

(** The same arithmetic for the RX FIFO *)
Ltac rx_open :=
  unfold rx_wf, in_ring in *;
  cbn [rx_head rx_tail rx_buffer rx_sem with_rx_head with_rx_tail
       with_rx_buffer with_rx_sem cd_recv with_recv] in *;
  repeat match goal with
         | H : _ /\ _ |- _ => destruct H
         end.

Ltac rx_solve := rx_open; ring_split; repeat split; try lia.

Section SliceFacts.
Context `{Cfg : can_config}.

Lemma msg_at_insert_ne (buf : list can_msg_s) (t i : Z) (m : can_msg_s) :
  0 <= t -> 0 <= i -> i <> t ->
  msg_at (<[Z.to_nat t := m]> buf) i = msg_at buf i.
Proof.
  intros Ht Hi Hne. unfold msg_at.
  rewrite list_lookup_insert_ne by lia. reflexivity.
Qed.

Lemma msg_at_insert_eq (buf : list can_msg_s) (t : Z) (m : can_msg_s) :
  0 <= t < Z.of_nat (length buf) ->
  msg_at (<[Z.to_nat t := m]> buf) t = m.
Proof.
  intros Ht. unfold msg_at.
  rewrite list_lookup_insert_eq by lia. reflexivity.
Qed.

(** A store at index [t] is not seen by a slice that ends before [t]. *)
Lemma ring_slice_insert (buf : list can_msg_s) (t : Z) (m : can_msg_s)
    (n : nat) :
  forall from,
    in_ring from -> in_ring t -> Z.of_nat n <= ring_dist from t ->
    ring_slice n from (<[Z.to_nat t := m]> buf) = ring_slice n from buf.
Proof.
  induction n as [| n IH]; intros from Hfrom Ht Hn; [reflexivity |].
  cbn [ring_slice]. rewrite IH.
  - rewrite msg_at_insert_ne; [reflexivity | | |]; rx_solve.
  - rx_solve.
  - exact Ht.
  - rx_solve.
Qed.

Lemma ring_slice_snoc (buf : list can_msg_s) (n : nat) :
  forall from,
    ring_slice (S n) from buf
    = ring_slice n from buf ++ [msg_at buf (ring_step n from)].
Proof.
  induction n as [| n IH]; intros from; [reflexivity |].
  change (ring_slice (S (S n)) from buf)
    with (msg_at buf from :: ring_slice (S n) (fifo_next from) buf).
  rewrite IH. reflexivity.
Qed.

Lemma ring_step_dist (b : Z) (n : nat) :
  forall a,
    in_ring a -> in_ring b -> Z.of_nat n = ring_dist a b ->
    ring_step n a = b.
Proof.
  induction n as [| n IH]; intros a Ha Hb Hn.
  - simpl. rx_solve.
  - cbn [ring_step]. apply IH; rx_solve.
Qed.

Lemma ring_step_in_ring (n : nat) :
  forall a, in_ring a -> in_ring (ring_step n a).
Proof.
  induction n as [| n IH]; intros a Ha; [exact Ha |].
  cbn [ring_step]. apply IH. rx_solve.
Qed.

Lemma ring_slice_app (buf : list can_msg_s) (n m : nat) :
  forall from,
    ring_slice (n + m) from buf
    = ring_slice n from buf ++ ring_slice m (ring_step n from) buf.
Proof.
  induction n as [| n IH]; intros from; [reflexivity |].
  cbn [Nat.add ring_slice ring_step]. rewrite IH. reflexivity.
Qed.

Lemma ring_slice_length (buf : list can_msg_s) (n : nat) :
  forall from, length (ring_slice n from buf) = n.
Proof.
  induction n as [| n IH]; intros from; [reflexivity |].
  cbn [ring_slice length]. now rewrite IH.
Qed.

End SliceFacts.

Section RxFacts.
Context `{Cfg : can_config} {H : Type}.
Implicit Type dev : can_dev_s H.

Lemma rx_contents_nil (f : can_rxfifo_s) :
  rx_head f = rx_tail f -> rx_contents f = [].
Proof.
  intros Heq. unfold rx_contents, ring_dist.
  rewrite Heq, Z.sub_diag, Zmod_0_l. reflexivity.
Qed.

Lemma rx_contents_cons (f : can_rxfifo_s) :
  rx_wf f -> rx_head f <> rx_tail f ->
  rx_contents f
  = msg_at (rx_buffer f) (rx_head f)
    :: rx_contents (with_rx_head (fifo_next (rx_head f)) f).
Proof.
  intros Hwf Hne. unfold rx_contents.
  cbn [rx_head rx_tail rx_buffer with_rx_head].
  assert (ring_dist (rx_head f) (rx_tail f)
          = Z.succ (ring_dist (fifo_next (rx_head f)) (rx_tail f))
          /\ 0 <= ring_dist (fifo_next (rx_head f)) (rx_tail f))
    as [-> Hpos] by rx_solve.
  rewrite Z2Nat.inj_succ by exact Hpos. reflexivity.
Qed.

Lemma rx_head_step (f : can_rxfifo_s) :
  rx_wf f -> rx_head f <> rx_tail f ->
  rx_wf (with_rx_head (fifo_next (rx_head f)) f)
  /\ ring_dist (fifo_next (rx_head f)) (rx_tail f)
     = ring_dist (rx_head f) (rx_tail f) - 1.
Proof. intros Hwf Hne. rx_solve. Qed.

Lemma with_rx_head_same dev :
  with_recv (with_rx_head (rx_head (cd_recv dev)) (cd_recv dev)) dev = dev.
Proof. destruct dev as [? ? ? ? ? ? ? [? ? ? ?] ? ? ?]. reflexivity. Qed.

(** The copy loop of [can_read] hands out the messages of the FIFO oldest
    first, as many as fit, and steps [rx_head] over them. *)
Lemma can_read_copy_drains (buflen : Z) (fuel : nat) :
  forall (nread : Z) (buffer : userbuf) dev,
    rx_wf (cd_recv dev) ->
    rx_head (cd_recv dev) <> rx_tail (cd_recv dev) ->
    ring_dist (rx_head (cd_recv dev)) (rx_tail (cd_recv dev))
    <= Z.of_nat fuel ->
    let msgs := rx_contents (cd_recv dev) in
    let k := fit_count buflen nread msgs in
    let f' :=
      with_rx_head (ring_step k (rx_head (cd_recv dev))) (cd_recv dev) in
    can_read_copy buflen fuel nread buffer dev
    = Some (ReadRet (nread + frames_len (take k msgs))
              (store_frames (take k msgs) nread buffer)
              (with_recv f' dev))
    /\ rx_contents f' = drop k msgs
    /\ rx_wf f'.
Proof.
  induction fuel as [| fuel IH]; intros nread buffer dev Hwf Hne Hfuel.
  - exfalso. revert Hfuel. rx_solve.
  - rewrite (rx_contents_cons _ Hwf Hne).
    cbn [can_read_copy fit_count]. fold (frame_len
      (msg_at (rx_buffer (cd_recv dev)) (rx_head (cd_recv dev)))).
    set (m := msg_at (rx_buffer (cd_recv dev)) (rx_head (cd_recv dev))).
    destruct (nread + frame_len m >? buflen).
    + cbn [take frames_len store_frames ring_step drop].
      rewrite Z.add_0_r, with_rx_head_same.
      assert (with_rx_head (rx_head (cd_recv dev)) (cd_recv dev)
              = cd_recv dev) as -> by (destruct (cd_recv dev); reflexivity).
      split; [reflexivity |]. split; [| exact Hwf].
      subst m. now apply rx_contents_cons.
    + destruct (rx_head_step _ Hwf Hne) as (Hwf1 & Hd1).
      set (dev1 := with_recv _ dev).
      cbn [take frames_len store_frames ring_step drop].
      destruct (Z.eqb_spec (rx_head (cd_recv dev1)) (rx_tail (cd_recv dev1)))
        as [Hempty | Hmore]; cbn [negb].
      * subst dev1. cbn [cd_recv with_recv] in *.
        rewrite (rx_contents_nil _ Hempty).
        cbn [fit_count take frames_len store_frames ring_step drop].
        rewrite Z.add_0_r.
        split; [reflexivity |]. split; [| exact Hwf1].
        apply rx_contents_nil. exact Hempty.
      * destruct (IH (nread + frame_len m)
                    (buf_store nread
                       (copy_msg (can_dlc2bytes (ch_dlc (cm_hdr m))) m
                          (buffer nread)) buffer)
                    dev1) as (Hrun & Hrest & Hwf').
        { exact Hwf1. }
        { exact Hmore. }
        { subst dev1. cbn [cd_recv with_recv rx_head rx_tail with_rx_head].
          lia. }
        subst dev1. cbn [cd_recv with_recv rx_head rx_tail with_rx_head] in *.
        rewrite Hrun, Z.add_assoc.
        split; [reflexivity |]. split; [exact Hrest | exact Hwf'].
Qed.

End RxFacts.

Section RxOrder.
Context `{Cfg : can_config} {H : Type}.
Implicit Type dev : can_dev_s H.

(** What [fit_count] counts stays inside the buffer, and the message behind
    it would not. *)
Lemma fit_count_fits (buflen : Z) (msgs : list can_msg_s) :
  forall nread,
    nread <= buflen ->
    let k := fit_count buflen nread msgs in
    nread + frames_len (take k msgs) <= buflen
    /\ (forall m, drop k msgs !! 0%nat = Some m ->
                  buflen < nread + frames_len (take k msgs) + frame_len m).
Proof.
  induction msgs as [| m msgs IH]; intros nread Hle.
  - simpl. split; [lia | intros m Hm; discriminate Hm].
  - cbn [fit_count].
    destruct (Z.gtb_spec (nread + frame_len m) buflen) as [Hbig | Hfit].
    + cbn [take drop frames_len]. split; [lia |].
      intros m' Hm'. injection Hm' as <-. lia.
    + cbn [take drop frames_len].
      destruct (IH (nread + frame_len m) Hfit) as (Hin & Hmax).
      split; [lia |]. intros m' Hm'. specialize (Hmax m' Hm'). lia.
Qed.

(** [can_read] on a FIFO that holds messages, with no error latched: the
    caller gets the oldest messages in the order of their arrival, one behind
    the other, as many whole messages as fit into [buflen] bytes; these are
    taken off the FIFO and the others stay. *)
Lemma can_read_drains (nonblock : bool) (buflen : Z) (buffer : userbuf) dev :
  rx_wf (cd_recv dev) ->
  rx_head (cd_recv dev) <> rx_tail (cd_recv dev) ->
  CAN_MSGLEN 0 <= buflen ->
  (CONFIG_CAN_ERRORS = true -> cd_error dev = 0) ->
  let msgs := rx_contents (cd_recv dev) in
  let k := fit_count buflen 0 msgs in
  exists dev',
    can_read nonblock buflen buffer dev
    = Some (ReadRet (frames_len (take k msgs))
              (store_frames (take k msgs) 0 buffer) dev')
    /\ rx_contents (cd_recv dev') = drop k msgs
    /\ rx_wf (cd_recv dev')
    /\ dev' = with_recv
                (with_rx_head (ring_step k (rx_head (cd_recv dev)))
                   (cd_recv dev)) dev.
Proof.
  intros Hwf Hne Hlen Herr msgs k. unfold can_read, can_read_fifo.
  destruct (Z.leb_spec (CAN_MSGLEN 0) buflen) as [_ | Hno]; [| lia].
  assert (CONFIG_CAN_ERRORS && negb (cd_error dev =? 0) = false) as ->.
  { destruct CONFIG_CAN_ERRORS; [| reflexivity].
    rewrite Herr by reflexivity. reflexivity. }
  destruct (Z.eqb_spec (rx_head (cd_recv dev)) (rx_tail (cd_recv dev)))
    as [Heq | _]; [contradiction |].
  destruct (can_read_copy_drains buflen read_fuel 0 buffer dev Hwf Hne)
    as (Hrun & Hrest & Hwf').
  { unfold read_fuel. revert Hwf. clear. intros Hwf.
    assert (ring_dist (rx_head (cd_recv dev)) (rx_tail (cd_recv dev))
            < CONFIG_CAN_FIFOSIZE) by rx_solve.
    lia. }
  eexists. split; [exact Hrun |].
  split; [exact Hrest |]. split; [exact Hwf' | reflexivity].
Qed.

End RxOrder.

Section RxAppend.
Context `{Cfg : can_config} {H : Type}.
Implicit Type dev : can_dev_s H.

(** Storing a message at [rx_tail] and stepping the tail, where the FIFO is
    not full, appends the message to what the FIFO holds. *)
Lemma rx_tail_step (f : can_rxfifo_s) (slot : can_msg_s) :
  rx_wf f -> fifo_next (rx_tail f) <> rx_head f ->
  let f1 :=
    with_rx_tail (fifo_next (rx_tail f))
      (with_rx_buffer (<[Z.to_nat (rx_tail f) := slot]> (rx_buffer f)) f) in
  rx_wf f1 /\ rx_contents f1 = rx_contents f ++ [slot].
Proof.
  intros Hwf Hroom f1. split.
  - subst f1. unfold rx_wf in *.
    cbn [rx_head rx_tail rx_buffer with_rx_tail with_rx_buffer].
    rewrite length_insert. revert Hroom. rx_solve.
  - subst f1. unfold rx_contents.
    cbn [rx_head rx_tail rx_buffer with_rx_tail with_rx_buffer].
    assert (ring_dist (rx_head f) (fifo_next (rx_tail f))
            = Z.succ (ring_dist (rx_head f) (rx_tail f))
            /\ 0 <= ring_dist (rx_head f) (rx_tail f))
      as [-> Hpos] by (revert Hroom; rx_solve).
    rewrite Z2Nat.inj_succ by exact Hpos.
    destruct Hwf as (Hh & Ht & Hlen).
    rewrite ring_slice_snoc, ring_slice_insert; [| exact Hh | exact Ht | lia].
    rewrite (ring_step_dist (rx_tail f)); [| exact Hh | exact Ht | lia].
    rewrite msg_at_insert_eq; [reflexivity |].
    unfold in_ring in Ht. lia.
Qed.

(** [can_receive] on an RX FIFO that is not full: the message, with the
    header passed in, is appended behind the messages the FIFO holds, which
    stay as they are; a reader that waits is posted. *)
Lemma can_receive_appends dev (um : usermem) (hdr : can_hdr_s)
    (data : list Z) :
  rx_wf (cd_recv dev) ->
  length (cd_rtr dev) = CONFIG_CAN_NPENDINGRTR ->
  fifo_next (rx_tail (cd_recv dev)) <> rx_head (cd_recv dev) ->
  exists dev' um' slot,
    can_receive dev um hdr data = Some (OK, dev', um')
    /\ rx_wf (cd_recv dev')
    /\ rx_contents (cd_recv dev') = rx_contents (cd_recv dev) ++ [slot]
    /\ cm_hdr slot = hdr
    /\ rx_head (cd_recv dev') = rx_head (cd_recv dev)
    /\ rx_tail (cd_recv dev') = fifo_next (rx_tail (cd_recv dev))
    /\ rx_sem (cd_recv dev')
       = (if cd_nrxwaiters dev >? 0 then rx_sem (cd_recv dev) + 1
          else rx_sem (cd_recv dev))
    /\ cd_error dev' = cd_error dev
    /\ cd_nrxwaiters dev' = cd_nrxwaiters dev
    /\ (cd_npendrtr dev = 0 ->
        let nbytes := Z.to_nat (can_dlc2bytes (ch_dlc hdr)) in
        let old :=
          cm_data (msg_at (rx_buffer (cd_recv dev)) (rx_tail (cd_recv dev))) in
        (nbytes <= length data)%nat -> (nbytes <= length old)%nat ->
        um' = um
        /\ cm_data slot = take nbytes data ++ drop nbytes old).
Proof.
  intros Hwf Hlen Hroom.
  destruct (pending_scan_total dev um hdr data Hlen)
    as (dev1 & um1 & data1 & Hscan & Hfr).
  destruct Hfr as (Hrecv & _ & Herr & Hnrx & _).
  unfold can_receive. rewrite Hscan, Hrecv.
  destruct (Z.eqb_spec (fifo_next (rx_tail (cd_recv dev)))
              (rx_head (cd_recv dev))) as [Hfull | _]; [contradiction |].
  cbn [negb].
  set (slot := {| cm_hdr := hdr; cm_data := _ |}).
  destruct (rx_tail_step (cd_recv dev) slot Hwf Hroom) as (Hwf1 & Hcont).
  do 3 eexists. split; [reflexivity |].
  rewrite Hnrx.
  assert (forall f1 : can_rxfifo_s,
            let f2 := if cd_nrxwaiters dev >? 0
                      then with_rx_sem (sem_post (rx_sem f1)) f1 else f1 in
            rx_head f2 = rx_head f1 /\ rx_tail f2 = rx_tail f1
            /\ rx_buffer f2 = rx_buffer f1
            /\ rx_sem f2 = (if cd_nrxwaiters dev >? 0 then rx_sem f1 + 1
                            else rx_sem f1)) as Hsem.
  { intros f1. destruct (cd_nrxwaiters dev >? 0); repeat split. }
  cbn [cd_recv with_recv cd_error cd_nrxwaiters].
  match goal with
  | |- context [rx_wf (if _ then with_rx_sem _ ?f1 else _)] =>
      destruct (Hsem f1) as (Hh & Ht & Hb & Hs)
  end.
  unfold rx_wf, rx_contents in *. rewrite Hh, Ht, Hb, Hs.
  split; [exact Hwf1 |]. split; [exact Hcont |].
  split; [reflexivity |]. split; [reflexivity |]. split; [reflexivity |].
  split; [reflexivity |]. split; [exact Herr |]. split; [exact Hnrx |].
  intros Hnone Hdata Hold.
  unfold pending_scan in Hscan. rewrite Hnone in Hscan.
  change (0 >? 0) with false in Hscan.
  injection Hscan as <- <- <-.
  split; [reflexivity |].
  subst slot. cbn [cm_data].
  rewrite copy_data_fst by (simpl; assumption). reflexivity.
Qed.

End RxAppend.

Section RxTheorems.
Context `{Cfg : can_config} {H : Type}.
Implicit Type dev : can_dev_s H.

(** X5: [can_read] on an RX FIFO that holds messages, with no error latched,
    returns the oldest messages in the order of their arrival, copied one
    behind the other from offset 0: as many whole messages as fit into
    [buflen] bytes, so that the bytes returned never exceed [buflen] and the
    next message, if there is one, would not have fitted.  Exactly these are
    taken off the FIFO; [rx_tail] and the stored messages are untouched. *)
Theorem can_read_oldest_first (nonblock : bool) (buflen : Z)
    (buffer : userbuf) dev :
  rx_wf (cd_recv dev) ->
  rx_head (cd_recv dev) <> rx_tail (cd_recv dev) ->
  0 <= buflen -> CAN_MSGLEN 0 <= buflen ->
  (CONFIG_CAN_ERRORS = true -> cd_error dev = 0) ->
  exists (k : nat) dev',
    let msgs := rx_contents (cd_recv dev) in
    can_read nonblock buflen buffer dev
    = Some (ReadRet (frames_len (take k msgs))
              (store_frames (take k msgs) 0 buffer) dev')
    /\ frames_len (take k msgs) <= buflen
    /\ (forall m, drop k msgs !! 0%nat = Some m ->
                  buflen < frames_len (take k msgs) + frame_len m)
    /\ rx_contents (cd_recv dev') = drop k msgs
    /\ rx_wf (cd_recv dev')
    /\ rx_tail (cd_recv dev') = rx_tail (cd_recv dev)
    /\ rx_buffer (cd_recv dev') = rx_buffer (cd_recv dev).
Proof.
  intros Hwf Hne Hpos Hlen Herr.
  destruct (can_read_drains nonblock buflen buffer dev Hwf Hne Hlen Herr)
    as (dev' & Hrun & Hrest & Hwf' & Hdev).
  destruct (fit_count_fits buflen (rx_contents (cd_recv dev)) 0 Hpos)
    as (Hfit & Hmax).
  exists (fit_count buflen 0 (rx_contents (cd_recv dev))), dev'.
  cbn zeta. split; [exact Hrun |].
  split; [lia |]. split; [intros m Hm; specialize (Hmax m Hm); lia |].
  split; [exact Hrest |]. split; [exact Hwf' |].
  rewrite Hdev. split; reflexivity.
Qed.

(** X6: a message that [can_receive] accepts is queued behind the messages
    the RX FIFO holds, and a [can_read] that follows returns the messages in
    that order: first the older ones, then the new one, as far as the buffer
    allows.  The new message has the header passed to [can_receive] and, when
    no remote request is pending, its data bytes. *)
Theorem can_receive_then_read (nonblock : bool) (buflen : Z)
    (buffer : userbuf) dev (um : usermem) (hdr : can_hdr_s) (data : list Z) :
  rx_wf (cd_recv dev) ->
  length (cd_rtr dev) = CONFIG_CAN_NPENDINGRTR ->
  fifo_next (rx_tail (cd_recv dev)) <> rx_head (cd_recv dev) ->
  CAN_MSGLEN 0 <= buflen ->
  (CONFIG_CAN_ERRORS = true -> cd_error dev = 0) ->
  exists dev1 um1 slot dev2,
    let msgs := rx_contents (cd_recv dev) ++ [slot] in
    let k := fit_count buflen 0 msgs in
    can_receive dev um hdr data = Some (OK, dev1, um1)
    /\ rx_contents (cd_recv dev1) = msgs
    /\ can_read nonblock buflen buffer dev1
       = Some (ReadRet (frames_len (take k msgs))
                 (store_frames (take k msgs) 0 buffer) dev2)
    /\ rx_contents (cd_recv dev2) = drop k msgs
    /\ cm_hdr slot = hdr
    /\ (cd_npendrtr dev = 0 ->
        let nbytes := Z.to_nat (can_dlc2bytes (ch_dlc hdr)) in
        let old :=
          cm_data (msg_at (rx_buffer (cd_recv dev)) (rx_tail (cd_recv dev))) in
        (nbytes <= length data)%nat -> (nbytes <= length old)%nat ->
        um1 = um /\ cm_data slot = take nbytes data ++ drop nbytes old).
Proof.
  intros Hwf Hlen Hroom Hbuf Herr.
  destruct (can_receive_appends dev um hdr data Hwf Hlen Hroom)
    as (dev1 & um1 & slot & Hrecv & Hwf1 & Hcont & Hhdr & Hhead & Htail
        & _ & Herr1 & _ & Hdata).
  assert (rx_head (cd_recv dev1) <> rx_tail (cd_recv dev1)) as Hne
    by (rewrite Hhead, Htail; congruence).
  destruct (can_read_drains nonblock buflen buffer dev1 Hwf1 Hne Hbuf)
    as (dev2 & Hrun & Hrest & _).
  { rewrite Herr1. exact Herr. }
  exists dev1, um1, slot, dev2. cbn zeta. rewrite <- Hcont.
  split; [exact Hrecv |]. split; [reflexivity |].
  split; [exact Hrun |]. split; [exact Hrest |].
  split; [exact Hhdr | exact Hdata].
Qed.

End RxTheorems.

Section BlockedReader.
Context `{Cfg : can_config} {H : Type}.
Implicit Type dev : can_dev_s H.

Lemma u8_small (z : Z) : 0 <= z < 256 -> u8 z = z.
Proof. intros Hz. unfold u8. apply Z.mod_small. exact Hz. Qed.

(** X7: a blocking [can_read] on an empty RX FIFO waits, counted in
    [cd_nrxwaiters]; the [can_receive] that follows queues its message and
    posts [rx_sem]; the reader, resumed, returns that one message, and then
    the FIFO is empty again and [cd_nrxwaiters] and the count of [rx_sem] are
    what they were before the read. *)
Theorem blocked_read_is_served (buflen : Z) (buffer : userbuf) dev
    (um : usermem) (hdr : can_hdr_s) (data : list Z) :
  rx_wf (cd_recv dev) ->
  rx_head (cd_recv dev) = rx_tail (cd_recv dev) ->
  1 < CONFIG_CAN_FIFOSIZE ->
  length (cd_rtr dev) = CONFIG_CAN_NPENDINGRTR ->
  (CONFIG_CAN_ERRORS = true -> cd_error dev = 0) ->
  0 <= cd_nrxwaiters dev < 255 ->
  0 <= ch_dlc hdr ->
  CAN_MSGLEN (can_dlc2bytes (ch_dlc hdr)) <= buflen ->
  exists dev1 dev2 um' slot dev3,
    can_read false buflen buffer dev = Some (ReadWait buffer dev1)
    /\ cd_nrxwaiters dev1 = cd_nrxwaiters dev + 1
    /\ can_receive dev1 um hdr data = Some (OK, dev2, um')
    /\ rx_sem (cd_recv dev2) = rx_sem (cd_recv dev) + 1
    /\ can_read_wake false buflen SemOk buffer dev2
       = Some (ReadRet (CAN_MSGLEN (can_dlc2bytes (ch_dlc hdr)))
                 (buf_store 0
                    (copy_msg (can_dlc2bytes (ch_dlc hdr)) slot (buffer 0))
                    buffer)
                 dev3)
    /\ cm_hdr slot = hdr
    /\ (cd_npendrtr dev = 0 ->
        let nbytes := Z.to_nat (can_dlc2bytes (ch_dlc hdr)) in
        let old :=
          cm_data (msg_at (rx_buffer (cd_recv dev)) (rx_tail (cd_recv dev))) in
        (nbytes <= length data)%nat -> (nbytes <= length old)%nat ->
        cm_data slot = take nbytes data ++ drop nbytes old)
    /\ rx_head (cd_recv dev3) = rx_tail (cd_recv dev3)
    /\ cd_nrxwaiters dev3 = cd_nrxwaiters dev
    /\ rx_sem (cd_recv dev3) = rx_sem (cd_recv dev).
Proof.
  intros Hwf Hempty Hcap Hlen Herr Hnrx Hdlc Hbuf.
  pose proof (can_dlc2bytes_nonneg _ Hdlc) as Hbytes.
  set (dev1 := with_nrxwaiters (cd_nrxwaiters dev + 1) dev).
  assert (can_read false buflen buffer dev = Some (ReadWait buffer dev1))
    as Hwait.
  { unfold can_read, can_read_fifo.
    destruct (Z.leb_spec (CAN_MSGLEN 0) buflen) as [_ | Hno];
      [| unfold CAN_MSGLEN in *; lia].
    assert (CONFIG_CAN_ERRORS && negb (cd_error dev =? 0) = false) as ->.
    { destruct CONFIG_CAN_ERRORS; [| reflexivity].
      rewrite Herr by reflexivity. reflexivity. }
    rewrite Hempty, Z.eqb_refl, u8_small by lia. reflexivity. }
  destruct (can_receive_appends dev1 um hdr data)
    as (dev2 & um' & slot & Hrecv & Hwf2 & Hcont & Hhdr & Hhead & Htail
        & Hsem & _ & Hnrx2 & Hdata).
  { exact Hwf. }
  { exact Hlen. }
  { subst dev1. cbn [cd_recv with_nrxwaiters]. rewrite Hempty.
    revert Hwf Hcap. clear. intros Hwf Hcap. rx_solve. }
  subst dev1. cbn [cd_recv cd_nrxwaiters cd_npendrtr with_nrxwaiters] in *.
  destruct (Z.gtb_spec (cd_nrxwaiters dev + 1) 0) as [_ | Hno]; [| lia].
  assert (rx_head (cd_recv dev2) <> rx_tail (cd_recv dev2)) as Hne.
  { rewrite Hhead, Htail, Hempty.
    revert Hwf Hcap. clear. intros Hwf Hcap. rx_solve. }
  rewrite (rx_contents_nil _ Hempty) in Hcont. cbn [app] in Hcont.
  set (dev2' := with_recv (with_rx_sem (sem_take (rx_sem (cd_recv dev2)))
                             (cd_recv dev2)) dev2).
  set (dev2'' := with_nrxwaiters (u8 (cd_nrxwaiters dev2' - 1)) dev2').
  destruct (can_read_copy_drains buflen read_fuel 0 buffer dev2'')
    as (Hrun & Hrest & Hwf3).
  { exact Hwf2. }
  { exact Hne. }
  { unfold read_fuel. cbn [cd_recv dev2'' dev2' with_nrxwaiters with_recv
      rx_head rx_tail with_rx_sem].
    assert (ring_dist (rx_head (cd_recv dev2)) (rx_tail (cd_recv dev2))
            < CONFIG_CAN_FIFOSIZE)
      by (revert Hwf2; clear; intros Hwf2; rx_solve).
    lia. }
  assert (rx_contents (cd_recv dev2'') = [slot]) as Hone by exact Hcont.
  rewrite Hone in Hrun, Hrest, Hwf3.
  assert (frame_len slot = CAN_MSGLEN (can_dlc2bytes (ch_dlc hdr))) as Hfl
    by (unfold frame_len; now rewrite Hhdr).
  assert (fit_count buflen 0 [slot] = 1%nat) as Hk.
  { cbn [fit_count]. rewrite Hfl.
    destruct (Z.gtb_spec (0 + CAN_MSGLEN (can_dlc2bytes (ch_dlc hdr))) buflen)
      as [Hbig | _]; [lia | reflexivity]. }
  rewrite Hk in Hrun, Hrest, Hwf3.
  cbn [take frames_len store_frames] in Hrun. rewrite Hfl, Hhdr in Hrun.
  rewrite Z.add_0_l, Z.add_0_r in Hrun.
  do 5 eexists. split; [exact Hwait |].
  split; [reflexivity |]. split; [exact Hrecv |]. split; [exact Hsem |].
  split.
  { unfold can_read_wake. fold dev2'.
    destruct (Z.eqb_spec (rx_head (cd_recv dev2')) (rx_tail (cd_recv dev2')))
      as [Heq | _]; [contradiction |].
    fold dev2''. unfold can_read_fifo.
    destruct (Z.eqb_spec (rx_head (cd_recv dev2''))
                (rx_tail (cd_recv dev2''))) as [Heq | _]; [contradiction |].
    exact Hrun. }
  split; [exact Hhdr |].
  split; [intros Hnone Hd Ho; now apply Hdata |].
  cbn [cd_recv with_recv cd_nrxwaiters rx_head rx_tail rx_sem with_rx_head].
  split.
  { cbn [drop] in Hrest.
    unfold rx_contents in Hrest.
    apply (f_equal (@length can_msg_s)) in Hrest.
    rewrite ring_slice_length in Hrest. cbn [length] in Hrest.
    cbn [rx_head rx_tail with_rx_head rx_buffer] in Hrest.
    destruct Hwf3 as (Hh3 & Ht3 & _).
    cbn [rx_head rx_tail with_rx_head] in Hh3, Ht3.
    revert Hh3 Ht3 Hrest. clear.
    generalize (ring_step 1 (rx_head (cd_recv dev2''))).
    generalize (rx_tail (cd_recv dev2'')).
    intros t h Hh Ht Hd. unfold in_ring in *.
    ring_dist_case h t; lia. }
  subst dev2'' dev2'.
  cbn [cd_recv with_recv cd_nrxwaiters with_nrxwaiters rx_sem with_rx_sem].
  rewrite Hnrx2, Hsem, u8_small by lia. unfold sem_take. split; lia.
Qed.

End BlockedReader.

(** X5 on the device that holds two messages, of 6 and of 7 bytes, read with
    a buffer of 6 bytes: the older one is returned and the other stays. *)
Lemma can_read_oldest_first_witness :
  exists (k : nat) dev',
    @can_read classic_can Z true 6 blank_buf two_rx_dev
    = Some (ReadRet
              (@frames_len classic_can
                 (take k (@rx_contents classic_can (cd_recv two_rx_dev))))
              (@store_frames classic_can
                 (take k (@rx_contents classic_can (cd_recv two_rx_dev)))
                 0 blank_buf)
              dev')
    /\ @rx_contents classic_can (cd_recv dev')
       = drop k (@rx_contents classic_can (cd_recv two_rx_dev)).
Proof.
  destruct (@can_read_oldest_first classic_can Z true 6 blank_buf two_rx_dev)
    as (k & dev' & Hrun & _ & _ & Hrest & _).
  - vm_compute. repeat split; try reflexivity; discriminate.
  - vm_compute. discriminate.
  - lia.
  - vm_compute. discriminate.
  - reflexivity.
  - exists k, dev'. split; [exact Hrun | exact Hrest].
Defined.

(** X6 on the same device: a third frame arrives and is read behind the two
    that wait. *)
Lemma can_receive_then_read_witness :
  exists dev1 um1 slot (dev2 : can_dev_s Z),
    @can_receive classic_can Z two_rx_dev ∅ (cm_hdr (frame 3 1 [])) [10]
    = Some (OK, dev1, um1)
    /\ @rx_contents classic_can (cd_recv dev1)
       = @rx_contents classic_can (cd_recv two_rx_dev) ++ [slot]
    /\ @rx_contents classic_can (cd_recv dev2)
       = drop (@fit_count classic_can 64 0
                 (@rx_contents classic_can (cd_recv two_rx_dev) ++ [slot]))
              (@rx_contents classic_can (cd_recv two_rx_dev) ++ [slot]).
Proof.
  destruct (@can_receive_then_read classic_can Z true 64 blank_buf two_rx_dev
              ∅ (cm_hdr (frame 3 1 [])) [10])
    as (dev1 & um1 & slot & dev2 & Hrecv & Hcont & _ & Hrest & _).
  - vm_compute. repeat split; try reflexivity; discriminate.
  - reflexivity.
  - vm_compute. discriminate.
  - vm_compute. discriminate.
  - reflexivity.
  - exists dev1, um1, slot, dev2.
    split; [exact Hrecv |]. split; [exact Hcont | exact Hrest].
Defined.

(** X7 on the device just opened: a reader blocks, a frame of two data bytes
    arrives, and the reader returns its 7 bytes. *)
Lemma blocked_read_is_served_witness :
  exists dev1 dev2 um' buf dev3,
    @can_read classic_can Z false 64 blank_buf opened_dev
    = Some (ReadWait blank_buf dev1)
    /\ @can_receive classic_can Z dev1 ∅ (cm_hdr (frame 2 2 [])) [8; 9]
       = Some (OK, dev2, um')
    /\ @can_read_wake classic_can Z false 64 SemOk blank_buf dev2
       = Some (ReadRet 7 buf dev3)
    /\ cd_nrxwaiters dev3 = cd_nrxwaiters opened_dev.
Proof.
  destruct (@blocked_read_is_served classic_can Z 64 blank_buf opened_dev
              ∅ (cm_hdr (frame 2 2 [])) [8; 9])
    as (dev1 & dev2 & um' & slot & dev3 & Hwait & _ & Hrecv & _ & Hwake
        & _ & _ & _ & Hnrx & _).
  - vm_compute. repeat split; try reflexivity; discriminate.
  - reflexivity.
  - reflexivity.
  - reflexivity.
  - reflexivity.
  - vm_compute. split; [discriminate | reflexivity].
  - discriminate.
  - vm_compute. discriminate.
  - exists dev1, dev2, um'. do 2 eexists.
    split; [exact Hwait |]. split; [exact Hrecv |].
    split; [exact Hwake | exact Hnrx].
Defined.

(** ** What the transmit engine does to the device *)

(** Every relation between the device before and after that holds across
    the four things the transmit engine does (handing a message to
    [dev_send], completing one in [can_txdone], switching the TX interrupt,
    doing nothing) holds across [can_xmit] and [can_txdone] as a whole,
    however deep [dev_send] and [can_txdone] call each other. *)
Section TxPost.
Context `{Cfg : can_config} {H : Type} `{Ops : can_ops H}.
Implicit Type dev : can_dev_s H.

Variable P : can_dev_s H -> can_dev_s H -> Prop.

Hypothesis P_progress :
  forall a b, P a b -> tx_progress (cd_xmit a) (cd_xmit b).
Hypothesis P_refl : forall dev, tx_ordered (cd_xmit dev) -> P dev dev.
Hypothesis P_trans : forall a b c, P a b -> P b c -> P a c.
Hypothesis P_send :
  forall dev h callback r,
    tx_ordered (cd_xmit dev) ->
    tx_queue (cd_xmit dev) <> tx_tail (cd_xmit dev) ->
    let dev1 :=
      with_xmit (with_tx_queue (fifo_next (tx_queue (cd_xmit dev)))
                               (cd_xmit dev)) dev in
    dev_send (cd_priv dev1)
      (msg_at (tx_buffer (cd_xmit dev1)) (tx_queue (cd_xmit dev)))
    = (h, callback, r) ->
    P dev (with_priv h dev1).
Hypothesis P_txdone :
  forall dev dev2,
    tx_ordered (cd_xmit dev) ->
    tx_head (cd_xmit dev) <> tx_queue (cd_xmit dev) ->
    P (with_xmit (with_tx_head (fifo_next (tx_head (cd_xmit dev)))
                               (cd_xmit dev)) dev) dev2 ->
    P dev (if cd_ntxwaiters dev2 >? 0 then sem_post_tx dev2 else dev2).
Hypothesis P_txint :
  forall a b on, P a b -> P a (with_priv (dev_txint (cd_priv b) on) b).

Lemma can_xmit_with_post (n : Z)
    (loop : can_dev_s H -> Z -> option (can_dev_s H * Z)) :
  loop_post P n loop ->
  forall dev,
    tx_ordered (cd_xmit dev) ->
    ring_dist (tx_queue (cd_xmit dev)) (tx_tail (cd_xmit dev)) < n ->
    exists dev' r, can_xmit_with loop dev = Some (dev', r) /\ P dev dev'.
Proof.
  intros Hloop dev Hord Hn. unfold can_xmit_with.
  destruct (tx_empty dev).
  - do 2 eexists. split; [reflexivity |].
    destruct CONFIG_CAN_TXREADY; [| apply P_txint]; now apply P_refl.
  - destruct (Hloop dev (- EBUSY) Hord Hn) as (dev' & r & -> & HP).
    do 2 eexists. split; [reflexivity |]. now apply P_txint.
Qed.

Lemma can_txdone_with_post (n : Z)
    (xmit : can_dev_s H -> option (can_dev_s H * Z)) :
  (forall dev,
     tx_ordered (cd_xmit dev) ->
     ring_dist (tx_queue (cd_xmit dev)) (tx_tail (cd_xmit dev)) < n ->
     exists dev' r, xmit dev = Some (dev', r) /\ P dev dev') ->
  forall dev,
    tx_ordered (cd_xmit dev) ->
    (tx_head (cd_xmit dev) <> tx_tail (cd_xmit dev) ->
     tx_head (cd_xmit dev) <> tx_queue (cd_xmit dev)) ->
    ring_dist (tx_queue (cd_xmit dev)) (tx_tail (cd_xmit dev)) < n ->
    exists dev' r,
      can_txdone_with xmit dev = Some (dev', r) /\ P dev dev'
      /\ (tx_head (cd_xmit dev) <> tx_tail (cd_xmit dev) -> r = OK)
      /\ (tx_head (cd_xmit dev) = tx_tail (cd_xmit dev) ->
          r = - ENOENT /\ dev' = dev).
Proof.
  intros Hxmit dev Hord Hassert Hn. unfold can_txdone_with, tx_empty.
  destruct (Z.eqb_spec (tx_head (cd_xmit dev)) (tx_tail (cd_xmit dev)))
    as [Hempty | Hfull].
  - do 2 eexists. split; [reflexivity |]. split; [now apply P_refl |].
    split; [intros Hne; contradiction | intros _; split; reflexivity].
  - specialize (Hassert Hfull).
    destruct (tx_head_step (cd_xmit dev) Hord Hassert) as (Hord1 & Hq1 & _).
    set (dev1 := with_xmit _ dev) in *.
    destruct (Hxmit dev1) as (dev2 & r & -> & HP).
    + exact Hord1.
    + subst dev1. cbn [cd_xmit with_xmit] in *. rewrite Hq1. exact Hn.
    + exists (if cd_ntxwaiters dev2 >? 0 then sem_post_tx dev2 else dev2), OK.
      split; [destruct (cd_ntxwaiters dev2 >? 0); reflexivity |].
      split; [now apply P_txdone |].
      split; [reflexivity | intros Heq; contradiction].
Qed.

Lemma can_xmit_loop_post (fuel : nat) :
  loop_post P (Z.of_nat fuel) (can_xmit_loop fuel).
Proof.
  induction fuel as [| fuel IH]; intros dev ret Hord Hn.
  - exfalso.
    pose proof (ring_dist_bound (tx_queue (cd_xmit dev))
                  (tx_tail (cd_xmit dev)) (tx_ordered_capacity _ Hord)).
    lia.
  - cbn [can_xmit_loop].
    destruct (negb (tx_queue (cd_xmit dev) =? tx_tail (cd_xmit dev))
              && dev_txready (cd_priv dev)) eqn:Hcond.
    2: { do 2 eexists. split; [reflexivity | now apply P_refl]. }
    apply andb_prop in Hcond as [Hne _].
    apply negb_true_iff, Z.eqb_neq in Hne.
    destruct (tx_queue_step (cd_xmit dev) Hord Hne)
      as (Hord1 & Hhq & Hht & Hq1).
    pose proof (P_send dev) as Hsend. cbn zeta in Hsend.
    set (dev1 := with_xmit _ dev) in *.
    destruct (dev_send (cd_priv dev1) _) as [[h callback] r].
    specialize (Hsend h callback r Hord Hne eq_refl).
    set (dev2 := with_priv h dev1) in *.
    assert (exists dev3 r3,
              (if callback
               then can_txdone_with (can_xmit_with (can_xmit_loop fuel)) dev2
               else Some (dev2, OK)) = Some (dev3, r3)
              /\ P dev2 dev3) as Hcb.
    { destruct callback.
      - destruct (can_txdone_with_post (Z.of_nat fuel)
                    (can_xmit_with (can_xmit_loop fuel))
                    (can_xmit_with_post _ _ IH) dev2)
          as (dev3 & r3 & Hrun & HP & _).
        + exact Hord1.
        + intros _. exact Hhq.
        + subst dev2 dev1. cbn [cd_xmit with_xmit with_priv] in *. lia.
        + now exists dev3, r3.
      - do 2 eexists. split; [reflexivity |]. apply P_refl. exact Hord1. }
    destruct Hcb as (dev3 & r3 & -> & HP3).
    assert (P dev dev3) as Hall by (eapply P_trans; eassumption).
    destruct (r =? OK).
    + destruct (IH dev3 r) as (dev4 & r4 & Hrun & HP4).
      * apply (P_progress _ _ HP3).
      * destruct (P_progress _ _ HP3) as (_ & Ht3 & _ & Hq3 & _).
        subst dev2 dev1. cbn [cd_xmit with_xmit with_priv] in *. lia.
      * do 2 eexists. split; [exact Hrun |]. eapply P_trans; eassumption.
    + do 2 eexists. split; [reflexivity | exact Hall].
Qed.

Lemma xmit_fuel_enough dev :
  tx_ordered (cd_xmit dev) ->
  ring_dist (tx_queue (cd_xmit dev)) (tx_tail (cd_xmit dev))
  < Z.of_nat xmit_fuel.
Proof.
  intros Hord.
  pose proof (ring_dist_bound (tx_queue (cd_xmit dev))
                (tx_tail (cd_xmit dev)) (tx_ordered_capacity _ Hord)).
  unfold xmit_fuel. lia.
Qed.

Lemma can_xmit_post dev :
  tx_ordered (cd_xmit dev) ->
  exists dev' r, can_xmit dev = Some (dev', r) /\ P dev dev'.
Proof.
  intros Hord. unfold can_xmit, can_xmit_fuel.
  apply (can_xmit_with_post (Z.of_nat xmit_fuel)).
  - apply can_xmit_loop_post.
  - exact Hord.
  - now apply xmit_fuel_enough.
Qed.

Lemma can_txdone_post dev :
  tx_ordered (cd_xmit dev) ->
  (tx_head (cd_xmit dev) <> tx_tail (cd_xmit dev) ->
   tx_head (cd_xmit dev) <> tx_queue (cd_xmit dev)) ->
  exists dev' r,
    can_txdone dev = Some (dev', r) /\ P dev dev'
    /\ (tx_head (cd_xmit dev) <> tx_tail (cd_xmit dev) -> r = OK)
    /\ (tx_head (cd_xmit dev) = tx_tail (cd_xmit dev) ->
        r = - ENOENT /\ dev' = dev).
Proof.
  intros Hord Hassert. unfold can_txdone, can_txdone_fuel.
  apply (can_txdone_with_post (Z.of_nat xmit_fuel)).
  - intros d Hd Hn. unfold can_xmit_fuel.
    apply (can_xmit_with_post (Z.of_nat xmit_fuel)).
    + apply can_xmit_loop_post.
    + exact Hd.
    + exact Hn.
  - exact Hord.
  - exact Hassert.
  - now apply xmit_fuel_enough.
Qed.

End TxPost.

Section TxEffect.
Context `{Cfg : can_config} {H : Type} `{Ops : can_ops H}.
Implicit Type dev : can_dev_s H.

Lemma tx_effect_refl dev : tx_ordered (cd_xmit dev) -> tx_effect dev dev.
Proof.
  intros Hord. unfold tx_effect.
  split; [now apply tx_progress_refl |]. split; [reflexivity |].
  split; [destruct (cd_ntxwaiters dev >? 0); lia |].
  repeat split; reflexivity.
Qed.

Lemma tx_effect_trans (a b c : can_dev_s H) :
  tx_effect a b -> tx_effect b c -> tx_effect a c.
Proof.
  unfold tx_effect.
  intros (Hp1 & Hw1 & Hs1 & Hr1 & Ht1 & Hn1 & Hx1 & He1 & Ho1 & Hc1 & Hk1)
         (Hp2 & Hw2 & Hs2 & Hr2 & Ht2 & Hn2 & Hx2 & He2 & Ho2 & Hc2 & Hk2).
  split; [eapply tx_progress_trans; eassumption |].
  split; [congruence |].
  split; [rewrite Hs2, Hs1, Hw1; destruct (cd_ntxwaiters a >? 0); lia |].
  repeat split; congruence.
Qed.

Lemma tx_effect_send dev (h : H) :
  tx_ordered (cd_xmit dev) ->
  tx_queue (cd_xmit dev) <> tx_tail (cd_xmit dev) ->
  tx_effect dev
    (with_priv h
       (with_xmit (with_tx_queue (fifo_next (tx_queue (cd_xmit dev)))
                                 (cd_xmit dev)) dev)).
Proof.
  intros Hord Hne.
  destruct (tx_queue_step (cd_xmit dev) Hord Hne) as (Hord1 & _ & _ & Hq1).
  unfold tx_effect, tx_pending.
  cbn [cd_xmit with_xmit with_priv cd_ntxwaiters cd_recv cd_rtr cd_npendrtr
       cd_nrxwaiters cd_error cd_ocount cd_closesem cd_work tx_sem tx_head
       tx_tail with_tx_queue].
  split.
  { unfold tx_progress. rewrite Hq1.
    repeat split; try apply Hord1; try reflexivity; lia. }
  split; [reflexivity |].
  split; [destruct (cd_ntxwaiters dev >? 0); lia |].
  repeat split; reflexivity.
Qed.

Lemma tx_effect_txdone dev (dev2 : can_dev_s H) :
  tx_ordered (cd_xmit dev) ->
  tx_head (cd_xmit dev) <> tx_queue (cd_xmit dev) ->
  tx_effect (with_xmit (with_tx_head (fifo_next (tx_head (cd_xmit dev)))
                                     (cd_xmit dev)) dev) dev2 ->
  tx_effect dev (if cd_ntxwaiters dev2 >? 0 then sem_post_tx dev2 else dev2).
Proof.
  intros Hord Hne HP.
  destruct (tx_head_step (cd_xmit dev) Hord Hne) as (Hord1 & Hq1 & Hh1).
  destruct HP as (Hp & Hw & Hs & Hrest).
  assert (tx_progress (cd_xmit dev) (cd_xmit dev2)) as Hall.
  { eapply tx_progress_trans; [| exact Hp].
    cbn [cd_xmit with_xmit]. unfold tx_progress. rewrite Hq1, Hh1.
    repeat split; try apply Hord1; try reflexivity; lia. }
  assert (tx_tail (cd_xmit dev2) = tx_tail (cd_xmit dev)) as Htail
    by apply Hall.
  unfold tx_pending in Hs.
  cbn [cd_xmit with_xmit cd_ntxwaiters cd_recv cd_rtr cd_npendrtr
       cd_nrxwaiters cd_error cd_ocount cd_closesem cd_work tx_sem]
    in Hw, Hs, Hrest.
  rewrite Htail in Hs.
  change (tx_tail (with_tx_head (fifo_next (tx_head (cd_xmit dev)))
                     (cd_xmit dev))) with (tx_tail (cd_xmit dev)) in Hs, Hh1.
  change (tx_sem (with_tx_head (fifo_next (tx_head (cd_xmit dev)))
                    (cd_xmit dev))) with (tx_sem (cd_xmit dev)) in Hs.
  unfold tx_effect, tx_pending. rewrite Hw.
  destruct (cd_ntxwaiters dev >? 0); unfold sem_post_tx, sem_post;
    cbn [cd_xmit with_xmit cd_ntxwaiters cd_recv cd_rtr cd_npendrtr
         cd_nrxwaiters cd_error cd_ocount cd_closesem cd_work tx_sem tx_head
         tx_tail with_tx_sem];
    (split; [exact Hall |]); (split; [exact Hw |]);
    (split; [rewrite ?Htail; lia | exact Hrest]).
Qed.

Lemma tx_effect_txint (a b : can_dev_s H) (on : bool) :
  tx_effect a b -> tx_effect a (with_priv (dev_txint (cd_priv b) on) b).
Proof. intros HP. exact HP. Qed.

End TxEffect.

Section TxDoneTheorem.
Context `{Cfg : can_config} {H : Type} `{Ops : can_ops H}.
Implicit Type dev : can_dev_s H.

(** [can_xmit] changes nothing in the device but the TX FIFO and the state
    of the lower half, whatever the lower half does. *)
Lemma can_xmit_effect dev :
  tx_ordered (cd_xmit dev) ->
  exists dev' r, can_xmit dev = Some (dev', r) /\ tx_effect dev dev'.
Proof.
  apply (can_xmit_post tx_effect).
  - intros a b HP. apply HP.
  - apply tx_effect_refl.
  - apply tx_effect_trans.
  - intros d h callback r Hord Hne dev1 _. now apply tx_effect_send.
  - apply tx_effect_txdone.
  - apply tx_effect_txint.
Qed.

(** X8: [can_txdone] on an empty TX FIFO returns -ENOENT and changes nothing.
    Called for a message that was handed to the hardware, it returns OK with
    at least one slot of the TX FIFO freed, whatever the lower half does and
    however often its [dev_send] calls back; [tx_tail] and the queued messages
    are untouched, [tx_sem] is posted once for every message completed if a
    writer waits and not at all otherwise, and nothing outside the TX FIFO
    and the state of the lower half changes. *)
Theorem can_txdone_frees_and_posts dev :
  (tx_head (cd_xmit dev) = tx_tail (cd_xmit dev) ->
   can_txdone dev = Some (dev, - ENOENT))
  /\ (tx_ordered (cd_xmit dev) ->
      tx_head (cd_xmit dev) <> tx_queue (cd_xmit dev) ->
      exists dev',
        can_txdone dev = Some (dev', OK)
        /\ tx_ordered (cd_xmit dev')
        /\ tx_pending (cd_xmit dev') < tx_pending (cd_xmit dev)
        /\ tx_tail (cd_xmit dev') = tx_tail (cd_xmit dev)
        /\ tx_buffer (cd_xmit dev') = tx_buffer (cd_xmit dev)
        /\ cd_ntxwaiters dev' = cd_ntxwaiters dev
        /\ tx_sem (cd_xmit dev')
           = tx_sem (cd_xmit dev)
             + (if cd_ntxwaiters dev >? 0
                then tx_pending (cd_xmit dev) - tx_pending (cd_xmit dev')
                else 0)
        /\ cd_recv dev' = cd_recv dev /\ cd_rtr dev' = cd_rtr dev
        /\ cd_npendrtr dev' = cd_npendrtr dev
        /\ cd_nrxwaiters dev' = cd_nrxwaiters dev
        /\ cd_error dev' = cd_error dev /\ cd_ocount dev' = cd_ocount dev
        /\ cd_closesem dev' = cd_closesem dev /\ cd_work dev' = cd_work dev).
Proof.
  split.
  - intros Hempty.
    unfold can_txdone, can_txdone_fuel, can_txdone_with, tx_empty.
    rewrite Hempty, Z.eqb_refl. reflexivity.
  - intros Hord Hne.
    assert (tx_head (cd_xmit dev) <> tx_tail (cd_xmit dev)) as Hfull
      by (revert Hne; clear -Hord; intros Hne; ring_solve).
    destruct (tx_head_step (cd_xmit dev) Hord Hne) as (Hord1 & _ & Hh1).
    set (dev1 := with_xmit (with_tx_head (fifo_next (tx_head (cd_xmit dev)))
                              (cd_xmit dev)) dev) in *.
    destruct (can_xmit_effect dev1 Hord1) as (dev2 & r & Hrun & Heff).
    pose proof (tx_effect_txdone dev dev2 Hord Hne Heff) as Hall.
    exists (if cd_ntxwaiters dev2 >? 0 then sem_post_tx dev2 else dev2).
    split.
    { unfold can_txdone, can_txdone_fuel, can_txdone_with, tx_empty.
      destruct (Z.eqb_spec (tx_head (cd_xmit dev)) (tx_tail (cd_xmit dev)))
        as [Heq | _]; [contradiction |].
      fold dev1. fold (can_xmit dev1). rewrite Hrun.
      destruct (cd_ntxwaiters dev2 >? 0); reflexivity. }
    destruct Heff as ((_ & Ht2 & _ & _ & Hh2) & _).
    destruct Hall as ((Hord' & Ht & Hb & _ & _) & Hrest).
    split; [exact Hord' |]. split.
    { unfold tx_pending.
      assert (forall d : can_dev_s H,
                tx_head (cd_xmit (if cd_ntxwaiters dev2 >? 0
                                  then sem_post_tx d else d))
                = tx_head (cd_xmit d)
                /\ tx_tail (cd_xmit (if cd_ntxwaiters dev2 >? 0
                                     then sem_post_tx d else d))
                   = tx_tail (cd_xmit d)) as Hsame
        by (intros d; destruct (cd_ntxwaiters dev2 >? 0); split; reflexivity).
      destruct (Hsame dev2) as [-> ->].
      subst dev1. cbn [cd_xmit with_xmit tx_tail tx_head with_tx_head] in *.
      lia. }
    split; [exact Ht |]. split; [exact Hb | exact Hrest].
Qed.

End TxDoneTheorem.

(** ** The order in which messages reach the hardware *)

Section TxStream.
Context `{Cfg : can_config} {H : Type} (Ops : can_ops H).
Implicit Type dev : can_dev_s (H * list can_msg_s).

Lemma tx_unsent_cons (f : can_txfifo_s) :
  tx_ordered f -> tx_queue f <> tx_tail f ->
  tx_unsent f
  = msg_at (tx_buffer f) (tx_queue f)
    :: tx_unsent (with_tx_queue (fifo_next (tx_queue f)) f).
Proof.
  intros Hord Hne. unfold tx_unsent.
  cbn [tx_queue tx_tail tx_buffer with_tx_queue].
  assert (ring_dist (tx_queue f) (tx_tail f)
          = Z.succ (ring_dist (fifo_next (tx_queue f)) (tx_tail f))
          /\ 0 <= ring_dist (fifo_next (tx_queue f)) (tx_tail f))
    as [-> Hpos] by (revert Hne; ring_solve).
  rewrite Z2Nat.inj_succ by exact Hpos. reflexivity.
Qed.

Lemma tx_stream_refl dev :
  tx_ordered (cd_xmit dev) -> tx_stream_kept dev dev.
Proof. intros Hord. split; [now apply tx_progress_refl | reflexivity]. Qed.

Lemma tx_stream_trans (a b c : can_dev_s (H * list can_msg_s)) :
  tx_stream_kept a b -> tx_stream_kept b c -> tx_stream_kept a c.
Proof.
  intros (Hp1 & Hs1) (Hp2 & Hs2).
  split; [eapply tx_progress_trans; eassumption | congruence].
Qed.

Lemma tx_stream_send dev (h : H * list can_msg_s) (callback : bool) (r : Z) :
  tx_ordered (cd_xmit dev) ->
  tx_queue (cd_xmit dev) <> tx_tail (cd_xmit dev) ->
  let dev1 :=
    with_xmit (with_tx_queue (fifo_next (tx_queue (cd_xmit dev)))
                             (cd_xmit dev)) dev in
  dev_send (can_ops := logged_ops Ops) (cd_priv dev1)
    (msg_at (tx_buffer (cd_xmit dev1)) (tx_queue (cd_xmit dev)))
  = (h, callback, r) ->
  tx_stream_kept dev (with_priv h dev1).
Proof.
  intros Hord Hne dev1 Hsend.
  destruct (tx_queue_step (cd_xmit dev) Hord Hne) as (Hord1 & _ & _ & Hq1).
  split.
  - subst dev1. cbn [cd_xmit with_xmit with_priv].
    unfold tx_progress. rewrite Hq1.
    repeat split; try apply Hord1; try reflexivity; lia.
  - unfold tx_stream. subst dev1.
    cbn [cd_xmit with_xmit with_priv cd_priv tx_buffer with_tx_queue
         dev_send logged_ops] in *.
    destruct (dev_send (cd_priv dev).1 _) as [[h0 cb0] r0].
    injection Hsend as <- _ _. cbn [snd].
    rewrite (tx_unsent_cons _ Hord Hne), <- app_assoc. reflexivity.
Qed.

Lemma tx_stream_txdone dev (dev2 : can_dev_s (H * list can_msg_s)) :
  tx_ordered (cd_xmit dev) ->
  tx_head (cd_xmit dev) <> tx_queue (cd_xmit dev) ->
  tx_stream_kept
    (with_xmit (with_tx_head (fifo_next (tx_head (cd_xmit dev)))
                             (cd_xmit dev)) dev) dev2 ->
  tx_stream_kept dev
    (if cd_ntxwaiters dev2 >? 0 then sem_post_tx dev2 else dev2).
Proof.
  intros Hord Hne (Hp & Hs).
  destruct (tx_head_step (cd_xmit dev) Hord Hne) as (Hord1 & Hq1 & Hh1).
  assert (tx_progress (cd_xmit dev) (cd_xmit dev2)) as Hall.
  { eapply tx_progress_trans; [| exact Hp].
    cbn [cd_xmit with_xmit]. unfold tx_progress. rewrite Hq1, Hh1.
    repeat split; try apply Hord1; try reflexivity; lia. }
  destruct (cd_ntxwaiters dev2 >? 0); (split; [exact Hall | exact Hs]).
Qed.

Lemma tx_stream_txint (a b : can_dev_s (H * list can_msg_s)) (on : bool) :
  tx_stream_kept a b ->
  tx_stream_kept a
    (with_priv (dev_txint (can_ops := logged_ops Ops) (cd_priv b) on) b).
Proof. intros HP. exact HP. Qed.

(** When the stream is kept, what the lower half was given since is the head
    of what waited. *)
Lemma tx_stream_split (a b : can_dev_s (H * list can_msg_s)) :
  tx_stream_kept a b ->
  exists n : nat,
    snd (cd_priv b) = snd (cd_priv a) ++ take n (tx_unsent (cd_xmit a))
    /\ tx_unsent (cd_xmit b) = drop n (tx_unsent (cd_xmit a)).
Proof.
  intros (Hp & Hs). unfold tx_stream in Hs.
  set (u := tx_unsent (cd_xmit a)) in *.
  set (u' := tx_unsent (cd_xmit b)) in *.
  assert (length u' <= length u)%nat as Hlen.
  { subst u u'. unfold tx_unsent. rewrite !ring_slice_length.
    destruct Hp as (_ & _ & _ & Hq & _). lia. }
  exists (length u - length u')%nat.
  rewrite <- (take_drop (length u - length u') u) in Hs at 1.
  rewrite app_assoc in Hs.
  apply app_inj_2 in Hs; [exact Hs |].
  rewrite length_drop. lia.
Qed.

(** X9: on a lower half that records the messages passed to its [dev_send],
    whatever else it does: [can_xmit], and [can_txdone] called for a message
    that was handed over, pass the messages that wait in the TX FIFO to
    [dev_send] oldest first, each once and none skipped; what they did not
    pass still waits, in the same order. *)
Theorem can_xmit_sends_oldest_first dev :
  tx_ordered (cd_xmit dev) ->
  (exists dev' r (n : nat),
     can_xmit (Ops := logged_ops Ops) dev = Some (dev', r)
     /\ snd (cd_priv dev')
        = snd (cd_priv dev) ++ take n (tx_unsent (cd_xmit dev))
     /\ tx_unsent (cd_xmit dev') = drop n (tx_unsent (cd_xmit dev)))
  /\ ((tx_head (cd_xmit dev) <> tx_tail (cd_xmit dev) ->
       tx_head (cd_xmit dev) <> tx_queue (cd_xmit dev)) ->
      exists dev' r (n : nat),
        can_txdone (Ops := logged_ops Ops) dev = Some (dev', r)
        /\ snd (cd_priv dev')
           = snd (cd_priv dev) ++ take n (tx_unsent (cd_xmit dev))
        /\ tx_unsent (cd_xmit dev') = drop n (tx_unsent (cd_xmit dev))).
Proof.
  intros Hord.
  assert (forall d h callback r,
            tx_ordered (cd_xmit d) ->
            tx_queue (cd_xmit d) <> tx_tail (cd_xmit d) ->
            let dev1 :=
              with_xmit (with_tx_queue (fifo_next (tx_queue (cd_xmit d)))
                                       (cd_xmit d)) d in
            dev_send (can_ops := logged_ops Ops) (cd_priv dev1)
              (msg_at (tx_buffer (cd_xmit dev1)) (tx_queue (cd_xmit d)))
            = (h, callback, r) ->
            tx_stream_kept d (with_priv h dev1)) as Hsend
    by (intros d h callback r; apply tx_stream_send).
  split.
  - destruct (can_xmit_post (Ops := logged_ops Ops) tx_stream_kept
                ltac:(intros a b HP; apply HP) tx_stream_refl tx_stream_trans
                Hsend tx_stream_txdone tx_stream_txint dev Hord)
      as (dev' & r & Hrun & HP).
    destruct (tx_stream_split _ _ HP) as (n & Hlog & Hrest).
    now exists dev', r, n.
  - intros Hassert.
    destruct (can_txdone_post (Ops := logged_ops Ops) tx_stream_kept
                ltac:(intros a b HP; apply HP) tx_stream_refl tx_stream_trans
                Hsend tx_stream_txdone tx_stream_txint dev Hord Hassert)
      as (dev' & r & Hrun & HP & _).
    destruct (tx_stream_split _ _ HP) as (n & Hlog & Hrest).
    now exists dev', r, n.
Qed.

End TxStream.

Section WriteStream.
Context `{Cfg : can_config} {H : Type} (Ops : can_ops H).
Implicit Type dev : can_dev_s (H * list can_msg_s).

Lemma can_xmit_stream_kept dev :
  tx_ordered (cd_xmit dev) ->
  exists dev' r,
    can_xmit (Ops := logged_ops Ops) dev = Some (dev', r)
    /\ tx_stream_kept dev dev'.
Proof.
  apply (can_xmit_post (Ops := logged_ops Ops) tx_stream_kept).
  - intros a b HP. apply HP.
  - apply tx_stream_refl.
  - apply tx_stream_trans.
  - intros d h callback r. apply tx_stream_send.
  - apply tx_stream_txdone.
  - apply tx_stream_txint.
Qed.

(** Storing a message at [tx_tail] and stepping the tail, where the FIFO is
    not full, appends it to the messages that wait. *)
Lemma tx_tail_append (f : can_txfifo_s) (slot : can_msg_s) :
  tx_ordered f -> length (tx_buffer f) = Z.to_nat CONFIG_CAN_FIFOSIZE ->
  fifo_next (tx_tail f) <> tx_head f ->
  tx_unsent
    (with_tx_tail (fifo_next (tx_tail f))
       (with_tx_buffer (<[Z.to_nat (tx_tail f) := slot]> (tx_buffer f)) f))
  = tx_unsent f ++ [slot].
Proof.
  intros Hord Hlen Hroom. unfold tx_unsent.
  cbn [tx_queue tx_tail tx_buffer with_tx_tail with_tx_buffer].
  assert (ring_dist (tx_queue f) (fifo_next (tx_tail f))
          = Z.succ (ring_dist (tx_queue f) (tx_tail f))
          /\ 0 <= ring_dist (tx_queue f) (tx_tail f))
    as [-> Hpos] by (revert Hroom; clear -Hord; intros Hroom; ring_solve).
  rewrite Z2Nat.inj_succ by exact Hpos.
  destruct Hord as (Hh & Hq & Ht & _).
  rewrite ring_slice_snoc, ring_slice_insert; [| exact Hq | exact Ht | lia].
  rewrite (ring_step_dist (tx_tail f)); [| exact Hq | exact Ht | lia].
  rewrite msg_at_insert_eq; [reflexivity |].
  unfold in_ring in Ht. lia.
Qed.

Section AnyMode.
Variable nonblock : bool.
Variable buffer : userbuf.
Variable buflen : Z.

(** What a stretch of [can_write] that copied [k] messages leaves: the
    stream with the [k] messages of the caller at its end, and the offset
    behind them as return value *)
Lemma can_write_loop_stream (fuel : nat) :
  forall (nsent : Z) (inactive : bool) dev,
    tx_ordered (cd_xmit dev) ->
    length (tx_buffer (cd_xmit dev)) = Z.to_nat CONFIG_CAN_FIFOSIZE ->
    CONFIG_CAN_FIFOSIZE - 1 - tx_pending (cd_xmit dev) < Z.of_nat fuel ->
    exists o (k : nat) slots,
      can_write_loop (Ops := logged_ops Ops) nonblock buffer buflen fuel
        nsent inactive dev = Some o
      /\ tx_stream (write_dev o) = tx_stream dev ++ slots
      /\ Forall2 holds_frame slots (user_frames buffer k nsent)
      /\ let off := nsent + frames_len (user_frames buffer k nsent) in
         match o with
         | WriteRet ret _ => ret = off \/ (off = 0 /\ ret = - EAGAIN)
         | WriteWait n _ _ => n = off
         end.
Proof.
  induction fuel as [| fuel IH]; intros nsent inactive dev Hord Hlen Hfuel.
  - exfalso.
    pose proof (ring_dist_bound (tx_head (cd_xmit dev))
                  (tx_tail (cd_xmit dev)) (tx_ordered_capacity _ Hord)).
    unfold tx_pending in Hfuel. lia.
  - assert (exists dev1 r1,
              (if inactive then can_xmit (Ops := logged_ops Ops) dev
               else Some (dev, OK)) = Some (dev1, r1)
              /\ tx_stream dev1 = tx_stream dev) as Hkick.
    { destruct inactive.
      - destruct (can_xmit_stream_kept dev Hord) as (d & r & Hrun & _ & Hs).
        now exists d, r.
      - now exists dev, OK. }
    destruct Hkick as (dev1 & r1 & Hkick & Hs1).
    cbn [can_write_loop].
    destruct (Z.leb_spec (CAN_MSGLEN 0) ((buflen - nsent) mod SIZE_MAX1))
      as [Hmore | Hdone].
    + unfold can_write_slot.
      destruct (Z.eqb_spec (fifo_next (tx_tail (cd_xmit dev)))
                  (tx_head (cd_xmit dev))) as [Hfull | Hroom].
      * destruct nonblock.
        -- eexists _, 0%nat, []. split; [reflexivity |].
           cbn [write_dev user_frames frames_len]. rewrite app_nil_r.
           split; [reflexivity |]. split; [constructor |].
           cbn zeta. rewrite Z.add_0_r.
           destruct (Z.eqb_spec nsent 0); [right; now split | now left].
        -- rewrite Hkick. eexists _, 0%nat, []. split; [reflexivity |].
           cbn [write_dev can_write_wait user_frames frames_len].
           rewrite app_nil_r. split; [exact Hs1 |].
           split; [constructor |]. cbn zeta. lia.
      * set (slot := copy_msg _ _ _).
        destruct (tx_tail_step (cd_xmit dev)
                    (<[Z.to_nat (tx_tail (cd_xmit dev)) := slot]>
                       (tx_buffer (cd_xmit dev))) Hord Hroom)
          as (Hord1 & Hpend1).
        pose proof (tx_tail_append (cd_xmit dev) slot Hord Hlen Hroom)
          as Happ.
        set (f1 := with_tx_tail _ _) in *.
        fold (frame_len (buffer nsent)).
        destruct (IH (nsent + frame_len (buffer nsent)) inactive
                    (with_xmit f1 dev))
          as (o & k & slots & Hrun & Hs & Hall & Hret).
        { exact Hord1. }
        { subst f1. cbn [cd_xmit with_xmit tx_buffer with_tx_tail
                         with_tx_buffer].
          now rewrite length_insert. }
        { cbn [cd_xmit with_xmit]. lia. }
        exists o, (S k), (slot :: slots). split; [exact Hrun |].
        split.
        { rewrite Hs. unfold tx_stream. cbn [cd_xmit with_xmit cd_priv].
          rewrite Happ, <- !app_assoc. reflexivity. }
        split.
        { cbn [user_frames]. constructor; [| exact Hall].
          eexists. reflexivity. }
        cbn [user_frames frames_len]. cbn zeta in *.
        rewrite Z.add_assoc. exact Hret.
    + rewrite Hkick. eexists _, 0%nat, []. split; [reflexivity |].
      cbn [write_dev user_frames frames_len]. rewrite app_nil_r.
      split; [exact Hs1 |]. split; [constructor |].
      cbn zeta. left. lia.
Qed.

End AnyMode.
End WriteStream.

Section WriteStreamTheorem.
Context `{Cfg : can_config} {H : Type} (Ops : can_ops H).
Implicit Type dev : can_dev_s (H * list can_msg_s).

(** X10: on a lower half that records what it is given to send, a call of
    [can_write], blocking or not, up to its return or its wait for room: some
    number [k] of the caller's messages, taken from the start of the buffer in
    their order, each with its header and data bytes, are appended behind
    everything that was sent or waits already, and nothing else is added to
    or removed from that sequence or reordered in it.  The call returns, or
    waits with, the length in bytes of those [k] messages (-EAGAIN when it
    returns with no byte copied for lack of room). *)
Theorem can_write_appends_in_order (nonblock : bool) (buffer : userbuf)
    (buflen : Z) dev :
  tx_ordered (cd_xmit dev) ->
  length (tx_buffer (cd_xmit dev)) = Z.to_nat CONFIG_CAN_FIFOSIZE ->
  exists o (k : nat) slots,
    can_write (Ops := logged_ops Ops) nonblock buffer buflen dev = Some o
    /\ tx_stream (write_dev o) = tx_stream dev ++ slots
    /\ Forall2 holds_frame slots (user_frames buffer k 0)
    /\ match o with
       | WriteRet ret _ =>
           ret = frames_len (user_frames buffer k 0)
           \/ (frames_len (user_frames buffer k 0) = 0 /\ ret = - EAGAIN)
       | WriteWait n _ _ => n = frames_len (user_frames buffer k 0)
       end.
Proof.
  intros Hord Hlen.
  destruct (can_write_loop_stream Ops nonblock buffer buflen write_fuel 0
              (dev_txempty (can_ops := logged_ops Ops) (cd_priv dev)) dev
              Hord Hlen)
    as (o & k & slots & Hrun & Hs & Hall & Hret).
  { pose proof (ring_dist_bound (tx_head (cd_xmit dev))
                  (tx_tail (cd_xmit dev)) (tx_ordered_capacity _ Hord)).
    unfold write_fuel, tx_pending. lia. }
  exists o, k, slots. split; [exact Hrun |]. split; [exact Hs |].
  split; [exact Hall |]. cbn zeta in Hret. rewrite Z.add_0_l in Hret.
  exact Hret.
Qed.

End WriteStreamTheorem.

(** X8 on the mailbox controller, one message in a mailbox and one waiting,
    a writer blocked: the completion frees a slot, hands the next message
    over and posts [tx_sem] once. *)
Lemma can_txdone_frees_and_posts_witness :
  exists dev',
    @can_txdone classic_can Z mailbox_ops sending_dev = Some (dev', OK)
    /\ @tx_pending classic_can (cd_xmit dev')
       < @tx_pending classic_can (cd_xmit sending_dev)
    /\ cd_recv dev' = cd_recv sending_dev.
Proof.
  destruct (@can_txdone_frees_and_posts classic_can Z mailbox_ops sending_dev)
    as (_ & Hdone).
  destruct Hdone as (dev' & Hrun & _ & Hless & _ & _ & _ & _ & Hrecv & _).
  - apply tx_orderedb_spec. reflexivity.
  - vm_compute. discriminate.
  - exists dev'. split; [exact Hrun |]. split; [exact Hless | exact Hrecv].
Defined.

(** X9 on the recording mailbox controller with two messages waiting: both
    are handed over, in the order of the FIFO. *)
Lemma can_xmit_sends_oldest_first_witness :
  exists dev' r (n : nat),
    @can_xmit classic_can _ (logged_ops mailbox_ops) logged_waiting_dev
    = Some (dev', r)
    /\ snd (cd_priv dev')
       = take n (@tx_unsent classic_can (cd_xmit logged_waiting_dev)).
Proof.
  destruct (@can_xmit_sends_oldest_first classic_can Z mailbox_ops
              logged_waiting_dev) as (Hxmit & _).
  - apply tx_orderedb_spec. reflexivity.
  - destruct Hxmit as (dev' & r & n & Hrun & Hlog & _).
    exists dev', r, n. split; [exact Hrun | exact Hlog].
Defined.

(** X10 for a blocking write of two messages of 7 bytes to the same
    device *)
Lemma can_write_appends_in_order_witness :
  exists o (k : nat) slots,
    @can_write classic_can _ (logged_ops mailbox_ops) false two_byte_frames
      14 logged_waiting_dev = Some o
    /\ @tx_stream classic_can Z (write_dev o)
       = @tx_stream classic_can Z logged_waiting_dev ++ slots
    /\ Forall2 (@holds_frame classic_can) slots
         (@user_frames classic_can two_byte_frames k 0).
Proof.
  destruct (@can_write_appends_in_order classic_can Z mailbox_ops false
              two_byte_frames 14 logged_waiting_dev)
    as (o & k & slots & Hrun & Hs & Hall & _).
  - apply tx_orderedb_spec. reflexivity.
  - reflexivity.
  - exists o, k, slots. split; [exact Hrun |]. split; [exact Hs | exact Hall].
Defined.

(** ** Open and close *)

Section Lifecycle.
Context `{Cfg : can_config} {H : Type} `{Ops : can_ops H}.
Implicit Type dev : can_dev_s H.

(** An open of a device that is open already only counts. *)
Lemma can_open_again dev :
  1 <= cd_ocount dev < 255 ->
  can_open SemOk dev = (with_ocount (cd_ocount dev + 1) dev, OK).
Proof.
  intros Hn. unfold can_open.
  cbn [cd_ocount with_closesem].
  rewrite (u8_small (cd_ocount dev + 1)) by lia.
  destruct (Z.eqb_spec (cd_ocount dev + 1) 0) as [Hz | _]; [lia |].
  destruct (Z.eqb_spec (cd_ocount dev + 1) 1) as [Hz | _]; [lia |].
  destruct dev. unfold with_ocount, with_closesem, sem_post, sem_take.
  cbn. f_equal. f_equal. lia.
Qed.

(** The open that would be the 256th is refused. *)
Lemma can_open_full dev :
  cd_ocount dev = 255 -> can_open SemOk dev = (dev, - EMFILE).
Proof.
  intros Hn. unfold can_open. cbn [cd_ocount with_closesem].
  rewrite Hn. change (u8 (255 + 1) =? 0) with true. cbv iota.
  destruct dev. unfold with_closesem, sem_post, sem_take.
  cbn. f_equal. f_equal. lia.
Qed.

(** The first open sets the hardware up and empties the FIFOs. *)
Lemma can_open_first dev :
  cd_ocount dev = 0 -> snd (dev_setup (cd_priv dev)) = OK ->
  let dev' := fst (can_open SemOk dev) in
  snd (can_open SemOk dev) = OK
  /\ cd_ocount dev' = 1
  /\ cd_priv dev' = dev_rxint (fst (dev_setup (cd_priv dev))) true
  /\ cd_closesem dev' = cd_closesem dev.
Proof.
  intros Hn Hsetup. unfold can_open. cbn [cd_ocount with_closesem cd_priv].
  rewrite Hn. change (u8 (0 + 1) =? 0) with false.
  change (u8 (0 + 1) =? 1) with true. cbv iota.
  destruct (dev_setup (cd_priv dev)) as [h ret]. cbn [snd fst] in *.
  subst ret. cbn. unfold sem_post, sem_take. repeat split. lia.
Qed.

End Lifecycle.

Section LifecycleTheorems.
Context `{Cfg : can_config} {H : Type} `{Ops : can_ops H}.
Implicit Type dev : can_dev_s H.

(** X11: on a device that is open, and not yet 255 times, [can_open]
    followed by [can_close] gives the device back as it was: both return OK,
    the count goes up by one and down again, and neither the hardware nor the
    FIFOs are touched. *)
Theorem can_open_close_round_trip dev :
  1 <= cd_ocount dev < 255 ->
  exists dev1,
    can_open SemOk dev = (dev1, OK)
    /\ cd_ocount dev1 = cd_ocount dev + 1
    /\ cd_priv dev1 = cd_priv dev
    /\ cd_xmit dev1 = cd_xmit dev /\ cd_recv dev1 = cd_recv dev
    /\ can_close SemOk dev1 = CloseRet OK dev.
Proof.
  intros Hn. exists (with_ocount (cd_ocount dev + 1) dev).
  split; [now apply can_open_again |].
  repeat (split; [reflexivity |]).
  unfold can_close. cbn [cd_ocount with_closesem with_ocount].
  destruct (Z.gtb_spec (cd_ocount dev + 1) 1) as [_ | Hno]; [| lia].
  rewrite u8_small by lia.
  destruct dev. unfold with_ocount, with_closesem, sem_post, sem_take.
  cbn in *. f_equal. f_equal; lia.
Qed.

(** X12: a device that is closed, and whose hardware sets up, can be opened
    255 times: each of these opens returns OK, the [k]-th leaves the count at
    [k], and only the first touches the hardware.  The next open returns
    -EMFILE and changes nothing. *)
Theorem can_open_at_most_255 dev :
  cd_ocount dev = 0 ->
  snd (dev_setup (cd_priv dev)) = OK ->
  (forall k : nat,
     (k < 255)%nat ->
     snd (can_open SemOk (can_open_times k dev)) = OK
     /\ cd_ocount (can_open_times (S k) dev) = Z.of_nat (S k)
     /\ cd_priv (can_open_times (S k) dev)
        = dev_rxint (fst (dev_setup (cd_priv dev))) true)
  /\ can_open SemOk (can_open_times 255 dev)
     = (can_open_times 255 dev, - EMFILE).
Proof.
  intros Hzero Hsetup.
  assert (forall k : nat,
            (k < 255)%nat ->
            snd (can_open SemOk (can_open_times k dev)) = OK
            /\ cd_ocount (can_open_times (S k) dev) = Z.of_nat (S k)
            /\ cd_priv (can_open_times (S k) dev)
               = dev_rxint (fst (dev_setup (cd_priv dev))) true) as Hall.
  { induction k as [| k IH]; intros Hk.
    - cbn [can_open_times].
      destruct (can_open_first dev Hzero Hsetup) as (Hret & Hcnt & Hpriv & _).
      split; [exact Hret |]. split; [exact Hcnt | exact Hpriv].
    - destruct IH as (_ & Hcnt & Hpriv); [lia |].
      change (can_open_times (S (S k)) dev)
        with (fst (can_open SemOk (can_open_times (S k) dev))).
      rewrite can_open_again by lia.
      cbn [fst snd cd_ocount cd_priv with_ocount].
      split; [reflexivity |]. split; [lia | exact Hpriv]. }
  split; [exact Hall |].
  apply can_open_full.
  destruct (Hall 254%nat) as (_ & Hcnt & _); [lia |]. exact Hcnt.
Qed.

(** X13: the close of the last reference.  [can_close] sets the count to 0
    and switches the RX interrupt off before anything else; it sleeps while
    the TX FIFO holds a message, then sleeps while the hardware is not empty,
    holding [cd_closesem] all the while so that no open gets through; it
    shuts the hardware down and returns OK only when both are empty, and then
    has released [cd_closesem]. *)
Theorem can_close_last_waits dev :
  cd_ocount dev <= 1 ->
  let h := dev_rxint (cd_priv dev) false in
  let held :=
    with_priv h (with_ocount 0
                   (with_closesem (cd_closesem dev - 1) dev)) in
  match can_close SemOk dev with
  | CloseSleepFifo dev' =>
      tx_head (cd_xmit dev) <> tx_tail (cd_xmit dev) /\ dev' = held
  | CloseSleepHw dev' =>
      tx_head (cd_xmit dev) = tx_tail (cd_xmit dev)
      /\ dev_txempty h = false /\ dev' = held
  | CloseRet ret dev' =>
      ret = OK
      /\ tx_head (cd_xmit dev) = tx_tail (cd_xmit dev)
      /\ dev_txempty h = true
      /\ dev' = with_priv (dev_shutdown h) (with_ocount 0 dev)
  end.
Proof.
  intros Hn h held. unfold can_close.
  cbn [cd_ocount with_closesem].
  destruct (Z.gtb_spec (cd_ocount dev) 1) as [Hgt | _]; [lia |].
  unfold can_close_drain.
  cbn [cd_xmit cd_priv with_priv with_ocount with_closesem].
  fold h.
  destruct (Z.eqb_spec (tx_head (cd_xmit dev)) (tx_tail (cd_xmit dev)))
    as [Hempty | Hmore]; cbn [negb].
  - unfold can_close_hw. cbn [cd_priv with_priv].
    destruct (dev_txempty h) eqn:Hhw; cbn [negb].
    + repeat (split; [reflexivity || assumption |]).
      destruct dev. unfold with_priv, with_ocount, with_closesem, sem_post,
        sem_take. cbn. f_equal. lia.
    + repeat (split; [reflexivity || assumption |]). reflexivity.
  - split; [exact Hmore | reflexivity].
Qed.

End LifecycleTheorems.

(** X11 on the device opened once *)
Lemma can_open_close_round_trip_witness :
  exists dev1,
    @can_open classic_can Z mailbox_ops SemOk opened_dev = (dev1, OK)
    /\ @can_close Z mailbox_ops SemOk dev1
       = CloseRet OK opened_dev.
Proof.
  destruct (@can_open_close_round_trip classic_can Z mailbox_ops opened_dev)
    as (dev1 & Hopen & _ & _ & _ & _ & Hclose).
  - vm_compute. split; [discriminate | reflexivity].
  - exists dev1. split; [exact Hopen | exact Hclose].
Defined.

(** X12 on the registered device: the third open *)
Lemma can_open_at_most_255_witness :
  cd_ocount (@can_open_times classic_can Z mailbox_ops 3 fresh_dev) = 3.
Proof.
  destruct (@can_open_at_most_255 classic_can Z mailbox_ops fresh_dev)
    as (Hall & _).
  - reflexivity.
  - reflexivity.
  - destruct (Hall 2%nat) as (_ & Hcnt & _); [lia | exact Hcnt].
Defined.

(** X13 on the device opened once, with nothing to send: the close returns
    at once and leaves the count at 0. *)
Lemma can_close_last_waits_witness :
  exists dev',
    @can_close Z mailbox_ops SemOk opened_dev = CloseRet OK dev'
    /\ cd_ocount dev' = 0.
Proof.
  pose proof (@can_close_last_waits Z mailbox_ops opened_dev)
    as Hlast.
  cbn zeta in Hlast.
  destruct (@can_close Z mailbox_ops SemOk opened_dev)
    as [ret dev' | dev' | dev'] eqn:Hrun.
  - destruct Hlast as (-> & _ & _ & ->); [vm_compute; discriminate |].
    eexists. split; reflexivity.
  - vm_compute in Hrun. discriminate Hrun.
  - vm_compute in Hrun. discriminate Hrun.
Defined.

Section WakeStream.
Context `{Cfg : can_config} {H : Type} (Ops : can_ops H).
Implicit Type dev : can_dev_s (H * list can_msg_s).

(** X14: a writer that resumes from its wait for room while [tx_tail] is
    where it left it (its [nexttail] is the step of [tx_tail]) goes on as
    [can_write] does: on the recording lower half, it appends the next
    messages of its buffer, from offset [nsent] on and in their order, behind
    everything that was sent or waits, and changes that sequence in no other
    way.  A wait that ends with an error appends nothing: it is entered again
    after EINTR, and any other error is returned, negated. *)
Theorem can_write_wake_appends_in_order (nonblock : bool) (buffer : userbuf)
    (buflen : Z) (res : sem_result) (nsent : Z) dev :
  tx_ordered (cd_xmit dev) ->
  length (tx_buffer (cd_xmit dev)) = Z.to_nat CONFIG_CAN_FIFOSIZE ->
  exists o (k : nat) slots,
    can_write_wake (Ops := logged_ops Ops) nonblock buffer buflen res nsent
      (fifo_next (tx_tail (cd_xmit dev))) dev = Some o
    /\ tx_stream (write_dev o) = tx_stream dev ++ slots
    /\ Forall2 holds_frame slots (user_frames buffer k nsent)
    /\ (forall errno, res = SemErr errno -> k = 0%nat)
    /\ let off := nsent + frames_len (user_frames buffer k nsent) in
       match o with
       | WriteRet ret _ =>
           match res with
           | SemOk => ret = off \/ (off = 0 /\ ret = - EAGAIN)
           | SemErr errno => ret = - errno /\ errno <> EINTR
           end
       | WriteWait n nexttail _ =>
           n = off /\ (res = SemOk \/ res = SemErr EINTR)
       end.
Proof.
  intros Hord Hlen. unfold can_write_wake.
  destruct res as [| errno].
  - set (dev2 := with_xmit _ (with_ntxwaiters _ dev)).
    assert (tx_stream dev2 = tx_stream dev) as Hs2 by reflexivity.
    assert (tx_ordered (cd_xmit dev2)) as Hord2 by exact Hord.
    assert (length (tx_buffer (cd_xmit dev2))
            = Z.to_nat CONFIG_CAN_FIFOSIZE) as Hlen2 by exact Hlen.
    change (fifo_next (tx_tail (cd_xmit dev)))
      with (fifo_next (tx_tail (cd_xmit dev2))).
    rewrite <- Hs2.
    generalize (dev_txempty (can_ops := logged_ops Ops) (cd_priv dev2)).
    intros inactive. clearbody dev2. clear Hs2 Hord Hlen dev.
    assert (exists dev1 r1,
              (if inactive then can_xmit (Ops := logged_ops Ops) dev2
               else Some (dev2, OK)) = Some (dev1, r1)
              /\ tx_stream dev1 = tx_stream dev2) as Hkick.
    { destruct inactive.
      - destruct (can_xmit_stream_kept Ops dev2 Hord2)
          as (d & r & Hrun & _ & Hs).
        now exists d, r.
      - now exists dev2, OK. }
    destruct Hkick as (dev1 & r1 & Hkick & Hs1).
    unfold can_write_slot.
    destruct (Z.eqb_spec (fifo_next (tx_tail (cd_xmit dev2)))
                (tx_head (cd_xmit dev2))) as [Hfull | Hroom].
    + destruct nonblock.
      * eexists _, 0%nat, []. split; [reflexivity |].
        cbn [write_dev user_frames frames_len]. rewrite app_nil_r.
        split; [reflexivity |]. split; [constructor |].
        split; [intros e He; discriminate He |].
        cbn zeta. rewrite Z.add_0_r.
        destruct (Z.eqb_spec nsent 0); [right; now split | now left].
      * rewrite Hkick. eexists _, 0%nat, []. split; [reflexivity |].
        cbn [write_dev can_write_wait user_frames frames_len].
        rewrite app_nil_r. split; [exact Hs1 |].
        split; [constructor |].
        split; [intros e He; discriminate He |].
        cbn zeta. split; [lia | now left].
    + set (slot := copy_msg _ _ _).
      destruct (tx_tail_step (cd_xmit dev2)
                  (<[Z.to_nat (tx_tail (cd_xmit dev2)) := slot]>
                     (tx_buffer (cd_xmit dev2))) Hord2 Hroom)
        as (Hord3 & Hpend3).
      pose proof (tx_tail_append (cd_xmit dev2) slot Hord2 Hlen2 Hroom)
        as Happ.
      set (f1 := with_tx_tail _ _) in *.
      fold (frame_len (buffer nsent)).
      destruct (can_write_loop_stream Ops nonblock buffer buflen write_fuel
                  (nsent + frame_len (buffer nsent)) inactive
                  (with_xmit f1 dev2))
        as (o & k & slots & Hrun & Hs & Hall & Hret).
      { exact Hord3. }
      { subst f1. cbn [cd_xmit with_xmit tx_buffer with_tx_tail
                       with_tx_buffer].
        now rewrite length_insert. }
      { cbn [cd_xmit with_xmit].
        pose proof (ring_dist_bound (tx_head (cd_xmit dev2))
                      (tx_tail (cd_xmit dev2))
                      (tx_ordered_capacity _ Hord2)).
        unfold write_fuel, tx_pending in *. lia. }
      exists o, (S k), (slot :: slots). split; [exact Hrun |].
      split.
      { rewrite Hs. unfold tx_stream. cbn [cd_xmit with_xmit cd_priv].
        rewrite Happ, <- !app_assoc. reflexivity. }
      split.
      { cbn [user_frames]. constructor; [| exact Hall].
        eexists. reflexivity. }
      split; [intros e He; discriminate He |].
      cbn [user_frames frames_len]. cbn zeta in *.
      rewrite Z.add_assoc.
      destruct o as [ret d | n nt d]; [exact Hret |].
      split; [exact Hret | now left].
  - destruct (Z.eqb_spec errno EINTR) as [-> | Hother].
    + eexists _, 0%nat, []. split; [reflexivity |].
      cbn [write_dev can_write_wait user_frames frames_len].
      rewrite app_nil_r. split; [reflexivity |]. split; [constructor |].
      split; [reflexivity |]. cbn zeta. split; [lia | now right].
    + eexists _, 0%nat, []. split; [reflexivity |].
      cbn [write_dev user_frames frames_len].
      rewrite app_nil_r. split; [reflexivity |]. split; [constructor |].
      split; [reflexivity |]. cbn zeta. now split.
Qed.

End WakeStream.

(** X14 on the recording mailbox controller: a writer that waited with one
    message of 7 bytes still to copy resumes and copies it. *)
Lemma can_write_wake_appends_in_order_witness :
  exists o (k : nat) slots,
    @can_write_wake classic_can _ (logged_ops mailbox_ops) false
      two_byte_frames 14 SemOk 7 3 logged_waiting_dev = Some o
    /\ @tx_stream classic_can Z (write_dev o)
       = @tx_stream classic_can Z logged_waiting_dev ++ slots
    /\ Forall2 (@holds_frame classic_can) slots
         (@user_frames classic_can two_byte_frames k 7).
Proof.
  destruct (@can_write_wake_appends_in_order classic_can Z mailbox_ops false
              two_byte_frames 14 SemOk 7 logged_waiting_dev)
    as (o & k & slots & Hrun & Hs & Hall & _).
  - apply tx_orderedb_spec. reflexivity.
  - reflexivity.
  - exists o, k, slots. split; [exact Hrun |]. split; [exact Hs | exact Hall].
Defined.

(** ** The DLC codec on every code *)

Section CodecOrder.
Context `{Cfg : can_config}.

Lemma can_dlc2bytes_cases (dlc : Z) :
  0 <= dlc ->
  (dlc <= 8 /\ can_dlc2bytes dlc = dlc)
  \/ (8 < dlc /\ CONFIG_CAN_FD = false /\ can_dlc2bytes dlc = 8)
  \/ (CONFIG_CAN_FD = true
      /\ ((dlc = 9 /\ can_dlc2bytes dlc = 12)
          \/ (dlc = 10 /\ can_dlc2bytes dlc = 16)
          \/ (dlc = 11 /\ can_dlc2bytes dlc = 20)
          \/ (dlc = 12 /\ can_dlc2bytes dlc = 24)
          \/ (dlc = 13 /\ can_dlc2bytes dlc = 32)
          \/ (dlc = 14 /\ can_dlc2bytes dlc = 48)
          \/ (15 <= dlc /\ can_dlc2bytes dlc = 64))).
Proof.
  intros Hpos. unfold can_dlc2bytes.
  destruct (Z.ltb_spec 8 dlc) as [Hbig | Hsmall]; [| left; lia].
  right. destruct CONFIG_CAN_FD; [right | left; repeat split; lia].
  split; [reflexivity |].
  destruct dlc as [| p | p]; try lia.
  do 4 (try destruct p as [p | p |]); try lia;
    try (repeat (first [left; split; [reflexivity | reflexivity] | right]);
         split; [lia | reflexivity]).
Qed.

(** X15: [can_dlc2bytes] on every code, in range or not: the length is never
    negative and never more than 64 bytes with CAN FD and 8 without, so that a
    copy of that many bytes stays inside [cm_data]; and a larger code never
    gives a shorter length. *)
Theorem can_dlc2bytes_bounded_monotone (dlc dlc' : Z) :
  0 <= dlc <= dlc' ->
  0 <= can_dlc2bytes dlc
  /\ can_dlc2bytes dlc <= can_dlc2bytes dlc'
  /\ can_dlc2bytes dlc' <= (if CONFIG_CAN_FD then 64 else 8).
Proof.
  intros Hr.
  destruct (can_dlc2bytes_cases dlc) as [Hc | [Hc | [Hfd Hc]]]; [lia | | |];
    (destruct (can_dlc2bytes_cases dlc') as [Hc' | [Hc' | [Hfd' Hc']]];
     [lia | | |]);
    destruct CONFIG_CAN_FD; try discriminate; try lia;
    repeat match goal with
           | Hx : _ \/ _ |- _ => destruct Hx
           end; lia.
Qed.

(** X16: [can_bytes2dlc] picks the smallest code that is large enough.  For a
    length [n] that a message can have (up to 64 bytes with CAN FD, up to 8
    without) the code returned lies in 0..15, its length is at least [n], and
    no smaller code has a length of at least [n]. *)
Theorem can_bytes2dlc_smallest (n : Z) :
  0 <= n <= (if CONFIG_CAN_FD then 64 else 8) ->
  0 <= can_bytes2dlc n <= 15
  /\ n <= can_dlc2bytes (can_bytes2dlc n)
  /\ (forall dlc, 0 <= dlc -> n <= can_dlc2bytes dlc ->
                  can_bytes2dlc n <= dlc).
Proof.
  intros Hn.
  assert (forall dlc, 0 <= dlc -> n <= can_dlc2bytes dlc ->
                      can_bytes2dlc n <= dlc) as Hmin.
  { intros dlc Hpos Hge. unfold can_bytes2dlc.
    destruct (can_dlc2bytes_cases dlc Hpos) as [Hc | [Hc | [Hfd Hc]]].
    - destruct (Z.leb_spec n 8); [lia |].
      destruct CONFIG_CAN_FD; lia.
    - destruct Hc as (Hbig & Hfd & Hval). rewrite Hfd in *.
      destruct (Z.leb_spec n 8); lia.
    - rewrite Hfd in *.
      repeat match goal with
             | |- context [?a <=? ?b] => destruct (Z.leb_spec a b)
             end;
        repeat match goal with
               | Hx : _ \/ _ |- _ => destruct Hx
               end; lia. }
  split; [| split; [| exact Hmin]].
  - unfold can_bytes2dlc.
    repeat match goal with
           | |- context [?a <=? ?b] => destruct (Z.leb_spec a b)
           end; destruct CONFIG_CAN_FD; lia.
  - unfold can_bytes2dlc.
    repeat match goal with
           | |- context [?a <=? ?b] => destruct (Z.leb_spec a b)
           end;
      destruct CONFIG_CAN_FD eqn:Hfd;
      try (rewrite can_dlc2bytes_small by lia; lia);
      try lia;
      unfold can_dlc2bytes; rewrite Hfd; cbn; lia.
Qed.

End CodecOrder.

(** X15 at the codes 13 and 200 with CAN FD *)
Lemma can_dlc2bytes_bounded_monotone_witness :
  @can_dlc2bytes canfd_can 13 <= @can_dlc2bytes canfd_can 200
  /\ @can_dlc2bytes canfd_can 200 <= 64.
Proof.
  destruct (@can_dlc2bytes_bounded_monotone canfd_can 13 200) as (_ & Hm & Hb);
    [lia |].
  split; [exact Hm | exact Hb].
Defined.

(** X16 at 17 bytes with CAN FD: code 11, for 20 bytes *)
Lemma can_bytes2dlc_smallest_witness :
  17 <= @can_dlc2bytes canfd_can (@can_bytes2dlc canfd_can 17)
  /\ @can_bytes2dlc canfd_can 17 <= 11.
Proof.
  destruct (@can_bytes2dlc_smallest canfd_can 17) as (_ & Hge & Hmin).
  - cbn. lia.
  - split; [exact Hge |]. apply Hmin; [lia |]. cbn. lia.
Defined.

(** ** A lower half that completes each message inside [dev_send] *)

Section SyncLowerHalf.
Context `{Cfg : can_config} {H : Type} `{Ops : can_ops H}.
Implicit Type dev : can_dev_s H.

(** The lower half has a hardware FIFO that takes whatever it is given:
    [dev_send] succeeds and calls [can_txdone] before it returns, and
    [dev_txready] holds. *)
Hypothesis Hsend : forall h m, exists h', dev_send h m = (h', true, OK).
Hypothesis Hready : forall h, dev_txready h = true.

Lemma tx_drained_ordered (t : Z) (f : can_txfifo_s) :
  in_ring t -> tx_drained t f -> tx_ordered f.
Proof.
  intros Ht (Hh & Hq & Htl). unfold tx_ordered. rewrite Hh, Hq, Htl.
  repeat split; try apply Ht. lia.
Qed.

Lemma can_xmit_loop_drains (fuel : nat) :
  forall dev ret,
    tx_ordered (cd_xmit dev) ->
    tx_head (cd_xmit dev) = tx_queue (cd_xmit dev) ->
    ring_dist (tx_queue (cd_xmit dev)) (tx_tail (cd_xmit dev))
    < Z.of_nat fuel ->
    exists dev' r,
      can_xmit_loop fuel dev ret = Some (dev', r)
      /\ tx_drained (tx_tail (cd_xmit dev)) (cd_xmit dev')
      /\ (tx_queue (cd_xmit dev) <> tx_tail (cd_xmit dev) -> r = OK)
      /\ (tx_queue (cd_xmit dev) = tx_tail (cd_xmit dev) -> r = ret).
Proof.
  induction fuel as [| fuel IH]; intros dev ret Hord Hhq Hn.
  - exfalso.
    pose proof (ring_dist_bound (tx_queue (cd_xmit dev))
                  (tx_tail (cd_xmit dev)) (tx_ordered_capacity _ Hord)).
    lia.
  - cbn [can_xmit_loop]. rewrite Hready, andb_true_r.
    destruct (Z.eqb_spec (tx_queue (cd_xmit dev)) (tx_tail (cd_xmit dev)))
      as [Hdone | Hne]; cbn [negb].
    { do 2 eexists. split; [reflexivity |].
      split; [now repeat split; try (rewrite Hhq) |].
      split; [intros Hno; contradiction | reflexivity]. }
    destruct (tx_queue_step (cd_xmit dev) Hord Hne)
      as (Hord1 & Hhq1 & Hht1 & Hq1).
    set (dev1 := with_xmit _ dev) in *.
    destruct (Hsend (cd_priv dev1)
                (msg_at (tx_buffer (cd_xmit dev1)) (tx_queue (cd_xmit dev))))
      as (h' & ->).
    set (dev2 := with_priv h' dev1).
    assert (in_ring (tx_tail (cd_xmit dev))) as Htail by apply Hord.
    assert (1 <= Z.of_nat fuel) as Hfuel.
    { match type of Hq1 with
      | ring_dist ?a ?b = _ =>
          pose proof (ring_dist_bound a b (tx_ordered_capacity _ Hord1))
      end.
      lia. }
    assert (exists dev3 r3,
              can_txdone_with (can_xmit_with (can_xmit_loop fuel)) dev2
              = Some (dev3, r3)
              /\ tx_drained (tx_tail (cd_xmit dev)) (cd_xmit dev3)) as Hcb.
    { unfold can_txdone_with, tx_empty.
      change (cd_xmit dev2) with (cd_xmit dev1).
      destruct (Z.eqb_spec (tx_head (cd_xmit dev1)) (tx_tail (cd_xmit dev1)))
        as [Heq | _]; [contradiction |].
      destruct (tx_head_step (cd_xmit dev1) Hord1 Hhq1) as (Hord2 & Hq2 & _).
      set (dev2' := with_xmit _ dev2) in *.
      assert (tx_head (cd_xmit dev2') = tx_queue (cd_xmit dev2')) as Hhq2
        by (subst dev2' dev2 dev1;
            cbn [cd_xmit with_xmit with_priv tx_head tx_queue with_tx_head
                 with_tx_queue]; now rewrite Hhq).
      assert (tx_tail (cd_xmit dev2') = tx_tail (cd_xmit dev)) as Ht2
        by reflexivity.
      assert (exists dev2'' r2,
                can_xmit_with (can_xmit_loop fuel) dev2' = Some (dev2'', r2)
                /\ tx_drained (tx_tail (cd_xmit dev)) (cd_xmit dev2''))
        as Hx.
      { unfold can_xmit_with, tx_empty.
        destruct (Z.eqb_spec (tx_head (cd_xmit dev2'))
                    (tx_tail (cd_xmit dev2'))) as [Hempty | Hmore].
        - do 2 eexists. split; [reflexivity |].
          destruct CONFIG_CAN_TXREADY; cbn [cd_xmit with_priv];
            (repeat split; congruence).
        - destruct (IH dev2' (- EBUSY)) as (d & r & -> & Hdr & _).
          + exact Hord2.
          + exact Hhq2.
          + clear -Hq2 Hq1 Hn. subst dev2' dev2 dev1.
            cbn [cd_xmit with_xmit with_priv] in *. lia.
          + do 2 eexists. split; [reflexivity |].
            cbn [cd_xmit with_priv]. rewrite <- Ht2. exact Hdr. }
      destruct Hx as (dev2'' & r2 & -> & Hdr).
      destruct (cd_ntxwaiters dev2'' >? 0);
        do 2 eexists; (split; [reflexivity | exact Hdr]). }
    destruct Hcb as (dev3 & r3 & -> & Hdr3).
    change (OK =? OK) with true. cbv iota.
    destruct (IH dev3 OK) as (dev4 & r4 & Hrun & Hdr4 & _ & Hr4).
    + now apply (tx_drained_ordered (tx_tail (cd_xmit dev))).
    + destruct Hdr3 as (-> & -> & _). reflexivity.
    + destruct Hdr3 as (_ & -> & ->).
      unfold ring_dist. rewrite Z.sub_diag, Zmod_0_l. lia.
    + exists dev4, r4. split; [exact Hrun |].
      destruct Hdr3 as (Hh3 & Hq3 & Ht3). rewrite Ht3 in Hdr4.
      split; [exact Hdr4 |].
      split; [intros _; apply Hr4; congruence | intros Heq; contradiction].
Qed.

End SyncLowerHalf.

Section WriteFills.
Context `{Cfg : can_config} {H : Type} `{Ops : can_ops H}.
Implicit Type dev : can_dev_s H.

Variable buffer : userbuf.
Variable buflen : Z.

Lemma with_xmit_same dev : with_xmit (cd_xmit dev) dev = dev.
Proof. destruct dev. reflexivity. Qed.

(** [k] messages appended where there is room for them *)
Lemma enqueue_frames_indices (k : nat) :
  forall (off : Z) (f : can_txfifo_s),
    tx_ordered f ->
    Z.of_nat k <= CONFIG_CAN_FIFOSIZE - 1 - tx_pending f ->
    let f' := snd (enqueue_frames buffer k off f) in
    tx_ordered f' /\ tx_head f' = tx_head f /\ tx_queue f' = tx_queue f
    /\ tx_sem f' = tx_sem f
    /\ tx_pending f' = tx_pending f + Z.of_nat k.
Proof.
  induction k as [| k IH]; intros off f Hord Hk.
  - cbn. repeat split; try apply Hord; lia.
  - cbn [enqueue_frames].
    set (slot := copy_msg _ _ _).
    assert (fifo_next (tx_tail f) <> tx_head f) as Hroom.
    { intros Hfull. apply (tx_pending_full f Hord) in Hfull. lia. }
    destruct (tx_tail_step f (<[Z.to_nat (tx_tail f) := slot]> (tx_buffer f))
                Hord Hroom) as (Hord1 & Hpend1).
    set (f1 := with_tx_tail _ _) in *.
    destruct (IH (off + CAN_MSGLEN
                          (can_dlc2bytes (ch_dlc (cm_hdr (buffer off))))) f1)
      as (Hord' & Hh & Hq & Hs & Hp).
    { exact Hord1. }
    { lia. }
    cbn zeta. split; [exact Hord' |].
    split; [rewrite Hh; reflexivity |]. split; [rewrite Hq; reflexivity |].
    split; [rewrite Hs; reflexivity |]. lia.
Qed.

(** A blocking [can_write] whose buffer holds more messages than the TX
    FIFO has room for fills the FIFO, starts the transmission if the hardware
    was idle, and waits. *)
Lemma can_write_loop_fills (k : nat) :
  forall (fuel : nat) (nsent : Z) (inactive : bool) dev,
    tx_ordered (cd_xmit dev) ->
    Z.of_nat k = CONFIG_CAN_FIFOSIZE - 1 - tx_pending (cd_xmit dev) ->
    (k < fuel)%nat ->
    (forall j : nat,
       (j <= k)%nat ->
       CAN_MSGLEN 0
       <= (buflen - fst (enqueue_frames buffer j nsent (cd_xmit dev)))
          mod SIZE_MAX1) ->
    let full := enqueue_frames buffer k nsent (cd_xmit dev) in
    can_write_loop false buffer buflen fuel nsent inactive dev
    = match (if inactive then can_xmit (with_xmit (snd full) dev)
             else Some (with_xmit (snd full) dev, OK)) with
      | Some (dev1, _) =>
          Some (can_write_wait (fst full) (fifo_next (tx_tail (snd full)))
                  dev1)
      | None => None
      end.
Proof.
  induction k as [| k IH]; intros fuel nsent inactive dev Hord Hk Hfuel Hbuf;
    (destruct fuel as [| fuel]; [lia |]); cbn [can_write_loop].
  - pose proof (Hbuf 0%nat ltac:(lia)) as H0. cbn in H0.
    destruct (Z.leb_spec (CAN_MSGLEN 0) ((buflen - nsent) mod SIZE_MAX1))
      as [_ | Hno]; [| unfold CAN_MSGLEN in *; lia].
    unfold can_write_slot.
    assert (fifo_next (tx_tail (cd_xmit dev)) = tx_head (cd_xmit dev))
      as Hfull by (apply (tx_pending_full _ Hord); lia).
    rewrite Hfull, Z.eqb_refl.
    cbn [enqueue_frames fst snd]. rewrite with_xmit_same, Hfull.
    reflexivity.
  - pose proof (Hbuf 0%nat ltac:(lia)) as H0. cbn in H0.
    destruct (Z.leb_spec (CAN_MSGLEN 0) ((buflen - nsent) mod SIZE_MAX1))
      as [_ | Hno]; [| unfold CAN_MSGLEN in *; lia].
    unfold can_write_slot.
    destruct (Z.eqb_spec (fifo_next (tx_tail (cd_xmit dev)))
                (tx_head (cd_xmit dev))) as [Hfull | Hroom].
    { apply (tx_pending_full _ Hord) in Hfull. lia. }
    set (slot := copy_msg _ _ _).
    destruct (tx_tail_step (cd_xmit dev)
                (<[Z.to_nat (tx_tail (cd_xmit dev)) := slot]>
                   (tx_buffer (cd_xmit dev))) Hord Hroom)
      as (Hord1 & Hpend1).
    set (f1 := with_tx_tail _ _) in *.
    rewrite (IH fuel _ inactive (with_xmit f1 dev)).
    + reflexivity.
    + exact Hord1.
    + cbn [cd_xmit with_xmit]. lia.
    + lia.
    + intros j Hj. exact (Hbuf (S j) ltac:(lia)).
Qed.

End WriteFills.

Section SyncTheorems.
Context `{Cfg : can_config} {H : Type} `{Ops : can_ops H}.
Implicit Type dev : can_dev_s H.

Lemma can_xmit_drains dev :
  (forall h m, exists h', dev_send h m = (h', true, OK)) ->
  (forall h, dev_txready h = true) ->
  tx_ordered (cd_xmit dev) ->
  tx_head (cd_xmit dev) = tx_queue (cd_xmit dev) ->
  exists dev' r,
    can_xmit dev = Some (dev', r)
    /\ tx_drained (tx_tail (cd_xmit dev)) (cd_xmit dev')
    /\ (tx_head (cd_xmit dev) <> tx_tail (cd_xmit dev) -> r = OK)
    /\ (tx_head (cd_xmit dev) = tx_tail (cd_xmit dev) -> r = - EIO).
Proof.
  intros Hsend Hready Hord Hhq.
  unfold can_xmit, can_xmit_fuel, can_xmit_with, tx_empty.
  destruct (Z.eqb_spec (tx_head (cd_xmit dev)) (tx_tail (cd_xmit dev)))
    as [Hempty | Hmore].
  - do 2 eexists. split; [reflexivity |].
    split; [| split; [intros Hno; contradiction | reflexivity]].
    destruct CONFIG_CAN_TXREADY; cbn [cd_xmit with_priv];
      repeat split; congruence.
  - destruct (can_xmit_loop_drains Hsend Hready xmit_fuel dev (- EBUSY)
                Hord Hhq (xmit_fuel_enough dev Hord))
      as (dev' & r & -> & Hdr & Hr & _).
    do 2 eexists. split; [reflexivity |].
    split; [exact Hdr |].
    split; [intros _; apply Hr; congruence | intros Heq; contradiction].
Qed.

(** X17: on a lower half that takes every message and calls [can_txdone]
    before its [dev_send] returns, [can_xmit] empties the TX FIFO: from a
    state with nothing handed over and not completed, it returns with
    [tx_head = tx_queue = tx_tail], the tail where it was; it returns OK if
    there was a message and -EIO if there was none.  [tx_sem] has been posted
    once for every message if a writer waits and not at all otherwise. *)
Theorem can_xmit_drains_on_callback dev :
  (forall h m, exists h', dev_send h m = (h', true, OK)) ->
  (forall h, dev_txready h = true) ->
  tx_ordered (cd_xmit dev) ->
  tx_head (cd_xmit dev) = tx_queue (cd_xmit dev) ->
  exists dev' r,
    can_xmit dev = Some (dev', r)
    /\ tx_drained (tx_tail (cd_xmit dev)) (cd_xmit dev')
    /\ tx_buffer (cd_xmit dev') = tx_buffer (cd_xmit dev)
    /\ (tx_head (cd_xmit dev) <> tx_tail (cd_xmit dev) -> r = OK)
    /\ (tx_head (cd_xmit dev) = tx_tail (cd_xmit dev) -> r = - EIO)
    /\ cd_ntxwaiters dev' = cd_ntxwaiters dev
    /\ tx_sem (cd_xmit dev')
       = tx_sem (cd_xmit dev)
         + (if cd_ntxwaiters dev >? 0 then tx_pending (cd_xmit dev) else 0).
Proof.
  intros Hsend Hready Hord Hhq.
  destruct (can_xmit_drains dev Hsend Hready Hord Hhq)
    as (dev' & r & Hrun & Hdr & Hok & Hio).
  destruct (can_xmit_effect dev Hord) as (dev'' & r'' & Hrun' & Heff).
  rewrite Hrun in Hrun'. injection Hrun' as <- <-.
  destruct Heff as ((_ & _ & Hb & _) & Hw & Hs & _).
  exists dev', r. split; [exact Hrun |]. split; [exact Hdr |].
  split; [exact Hb |]. split; [exact Hok |]. split; [exact Hio |].
  split; [exact Hw |]. rewrite Hs.
  assert (tx_pending (cd_xmit dev') = 0) as ->.
  { destruct Hdr as (Hh & _ & Ht). unfold tx_pending, ring_dist.
    rewrite Hh, Ht, Z.sub_diag. apply Zmod_0_l. }
  destruct (cd_ntxwaiters dev >? 0); lia.
Qed.

(** X18: on such a lower half, idle, with nothing pending and no writer
    waiting: a blocking [can_write] whose buffer holds more messages than the
    TX FIFO has free slots fills the FIFO, has [can_xmit] send everything,
    and then waits on [tx_sem] all the same.  At that wait the TX FIFO is
    empty, [tx_sem] has not been posted since the call began, and neither
    [can_txdone] nor [can_txready] nor [can_txready_work] does anything in
    that state: they leave the device as it is. *)
Theorem blocking_write_waits_on_empty_fifo (buffer : userbuf) (buflen : Z)
    (k : nat) dev :
  (forall h m, exists h', dev_send h m = (h', true, OK)) ->
  (forall h, dev_txready h = true) ->
  dev_txempty (cd_priv dev) = true ->
  tx_ordered (cd_xmit dev) ->
  tx_head (cd_xmit dev) = tx_queue (cd_xmit dev) ->
  cd_ntxwaiters dev = 0 ->
  Z.of_nat k = CONFIG_CAN_FIFOSIZE - 1 - tx_pending (cd_xmit dev) ->
  (forall j : nat,
     (j <= k)%nat ->
     CAN_MSGLEN 0
     <= (buflen - fst (enqueue_frames buffer j 0 (cd_xmit dev)))
        mod SIZE_MAX1) ->
  exists nsent nexttail dev',
    can_write false buffer buflen dev = Some (WriteWait nsent nexttail dev')
    /\ nsent = fst (enqueue_frames buffer k 0 (cd_xmit dev))
    /\ tx_head (cd_xmit dev') = tx_tail (cd_xmit dev')
    /\ tx_queue (cd_xmit dev') = tx_tail (cd_xmit dev')
    /\ cd_ntxwaiters dev' = 1
    /\ tx_sem (cd_xmit dev') = tx_sem (cd_xmit dev)
    /\ can_txdone dev' = Some (dev', - ENOENT)
    /\ can_txready dev' = (dev', - ENOENT)
    /\ can_txready_work dev' = Some dev'.
Proof.
  intros Hsend Hready Hidle Hord Hhq Hnow Hk Hbuf.
  unfold can_write. rewrite Hidle.
  rewrite (can_write_loop_fills buffer buflen k write_fuel 0 true dev
             Hord Hk); [| | exact Hbuf].
  2: { pose proof (ring_dist_bound (tx_head (cd_xmit dev))
                     (tx_tail (cd_xmit dev)) (tx_ordered_capacity _ Hord)).
       unfold write_fuel, tx_pending in *. lia. }
  destruct (enqueue_frames_indices buffer k 0 (cd_xmit dev) Hord)
    as (Hordf & Hhf & Hqf & Hsf & _); [lia |].
  set (full := enqueue_frames buffer k 0 (cd_xmit dev)) in *.
  set (devf := with_xmit (snd full) dev).
  assert (tx_head (cd_xmit devf) = tx_queue (cd_xmit devf)) as Hhqf
    by (subst devf; cbn [cd_xmit with_xmit] in *; congruence).
  destruct (can_xmit_drains devf Hsend Hready Hordf Hhqf)
    as (dev1 & r & Hrun & (Hh1 & Hq1 & Ht1) & _).
  destruct (can_xmit_effect devf Hordf) as (dev1' & r' & Hrun' & Heff).
  rewrite Hrun in Hrun'. injection Hrun' as <- <-.
  destruct Heff as (_ & Hw & Hs & _).
  cbn iota. rewrite Hrun. unfold can_write_wait.
  set (devw := with_ntxwaiters (u8 (cd_ntxwaiters dev1 + 1)) dev1).
  assert (tx_head (cd_xmit devw) = tx_tail (cd_xmit devw)) as Hempty
    by (subst devw; cbn [cd_xmit with_ntxwaiters]; congruence).
  exists (fst full), (fifo_next (tx_tail (snd full))), devw.
  split; [reflexivity |]. split; [reflexivity |].
  split; [exact Hempty |].
  split; [subst devw; cbn [cd_xmit with_ntxwaiters]; congruence |].
  split.
  { subst devw devf. cbn [cd_ntxwaiters with_ntxwaiters with_xmit] in *.
    rewrite Hw, Hnow. reflexivity. }
  split.
  { subst devw devf.
    cbn [cd_xmit cd_ntxwaiters with_ntxwaiters with_xmit] in *.
    rewrite Hs, Hnow, Hsf. change (0 >? 0) with false. cbv iota. lia. }
  split.
  { unfold can_txdone, can_txdone_fuel, can_txdone_with, tx_empty.
    rewrite Hempty, Z.eqb_refl. reflexivity. }
  split.
  { unfold can_txready, tx_empty. rewrite Hempty, Z.eqb_refl. reflexivity. }
  unfold can_txready_work, tx_empty. rewrite Hempty, Z.eqb_refl. reflexivity.
Qed.

End SyncTheorems.

(** X17 on the controller with a hardware FIFO, three messages waiting *)
Lemma can_xmit_drains_on_callback_witness :
  exists dev',
    @can_xmit canfd_can unit hwfifo_ops hwfifo_loaded_dev = Some (dev', OK)
    /\ @tx_drained 3 (cd_xmit dev').
Proof.
  destruct (@can_xmit_drains_on_callback canfd_can unit hwfifo_ops
              hwfifo_loaded_dev)
    as (dev' & r & Hrun & Hdr & _ & Hok & _).
  - intros h m. exists h. reflexivity.
  - reflexivity.
  - apply tx_orderedb_spec. reflexivity.
  - reflexivity.
  - exists dev'. rewrite (Hok ltac:(vm_compute; discriminate)) in Hrun.
    split; [exact Hrun | exact Hdr].
Defined.

(** X18 on the same controller, just opened, with a FIFO of 8 entries: a
    blocking write of 8 messages of 5 bytes copies 7 of them, sends them, and
    waits. *)
Lemma blocking_write_waits_on_empty_fifo_witness :
  exists nexttail dev',
    @can_write canfd_can unit hwfifo_ops false empty_frames 40 hwfifo_dev
    = Some (WriteWait 35 nexttail dev')
    /\ tx_head (cd_xmit dev') = tx_tail (cd_xmit dev').
Proof.
  destruct (@blocking_write_waits_on_empty_fifo canfd_can unit hwfifo_ops
              empty_frames 40 7 hwfifo_dev)
    as (nsent & nexttail & dev' & Hrun & Hn & Hempty & _).
  - intros h m. exists h. reflexivity.
  - reflexivity.
  - reflexivity.
  - apply tx_orderedb_spec. reflexivity.
  - reflexivity.
  - reflexivity.
  - reflexivity.
  - intros j Hj.
    do 8 (destruct j as [| j]; [vm_compute; discriminate |]). lia.
  - exists nexttail, dev'. change 35 with
      (fst (@enqueue_frames canfd_can empty_frames 7 0 (cd_xmit hwfifo_dev))).
    rewrite <- Hn. split; [exact Hrun | exact Hempty].
Defined.

(** ** The receive side and the transmit side *)

Section RxLeavesTx.
Context `{Cfg : can_config} {H : Type} `{Ops : can_ops H}.
Implicit Type dev : can_dev_s H.

Lemma can_read_fifo_frame (nonblock : bool) (buflen : Z) (buffer : userbuf)
    dev :
  rx_wf (cd_recv dev) ->
  exists o,
    can_read_fifo nonblock buflen buffer dev = Some o
    /\ cd_xmit (read_dev o) = cd_xmit dev
    /\ cd_priv (read_dev o) = cd_priv dev.
Proof.
  intros Hwf. unfold can_read_fifo.
  destruct (Z.eqb_spec (rx_head (cd_recv dev)) (rx_tail (cd_recv dev)))
    as [Hempty | Hmore].
  - destruct nonblock; eexists; (split; [reflexivity |]); split; reflexivity.
  - destruct (can_read_copy_drains buflen read_fuel 0 buffer dev Hwf Hmore)
      as (Hrun & _).
    { unfold read_fuel.
      assert (ring_dist (rx_head (cd_recv dev)) (rx_tail (cd_recv dev))
              < CONFIG_CAN_FIFOSIZE)
        by (revert Hwf; clear; intros Hwf; rx_solve).
      lia. }
    eexists. split; [exact Hrun |]. split; reflexivity.
Qed.

(** X19: the receive side never touches the transmit side.  [can_receive],
    [can_read] and a [can_read] that resumes from its wait return and leave
    the TX FIFO, its semaphore and the state of the lower half exactly as they
    were; [can_rtrread], its resumption and [can_ioctl] with whatever
    command leave the TX FIFO as it was. *)
Theorem rx_side_leaves_tx_alone dev :
  rx_wf (cd_recv dev) ->
  length (cd_rtr dev) = CONFIG_CAN_NPENDINGRTR ->
  (forall um hdr data,
     exists ret dev' um',
       can_receive dev um hdr data = Some (ret, dev', um')
       /\ cd_xmit dev' = cd_xmit dev /\ cd_priv dev' = cd_priv dev)
  /\ (forall nonblock buflen buffer,
        exists o,
          can_read nonblock buflen buffer dev = Some o
          /\ cd_xmit (read_dev o) = cd_xmit dev
          /\ cd_priv (read_dev o) = cd_priv dev)
  /\ (forall nonblock buflen res buffer,
        exists o,
          can_read_wake nonblock buflen res buffer dev = Some o
          /\ cd_xmit (read_dev o) = cd_xmit dev
          /\ cd_priv (read_dev o) = cd_priv dev)
  /\ (forall rtr, cd_xmit (rtr_dev (can_rtrread dev rtr)) = cd_xmit dev)
  /\ (forall res slot,
        cd_xmit (rtr_dev (can_rtrread_wake res slot dev)) = cd_xmit dev)
  /\ (forall cmd arg rtr,
        cd_xmit (rtr_dev (can_ioctl dev cmd arg rtr)) = cd_xmit dev).
Proof.
  intros Hwf Hlen.
  assert (forall rtr, cd_xmit (rtr_dev (can_rtrread dev rtr)) = cd_xmit dev)
    as Hrtr.
  { intros rtr. unfold can_rtrread.
    assert (forall n i,
              cd_xmit (fst (can_rtrread_find n i rtr dev)) = cd_xmit dev)
      as Hfind.
    { induction n as [| n IH]; intros i; cbn [can_rtrread_find];
        [reflexivity |].
      destruct (ci_msg rtr); [apply IH | reflexivity]. }
    specialize (Hfind CONFIG_CAN_NPENDINGRTR 0%nat).
    destruct (can_rtrread_find CONFIG_CAN_NPENDINGRTR 0 rtr dev)
      as [dev1 [i |]]; cbn [fst] in Hfind; [| exact Hfind].
    destruct (dev_remoterequest _ _) as [h ret].
    destruct (ret =? OK); exact Hfind. }
  split; [| split; [| split; [| split; [exact Hrtr | split]]]].
  - intros um hdr data.
    destruct (pending_scan_total dev um hdr data Hlen)
      as (dev1 & um1 & data1 & Hscan & Hfr).
    destruct Hfr as (_ & Hx & _ & _ & _ & Hp & _).
    unfold can_receive. rewrite Hscan.
    destruct (negb _).
    + do 3 eexists. split; [reflexivity |]. split; [exact Hx | exact Hp].
    + destruct CONFIG_CAN_ERRORS; do 3 eexists;
        (split; [reflexivity |]); (split; [exact Hx | exact Hp]).
  - intros nonblock buflen buffer. unfold can_read.
    destruct (CAN_MSGLEN 0 <=? buflen).
    + destruct (CONFIG_CAN_ERRORS && negb (cd_error dev =? 0)).
      * destruct (buflen <? CAN_MSGLEN CAN_ERROR_DLC); eexists;
          (split; [reflexivity |]); split; reflexivity.
      * now apply can_read_fifo_frame.
    + eexists. split; [reflexivity |]. split; reflexivity.
  - intros nonblock buflen res buffer. unfold can_read_wake.
    destruct res as [| errno].
    + cbn [cd_recv with_recv rx_head rx_tail with_rx_sem].
      destruct (rx_head (cd_recv dev) =? rx_tail (cd_recv dev)).
      * eexists. split; [reflexivity |]. split; reflexivity.
      * set (dev2 := with_nrxwaiters _ _).
        destruct (can_read_fifo_frame nonblock buflen buffer dev2)
          as (o & Hrun & Hx & Hp); [exact Hwf |].
        exists o. split; [exact Hrun |]. split; [exact Hx | exact Hp].
    + eexists. split; [reflexivity |]. split; reflexivity.
  - intros res slot. destruct res; reflexivity.
  - intros cmd arg rtr. unfold can_ioctl.
    destruct (cmd =? CANIOC_RTR); [apply Hrtr |].
    destruct (dev_ioctl _ _ _) as [h ret]. reflexivity.
Qed.

End RxLeavesTx.

(** X19 on the device that holds two received messages *)
Lemma rx_side_leaves_tx_alone_witness :
  exists o,
    @can_read classic_can Z true 64 blank_buf two_rx_dev = Some o
    /\ cd_xmit (read_dev o) = cd_xmit two_rx_dev.
Proof.
  destruct (@rx_side_leaves_tx_alone classic_can Z mailbox_ops two_rx_dev)
    as (_ & Hread & _).
  - vm_compute. repeat split; try reflexivity; discriminate.
  - reflexivity.
  - destruct (Hread true 64 blank_buf) as (o & Hrun & Hx & _).
    exists o. split; [exact Hrun | exact Hx].
Defined.

(** ** From registration to the first open *)

Section Startup.
Context `{Cfg : can_config} {H : Type} `{Ops : can_ops H}.
Implicit Type dev : can_dev_s H.

Lemma count_slots_fmap_free (f : can_rtrwait_s -> can_rtrwait_s)
    (l : list can_rtrwait_s) :
  (forall s, slot_in_use (f s) = false) ->
  count_slots slot_in_use (f <$> l) = 0%nat.
Proof.
  intros Hf. induction l as [| s l IH]; [reflexivity |].
  cbn [fmap list_fmap count_slots]. rewrite Hf. exact IH.
Qed.

(** X20: [can_register] followed by the first [can_open], on hardware that
    sets up, leaves the driver in the state that the other properties start
    from: opened once, both FIFOs empty with their indices at 0 and in
    order, every RTR slot free and none counted, no reader or writer waiting,
    the three semaphores of the FIFOs and of the close at 0, 0 and 1, no error
    latched, and the hardware reset, set up and with its RX interrupt on. *)
Theorem can_register_then_open dev :
  0 < CONFIG_CAN_FIFOSIZE ->
  length (rx_buffer (cd_recv dev)) = Z.to_nat CONFIG_CAN_FIFOSIZE ->
  snd (dev_setup (dev_reset (cd_priv dev))) = OK ->
  exists dev',
    can_open SemOk (can_register dev) = (dev', OK)
    /\ cd_ocount dev' = 1
    /\ tx_drained 0 (cd_xmit dev') /\ tx_ordered (cd_xmit dev')
    /\ tx_buffer (cd_xmit dev') = tx_buffer (cd_xmit dev)
    /\ rx_wf (cd_recv dev') /\ rx_contents (cd_recv dev') = []
    /\ rtr_occupied (cd_rtr dev') = 0%nat /\ rtr_counted dev'
    /\ length (cd_rtr dev') = length (cd_rtr dev)
    /\ cd_ntxwaiters dev' = 0 /\ cd_nrxwaiters dev' = 0
    /\ tx_sem (cd_xmit dev') = 0 /\ rx_sem (cd_recv dev') = 0
    /\ cd_closesem dev' = 1
    /\ (CONFIG_CAN_ERRORS = true -> cd_error dev' = 0)
    /\ cd_priv dev'
       = dev_rxint (fst (dev_setup (dev_reset (cd_priv dev)))) true.
Proof.
  intros Hcap Hlen Hsetup.
  assert (rtr_occupied (cd_rtr (can_register dev)) = 0%nat) as Hfree
    by (apply count_slots_fmap_free; intros s; reflexivity).
  unfold can_open.
  cbn [cd_ocount cd_priv cd_closesem can_register with_closesem].
  change (u8 (0 + 1) =? 0) with false. change (u8 (0 + 1) =? 1) with true.
  cbv iota.
  destruct (dev_setup (dev_reset (cd_priv dev))) as [h ret].
  cbn [fst snd] in *. subst ret. change (OK =? OK) with true. cbv iota.
  eexists. split; [reflexivity |].
  cbn [cd_ocount cd_xmit cd_recv cd_rtr cd_npendrtr cd_ntxwaiters
       cd_nrxwaiters cd_closesem cd_error cd_priv with_closesem with_ocount
       with_priv with_recv with_xmit tx_sem tx_buffer rx_sem with_tx_tail
       with_tx_queue with_tx_head with_tx_sem with_rx_tail with_rx_head
       with_rx_sem] in *.
  split; [reflexivity |].
  split; [repeat split |].
  split.
  { unfold tx_ordered, in_ring, ring_dist.
    cbn [tx_head tx_queue tx_tail with_tx_tail with_tx_queue with_tx_head].
    repeat split; lia. }
  split; [reflexivity |].
  split.
  { unfold rx_wf, in_ring.
    cbn [rx_head rx_tail rx_buffer with_rx_tail with_rx_head with_rx_sem].
    repeat split; try lia. exact Hlen. }
  split; [apply rx_contents_nil; reflexivity |].
  split; [exact Hfree |].
  split.
  { unfold rtr_counted.
    cbn [cd_npendrtr cd_rtr with_closesem with_ocount with_priv with_recv
         with_xmit can_register].
    cbn [cd_rtr can_register] in Hfree. now rewrite Hfree. }
  split; [apply length_fmap |].
  split; [reflexivity |]. split; [reflexivity |].
  split; [reflexivity |]. split; [reflexivity |].
  split; [reflexivity |].
  split; [| reflexivity].
  intros Herr.
  cbn [cd_error with_closesem with_ocount with_priv with_recv with_xmit
       can_register].
  rewrite Herr. reflexivity.
Qed.

End Startup.

(** X20 on the mailbox controller with four messages per FIFO *)
Lemma can_register_then_open_witness :
  exists dev',
    @can_open classic_can Z mailbox_ops SemOk
      (@can_register classic_can Z mailbox_ops (blank_dev 4 4 8 0))
    = (dev', OK)
    /\ @tx_ordered classic_can (cd_xmit dev')
    /\ @rx_wf classic_can (cd_recv dev').
Proof.
  destruct (@can_register_then_open classic_can Z mailbox_ops
              (blank_dev 4 4 8 0))
    as (dev' & Hopen & _ & _ & Hord & _ & Hwf & _).
  - reflexivity.
  - reflexivity.
  - reflexivity.
  - exists dev'. split; [exact Hopen |]. split; [exact Hord | exact Hwf].
Defined.

(** ** The TX-ready work item *)

Section TxReady.
Context `{Cfg : can_config} {H : Type} `{Ops : can_ops H}.
Implicit Type dev : can_dev_s H.

(** X21: [can_txready] changes nothing but the work item: it queues the work
    and returns OK when the TX FIFO holds a message and no work is queued,
    returns -EBUSY when the work is queued already, and -ENOENT when the FIFO
    is empty.  The work, [can_txready_work], does nothing on an empty FIFO;
    otherwise it runs [can_xmit]: it returns, keeps the order of the TX
    indices, frees no slot that was not completed, never posts [tx_sem]
    unless a writer waits, and touches nothing of the receive side, the RTR
    list, the error latch or the open count. *)
Theorem can_txready_schedules_work dev :
  tx_ordered (cd_xmit dev) ->
  (fst (can_txready dev)
   = with_work
       (cd_work dev
        || negb (tx_head (cd_xmit dev) =? tx_tail (cd_xmit dev))) dev
   /\ snd (can_txready dev)
      = (if tx_head (cd_xmit dev) =? tx_tail (cd_xmit dev) then - ENOENT
         else if cd_work dev then - EBUSY else OK))
  /\ exists dev',
       can_txready_work dev = Some dev'
       /\ tx_ordered (cd_xmit dev')
       /\ tx_tail (cd_xmit dev') = tx_tail (cd_xmit dev)
       /\ tx_buffer (cd_xmit dev') = tx_buffer (cd_xmit dev)
       /\ tx_pending (cd_xmit dev') <= tx_pending (cd_xmit dev)
       /\ cd_ntxwaiters dev' = cd_ntxwaiters dev
       /\ tx_sem (cd_xmit dev) <= tx_sem (cd_xmit dev')
       /\ (cd_ntxwaiters dev <= 0 ->
           tx_sem (cd_xmit dev') = tx_sem (cd_xmit dev))
       /\ cd_recv dev' = cd_recv dev /\ cd_rtr dev' = cd_rtr dev
       /\ cd_npendrtr dev' = cd_npendrtr dev
       /\ cd_nrxwaiters dev' = cd_nrxwaiters dev
       /\ cd_error dev' = cd_error dev /\ cd_ocount dev' = cd_ocount dev
       /\ (tx_head (cd_xmit dev) = tx_tail (cd_xmit dev) -> dev' = dev).
Proof.
  intros Hord. split.
  - assert (with_work (cd_work dev) dev = dev) as Hsame
      by (destruct dev; reflexivity).
    unfold can_txready, tx_empty.
    destruct (tx_head (cd_xmit dev) =? tx_tail (cd_xmit dev)); cbn [negb].
    + rewrite orb_false_r, Hsame. split; reflexivity.
    + destruct (cd_work dev) eqn:Hwork; cbn [negb fst snd orb].
      * rewrite Hsame. split; reflexivity.
      * split; reflexivity.
  - unfold can_txready_work, tx_empty.
    destruct (Z.eqb_spec (tx_head (cd_xmit dev)) (tx_tail (cd_xmit dev)))
      as [Hempty | Hmore]; cbn [negb].
    + exists dev. split; [reflexivity |].
      split; [exact Hord |]. repeat (split; [reflexivity || lia |]).
      intros _. reflexivity.
    + destruct (can_xmit_effect dev Hord) as (dev1 & r & -> & Heff).
      destruct Heff as ((Hord1 & Ht & Hb & _ & Hh) & Hw & Hs & Hrecv & Hrtr
                        & Hn & Hx & He & Ho & _).
      assert (tx_pending (cd_xmit dev1) <= tx_pending (cd_xmit dev)) as Hpend
        by (unfold tx_pending; exact Hh).
      destruct ((0 <=? r) && (cd_ntxwaiters dev1 >? 0)) eqn:Hpost.
      * apply andb_prop in Hpost as [_ Hwait].
        rewrite Hw in Hwait.
        exists (sem_post_tx dev1). split; [reflexivity |].
        unfold sem_post_tx, sem_post.
        cbn [cd_xmit with_xmit tx_head tx_queue tx_tail tx_buffer tx_sem
             with_tx_sem cd_ntxwaiters cd_recv cd_rtr cd_npendrtr
             cd_nrxwaiters cd_error cd_ocount].
        rewrite Hwait in Hs.
        split; [exact Hord1 |]. split; [exact Ht |]. split; [exact Hb |].
        split; [exact Hpend |]. split; [exact Hw |].
        split; [lia |].
        split; [intros Hnone; apply Z.gtb_lt in Hwait; lia |].
        repeat (split; [assumption |]).
        intros Heq; contradiction.
      * exists dev1. split; [reflexivity |].
        split; [exact Hord1 |]. split; [exact Ht |]. split; [exact Hb |].
        split; [exact Hpend |]. split; [exact Hw |].
        split; [destruct (cd_ntxwaiters dev >? 0); lia |].
        split.
        { intros Hnone. destruct (Z.gtb_spec (cd_ntxwaiters dev) 0); lia. }
        repeat (split; [assumption |]).
        intros Heq; contradiction.
Qed.

End TxReady.

(** ** An overflow of the RX FIFO, from the loss to the report *)

Section Overflow.
Context `{Cfg : can_config} {H : Type}.
Implicit Type dev : can_dev_s H.

(** X22: with errors compiled in and nothing latched, a frame that arrives
    while the RX FIFO is full is refused with -ENOMEM and none of the queued
    messages is lost.  The next [can_read] with room for the error report
    returns that report and nothing else: the internal error message with
    the RX-overflow bit in data byte 5; it clears the latch and takes no
    message off the FIFO.  The [can_read] after that returns the queued
    messages, oldest first. *)
Theorem rx_overflow_reported_once (nonblock : bool) (buflen : Z)
    (buffer : userbuf) dev (um : usermem) (hdr : can_hdr_s) (data : list Z) :
  CONFIG_CAN_ERRORS = true ->
  cd_error dev = 0 ->
  rx_wf (cd_recv dev) ->
  1 < CONFIG_CAN_FIFOSIZE ->
  length (cd_rtr dev) = CONFIG_CAN_NPENDINGRTR ->
  fifo_next (rx_tail (cd_recv dev)) = rx_head (cd_recv dev) ->
  0 < CAN_ERROR5_RXOVERFLOW < 256 ->
  CAN_MSGLEN 0 <= buflen -> CAN_MSGLEN CAN_ERROR_DLC <= buflen ->
  5 < CAN_ERROR_DLC <= Z.of_nat (length (cm_data (buffer 0))) ->
  exists dev1 um1 buffer1 dev2 (k : nat) dev3,
    let msgs := rx_contents (cd_recv dev) in
    can_receive dev um hdr data = Some (- ENOMEM, dev1, um1)
    /\ rx_contents (cd_recv dev1) = msgs
    /\ can_read nonblock buflen buffer dev1
       = Some (ReadRet (CAN_MSGLEN CAN_ERROR_DLC) buffer1 dev2)
    /\ ch_id (cm_hdr (buffer1 0)) = CAN_ERROR_INTERNAL
    /\ ch_error (cm_hdr (buffer1 0)) = 1
    /\ cm_data (buffer1 0) !! 5%nat = Some CAN_ERROR5_RXOVERFLOW
    /\ cd_error dev2 = 0
    /\ rx_contents (cd_recv dev2) = msgs
    /\ msgs <> []
    /\ can_read nonblock buflen buffer1 dev2
       = Some (ReadRet (frames_len (take k msgs))
                 (store_frames (take k msgs) 0 buffer1) dev3)
    /\ rx_contents (cd_recv dev3) = drop k msgs.
Proof.
  intros Herrs Hclean Hwf Hcap Hlen Hfull Hbit Hbuf0 Hbuf Hdlc.
  destruct (pending_scan_total dev um hdr data Hlen)
    as (dev1 & um1 & data1 & Hscan & Hfr).
  destruct Hfr as (Hrecv & _ & Herr & _).
  set (dev1' := with_error (u8 (Z.lor (cd_error dev1)
                                  CAN_ERROR5_RXOVERFLOW)) dev1).
  assert (can_receive dev um hdr data = Some (- ENOMEM, dev1', um1))
    as Hrun1.
  { unfold can_receive. rewrite Hscan, Hrecv, Hfull, Z.eqb_refl, Herrs.
    reflexivity. }
  assert (cd_error dev1' = CAN_ERROR5_RXOVERFLOW) as Hlatch.
  { subst dev1'. cbn [cd_error with_error]. rewrite Herr, Hclean.
    rewrite Z.lor_0_l. apply u8_small. lia. }
  assert (cd_recv dev1' = cd_recv dev) as Hrecv1 by exact Hrecv.
  set (buffer1 := buf_store 0 (error_msg (cd_error dev1') (buffer 0)) buffer).
  assert (can_read nonblock buflen buffer dev1'
          = Some (ReadRet (CAN_MSGLEN CAN_ERROR_DLC) buffer1
                    (with_error 0 dev1'))) as Hrun2.
  { unfold can_read. rewrite Herrs, Hlatch.
    destruct (Z.leb_spec (CAN_MSGLEN 0) buflen); [| lia].
    destruct (Z.eqb_spec CAN_ERROR5_RXOVERFLOW 0); [lia |]. cbn [negb andb].
    destruct (Z.ltb_spec buflen (CAN_MSGLEN CAN_ERROR_DLC)); [lia |].
    subst buffer1. rewrite Hlatch. reflexivity. }
  set (dev2 := with_error 0 dev1') in *.
  assert (cd_recv dev2 = cd_recv dev) as Hrecv2 by exact Hrecv.
  assert (rx_head (cd_recv dev) <> rx_tail (cd_recv dev)) as Hne
    by (revert Hfull Hcap; clear -Hwf; intros Hfull Hcap; rx_solve).
  destruct (can_read_drains nonblock buflen buffer1 dev2) as (dev3 & Hrun3
                                                              & Hrest & _).
  { rewrite Hrecv2. exact Hwf. }
  { rewrite Hrecv2. exact Hne. }
  { exact Hbuf0. }
  { intros _. reflexivity. }
  rewrite Hrecv2 in Hrun3, Hrest.
  exists dev1', um1, buffer1, dev2,
    (fit_count buflen 0 (rx_contents (cd_recv dev))), dev3.
  cbn zeta. split; [exact Hrun1 |].
  split; [now rewrite Hrecv1 |]. split; [exact Hrun2 |].
  split; [reflexivity |]. split; [reflexivity |].
  split.
  { subst buffer1. unfold buf_store. cbn [Z.eqb error_msg cm_data].
    rewrite Hlatch. apply list_lookup_insert_eq.
    rewrite memset0_length. lia. }
  split; [reflexivity |]. split; [now rewrite Hrecv2 |].
  split; [| split; [exact Hrun3 | exact Hrest]].
  rewrite (rx_contents_cons _ Hwf Hne). discriminate.
Qed.

End Overflow.

(** X21 on the mailbox controller with a message waiting and a writer
    blocked *)
Lemma can_txready_schedules_work_witness :
  exists dev',
    @can_txready_work classic_can Z mailbox_ops sending_dev = Some dev'
    /\ cd_recv dev' = cd_recv sending_dev.
Proof.
  destruct (@can_txready_schedules_work classic_can Z mailbox_ops sending_dev)
    as (_ & dev' & Hrun & _ & _ & _ & _ & _ & _ & _ & Hrecv & _).
  - apply tx_orderedb_spec. reflexivity.
  - exists dev'. split; [exact Hrun | exact Hrecv].
Defined.

(** X22 on the device whose RX FIFO of four entries holds three messages *)
Lemma rx_overflow_reported_once_witness :
  exists dev1 um1 buffer1 dev2,
    @can_receive classic_can Z full_rx_dev one_waiter_mem
      (cm_hdr (frame 1 1 [])) [7] = Some (-12, dev1, um1)
    /\ @can_read classic_can Z true 64 blank_buf dev1
       = Some (ReadRet 13 buffer1 dev2)
    /\ cm_data (buffer1 0) !! 5%nat = Some 1
    /\ cd_error dev2 = 0.
Proof.
  destruct (@rx_overflow_reported_once classic_can Z true 64 blank_buf
              full_rx_dev one_waiter_mem (cm_hdr (frame 1 1 [])) [7])
    as (dev1 & um1 & buffer1 & dev2 & k & dev3 & Hrecv & _ & Hread & _ & _
        & Hbyte & Hclear & _).
  - reflexivity.
  - reflexivity.
  - vm_compute. repeat split; try reflexivity; discriminate.
  - reflexivity.
  - reflexivity.
  - reflexivity.
  - vm_compute. split; reflexivity.
  - vm_compute. discriminate.
  - vm_compute. discriminate.
  - vm_compute. split; [reflexivity | discriminate].
  - exists dev1, um1, buffer1, dev2.
    split; [exact Hrecv |]. split; [exact Hread |].
    split; [exact Hbyte | exact Hclear].
Defined.

(** ** A writer that waits for room *)

Section WriteWaiters.
Context `{Cfg : can_config} {H : Type} `{Ops : can_ops H}.
Implicit Type dev : can_dev_s H.

Variable nonblock : bool.
Variable buffer : userbuf.
Variable buflen : Z.

(** A stretch of [can_write] counts itself in [cd_ntxwaiters] when it ends in
    the wait, and leaves the count alone when it returns. *)
Lemma can_write_loop_waiters (fuel : nat) :
  forall (nsent : Z) (inactive : bool) dev o,
    tx_ordered (cd_xmit dev) ->
    can_write_loop nonblock buffer buflen fuel nsent inactive dev = Some o ->
    cd_ntxwaiters (write_dev o)
    = match o with
      | WriteRet _ _ => cd_ntxwaiters dev
      | WriteWait _ _ _ => u8 (cd_ntxwaiters dev + 1)
      end.
Proof.
  induction fuel as [| fuel IH]; intros nsent inactive dev o Hord Hrun;
    [discriminate Hrun |].
  assert (forall d r,
            (if inactive then can_xmit dev else Some (dev, OK)) = Some (d, r) ->
            cd_ntxwaiters d = cd_ntxwaiters dev) as Hkick.
  { intros d r Hk. destruct inactive.
    - destruct (can_xmit_effect dev Hord) as (d' & r' & Hx & Heff).
      rewrite Hx in Hk. injection Hk as <- _. apply Heff.
    - injection Hk as <- _. reflexivity. }
  cbn [can_write_loop] in Hrun.
  destruct (CAN_MSGLEN 0 <=? (buflen - nsent) mod SIZE_MAX1).
  - unfold can_write_slot in Hrun.
    destruct (Z.eqb_spec (fifo_next (tx_tail (cd_xmit dev)))
                (tx_head (cd_xmit dev))) as [Hfull | Hroom].
    + destruct nonblock.
      * injection Hrun as <-. reflexivity.
      * destruct (if inactive then can_xmit dev else Some (dev, OK))
          as [[d r] |] eqn:Hk; [| discriminate Hrun].
        injection Hrun as <-. cbn [write_dev can_write_wait cd_ntxwaiters
                                   with_ntxwaiters].
        now rewrite (Hkick d r).
    + set (slot := copy_msg _ _ _) in Hrun.
      destruct (tx_tail_step (cd_xmit dev)
                  (<[Z.to_nat (tx_tail (cd_xmit dev)) := slot]>
                     (tx_buffer (cd_xmit dev))) Hord Hroom) as (Hord1 & _).
      apply IH in Hrun; [| exact Hord1]. exact Hrun.
  - destruct (if inactive then can_xmit dev else Some (dev, OK))
      as [[d r] |] eqn:Hk; [| discriminate Hrun].
    injection Hrun as <-. cbn [write_dev]. now apply (Hkick d r).
Qed.

End WriteWaiters.

Section BlockedWriter.
Context `{Cfg : can_config} {H : Type} (Ops : can_ops H).
Implicit Type dev : can_dev_s (H * list can_msg_s).

(** X23: a blocking [can_write] that finds the TX FIFO full while the
    hardware is busy waits, counted in [cd_ntxwaiters], at once and with
    nothing copied.  The [can_txdone] that follows frees a slot and posts
    [tx_sem].  The writer, resumed, then copies its first message, and
    further ones as room allows, behind everything that was sent or waits: no
    message is lost or overtaken.  When the call returns, [cd_ntxwaiters] is
    what it was before the call; when it waits again, it is counted once. *)
Theorem blocked_write_is_served (buffer : userbuf) (buflen : Z) dev :
  tx_ordered (cd_xmit dev) ->
  length (tx_buffer (cd_xmit dev)) = Z.to_nat CONFIG_CAN_FIFOSIZE ->
  fifo_next (tx_tail (cd_xmit dev)) = tx_head (cd_xmit dev) ->
  tx_head (cd_xmit dev) <> tx_queue (cd_xmit dev) ->
  dev_txempty (can_ops := logged_ops Ops) (cd_priv dev) = false ->
  0 <= cd_ntxwaiters dev < 255 ->
  CAN_MSGLEN 0 <= buflen mod SIZE_MAX1 ->
  let nexttail := fifo_next (tx_tail (cd_xmit dev)) in
  let dev1 := with_ntxwaiters (cd_ntxwaiters dev + 1) dev in
  exists dev2 o slot slots,
    can_write (Ops := logged_ops Ops) false buffer buflen dev
    = Some (WriteWait 0 nexttail dev1)
    /\ can_txdone (Ops := logged_ops Ops) dev1 = Some (dev2, OK)
    /\ tx_sem (cd_xmit dev) < tx_sem (cd_xmit dev2)
    /\ tx_stream dev2 = tx_stream dev
    /\ can_write_wake (Ops := logged_ops Ops) false buffer buflen SemOk 0
         nexttail dev2 = Some o
    /\ tx_stream (write_dev o) = tx_stream dev ++ slot :: slots
    /\ holds_frame slot (buffer 0)
    /\ cd_ntxwaiters (write_dev o)
       = match o with
         | WriteRet _ _ => cd_ntxwaiters dev
         | WriteWait _ _ _ => cd_ntxwaiters dev + 1
         end.
Proof.
  intros Hord Hlen Hfull Hsent Hbusy Hn Hbuf nexttail dev1.
  assert (can_write (Ops := logged_ops Ops) false buffer buflen dev
          = Some (WriteWait 0 nexttail dev1)) as Hwait.
  { unfold can_write. rewrite Hbusy. cbn [write_fuel can_write_loop].
    rewrite Z.sub_0_r.
    destruct (Z.leb_spec (CAN_MSGLEN 0) (buflen mod SIZE_MAX1)); [| lia].
    unfold can_write_slot. rewrite Hfull, Z.eqb_refl.
    unfold can_write_wait. rewrite u8_small by lia.
    subst nexttail. rewrite Hfull. reflexivity. }
  assert (tx_ordered (cd_xmit dev1)) as Hord1 by exact Hord.
  destruct (can_txdone_post (Ops := logged_ops Ops)
              (fun a b => tx_effect a b /\ tx_stream_kept a b))
    with (dev := dev1)
    as (dev2 & r & Hdone & (Heff & Hkept) & Hok & _).
  { intros a b (Ha & _). apply Ha. }
  { intros d Hd. split; [now apply tx_effect_refl | now apply tx_stream_refl]. }
  { intros a b c (Ha1 & Ha2) (Hb1 & Hb2).
    split; [eapply tx_effect_trans | eapply tx_stream_trans]; eassumption. }
  { intros d h callback r Hd Hne d1 Hs.
    split; [now apply tx_effect_send |].
    now apply (tx_stream_send Ops d h callback r). }
  { intros d d2 Hd Hne (Ha & Hb).
    split; [now apply tx_effect_txdone | now apply tx_stream_txdone]. }
  { intros a b on (Ha & Hb). split; [exact Ha | exact Hb]. }
  { exact Hord1. }
  { intros _. exact Hsent. }
  assert (tx_head (cd_xmit dev) <> tx_tail (cd_xmit dev)) as Hne
    by (revert Hsent; clear -Hord; intros Hsent; ring_solve).
  rewrite (Hok Hne) in Hdone.
  assert (tx_pending (cd_xmit dev2) < tx_pending (cd_xmit dev)) as Hless.
  { unfold can_txdone, can_txdone_fuel, can_txdone_with, tx_empty in Hdone.
    change (cd_xmit dev1) with (cd_xmit dev) in Hdone.
    destruct (Z.eqb_spec (tx_head (cd_xmit dev)) (tx_tail (cd_xmit dev)))
      as [Heq | _]; [contradiction |].
    destruct (tx_head_step (cd_xmit dev) Hord Hsent) as (Hordh & _ & Hh).
    set (dh := with_xmit _ dev1) in Hdone.
    destruct (can_xmit_effect (Ops := logged_ops Ops) dh Hordh)
      as (d3 & r3 & Hx & ((_ & Ht3 & _ & _ & Hh3) & _)).
    fold (can_xmit (Ops := logged_ops Ops) dh) in Hdone.
    rewrite Hx in Hdone.
    assert (tx_head (cd_xmit dev2) = tx_head (cd_xmit d3)
            /\ tx_tail (cd_xmit dev2) = tx_tail (cd_xmit d3)) as [Hh2 Ht2]
      by (destruct (cd_ntxwaiters d3 >? 0); injection Hdone as <-;
          split; reflexivity).
    unfold tx_pending. rewrite Hh2, Ht2.
    subst dh. cbn [cd_xmit with_xmit tx_head tx_tail with_tx_head] in *.
    lia. }
  destruct Heff as ((Hord2 & Ht2 & Hb2 & _) & Hw2 & Hs2 & _).
  change (cd_xmit dev1) with (cd_xmit dev) in *.
  change (cd_ntxwaiters dev1) with (cd_ntxwaiters dev + 1) in *.
  destruct (Z.gtb_spec (cd_ntxwaiters dev + 1) 0) as [_ | Hno]; [| lia].
  assert (tx_stream dev2 = tx_stream dev) as Hstream2 by apply Hkept.
  (* the writer resumes *)
  set (dev3 := with_xmit (with_tx_sem (sem_take (tx_sem (cd_xmit dev2)))
                            (cd_xmit dev2))
                 (with_ntxwaiters (u8 (cd_ntxwaiters dev2 - 1)) dev2)).
  assert (tx_ordered (cd_xmit dev3)) as Hord3 by exact Hord2.
  assert (tx_stream dev3 = tx_stream dev) as Hstream3 by exact Hstream2.
  assert (cd_ntxwaiters dev3 = cd_ntxwaiters dev) as Hw3.
  { subst dev3. cbn [cd_ntxwaiters with_xmit with_ntxwaiters].
    rewrite Hw2, u8_small by lia. lia. }
  assert (fifo_next (tx_tail (cd_xmit dev3)) <> tx_head (cd_xmit dev3))
    as Hroom.
  { intros Heq. apply (tx_pending_full _ Hord3) in Heq.
    apply (tx_pending_full _ Hord) in Hfull.
    change (cd_xmit dev3)
      with (with_tx_sem (sem_take (tx_sem (cd_xmit dev2))) (cd_xmit dev2))
      in Heq.
    unfold tx_pending in *. cbn [tx_head tx_tail with_tx_sem] in Heq. lia. }
  assert (length (tx_buffer (cd_xmit dev3)) = Z.to_nat CONFIG_CAN_FIFOSIZE)
    as Hlen3.
  { change (tx_buffer (cd_xmit dev3)) with (tx_buffer (cd_xmit dev2)).
    now rewrite Hb2. }
  assert (nexttail = fifo_next (tx_tail (cd_xmit dev3))) as Hnt
    by (subst nexttail; change (tx_tail (cd_xmit dev3))
          with (tx_tail (cd_xmit dev2)); now rewrite Ht2).
  set (slot := copy_msg (can_dlc2bytes (ch_dlc (cm_hdr (buffer 0))))
                 (buffer 0)
                 (msg_at (tx_buffer (cd_xmit dev3)) (tx_tail (cd_xmit dev3)))).
  destruct (tx_tail_step (cd_xmit dev3)
              (<[Z.to_nat (tx_tail (cd_xmit dev3)) := slot]>
                 (tx_buffer (cd_xmit dev3))) Hord3 Hroom)
    as (Hord4 & Hpend4).
  pose proof (tx_tail_append (cd_xmit dev3) slot Hord3 Hlen3 Hroom) as Happ.
  set (f4 := with_tx_tail _ _) in *.
  set (inactive := dev_txempty (can_ops := logged_ops Ops) (cd_priv dev3)).
  destruct (can_write_loop_stream Ops false buffer buflen write_fuel
              (0 + frame_len (buffer 0)) inactive (with_xmit f4 dev3))
    as (o & k & slots & Hrun & Hs & _).
  { exact Hord4. }
  { subst f4. cbn [cd_xmit with_xmit tx_buffer with_tx_tail with_tx_buffer].
    now rewrite length_insert. }
  { cbn [cd_xmit with_xmit].
    pose proof (ring_dist_bound (tx_head (cd_xmit dev3))
                  (tx_tail (cd_xmit dev3)) (tx_ordered_capacity _ Hord3)).
    unfold write_fuel, tx_pending in *. lia. }
  pose proof (can_write_loop_waiters (Ops := logged_ops Ops) false buffer
                buflen write_fuel (0 + frame_len (buffer 0)) inactive
                (with_xmit f4 dev3) o Hord4 Hrun) as Hwo.
  exists dev2, o, slot, slots.
  split; [exact Hwait |]. split; [exact Hdone |].
  split; [rewrite Hs2; lia |]. split; [exact Hstream2 |].
  split.
  { change (can_write_slot (Ops := logged_ops Ops) false buffer
              (can_write_loop (Ops := logged_ops Ops) false buffer buflen
                 write_fuel)
              0 nexttail inactive dev3 = Some o).
    unfold can_write_slot. rewrite Hnt.
    destruct (Z.eqb_spec (fifo_next (tx_tail (cd_xmit dev3)))
                (tx_head (cd_xmit dev3))) as [Heq | _]; [contradiction |].
    exact Hrun. }
  split.
  { rewrite Hs. unfold tx_stream in *. cbn [cd_xmit with_xmit cd_priv].
    rewrite Happ, <- Hstream3, <- !app_assoc. reflexivity. }
  split; [eexists; reflexivity |].
  rewrite Hwo. cbn [cd_ntxwaiters with_xmit]. rewrite Hw3.
  destruct o; [reflexivity | apply u8_small; lia].
Qed.

End BlockedWriter.

(** X23 on the recording mailbox controller with its TX FIFO full: a writer
    of two messages waits, a completion frees a slot, and the writer copies
    its first message. *)
Lemma blocked_write_is_served_witness :
  exists dev2 o slot slots,
    @can_txdone classic_can _ (logged_ops mailbox_ops)
      (with_ntxwaiters 1 logged_full_dev) = Some (dev2, OK)
    /\ @can_write_wake classic_can _ (logged_ops mailbox_ops) false
         two_byte_frames 14 SemOk 0 0 dev2 = Some o
    /\ @tx_stream classic_can Z (write_dev o)
       = @tx_stream classic_can Z logged_full_dev ++ slot :: slots.
Proof.
  destruct (@blocked_write_is_served classic_can Z mailbox_ops
              two_byte_frames 14 logged_full_dev)
    as (dev2 & o & slot & slots & _ & Hdone & _ & _ & Hwake & Hs & _).
  - apply tx_orderedb_spec. reflexivity.
  - reflexivity.
  - reflexivity.
  - vm_compute. discriminate.
  - reflexivity.
  - vm_compute. split; [discriminate | reflexivity].
  - vm_compute. discriminate.
  - exists dev2, o, slot, slots.
    split; [exact Hdone |]. split; [exact Hwake | exact Hs].
Defined.
